(** * Real-Time Drawing Canvas: the session state coordinator

    A shallow embedding of the server's [DrawingState] (operation log with an
    undo/redo cursor, server/drawing-state.js), of the [RoomManager]
    (server/rooms.js), of the socket handlers that drive them (server/server.js)
    and of the client's replay handlers (client/main.js), followed by the
    properties of the specification, each proved or refuted on that model.

    JavaScript numbers that are array lengths, cursors and clock readings are
    modelled as [Z]; arrays as [list]; a [Map] whose iteration order is
    observed as an insertion-ordered association list; a [Map] that is only
    looked up as a [gmap]. *)

From Stdlib Require Import ZArith Lia Ascii.
From stdpp Require Import gmap strings list fin_maps pretty.

Local Open Scope Z_scope.

(** ** JavaScript values and array primitives *)

Module Js.

(** The result of an expression that is an object, [undefined] (an array read
    out of range) or the literal [null]. *)
Inductive value (A : Type) : Type :=
  | Null : value A
  | Undefined : value A
  | Obj : A -> value A.
Arguments Null {A}.
Arguments Undefined {A}.
Arguments Obj {A} _.

(** [arr.length] *)
Definition len {A} (arr : list A) : Z := Z.of_nat (length arr).

(** [arr[i]] for an integer [i]: [undefined] outside [0 .. length-1]. *)
Definition index {A} (arr : list A) (i : Z) : value A :=
  if i <? 0 then Undefined
  else match arr !! Z.to_nat i with
       | Some x => Obj x
       | None => Undefined
       end.

(** [arr.slice(0, e)]: a negative [e] counts from the end, and the bound is
    clamped to [0 .. length]. *)
Definition slice0 {A} (arr : list A) (e : Z) : list A :=
  let final := if e <? 0 then Z.max (len arr + e) 0 else Z.min e (len arr) in
  take (Z.to_nat final) arr.

(** [arr.push(x)] *)
Definition push {A} (arr : list A) (x : A) : list A := arr ++ [x].

(** [arr.shift()], keeping the array that remains. *)
Definition shift {A} (arr : list A) : list A := drop 1 arr.

End Js.

(** ** Operations, server/drawing-state.js *)

Section DrawingState.

(** The stroke payload ([data]) is opaque to the coordinator. *)
Context {Payload : Type}.

Inductive OpType : Type := draw | stroke.

(** The object the socket handlers pass to [addOperation]. *)
Record OperationInput : Type := mkInput {
  in_type : OpType;
  in_data : Payload;
  in_userId : string;
  in_userName : string;
  in_userColor : Js.value string
}.

(** The stored operation: the input spread, then [id] and [timestamp]. *)
Record Operation : Type := mkOperation {
  type : OpType;
  data : Payload;
  userId : string;
  userName : string;
  userColor : Js.value string;
  id : string;
  timestamp : Z
}.

(** What one call of [addOperation] reads from its environment: [Date.now()]
    and the nine base-36 digits cut out of [Math.random()] inside
    [generateOperationId], then [Date.now()] again for the timestamp. *)
Record Entropy : Type := mkEntropy {
  idClock : Z;
  idRandom : string;
  stampClock : Z
}.

(** [generateOperationId()] *)
Definition generateOperationId (e : Entropy) : string :=
  "op_" +:+ pretty (idClock e) +:+ "_" +:+ idRandom e.

(** [{...operation, id: this.generateOperationId(), timestamp: Date.now()}] *)
Definition stamp (e : Entropy) (operation : OperationInput) : Operation :=
  {| type := in_type operation;
     data := in_data operation;
     userId := in_userId operation;
     userName := in_userName operation;
     userColor := in_userColor operation;
     id := generateOperationId e;
     timestamp := stampClock e |}.

Record DrawingState : Type := mkDrawingState {
  operations : list Operation;
  maxHistorySize : Z;
  currentIndex : Z
}.

(** [constructor()] *)
Definition newDrawingState : DrawingState :=
  {| operations := []; maxHistorySize := 1000; currentIndex := -1 |}.

(** [addOperation(operation)]: the returned value and the state after. *)
Definition addOperation (e : Entropy) (operation : OperationInput)
    (s : DrawingState) : Js.value Operation * DrawingState :=
  let ops1 :=
    if currentIndex s <? Js.len (operations s) - 1
    then Js.slice0 (operations s) (currentIndex s + 1)
    else operations s in
  let ops2 := Js.push ops1 (stamp e operation) in
  let idx2 := currentIndex s + 1 in
  let '(ops3, idx3) :=
    if maxHistorySize s <? Js.len ops2
    then (Js.shift ops2, idx2 - 1)
    else (ops2, idx2) in
  (Js.index ops3 idx3,
   {| operations := ops3; maxHistorySize := maxHistorySize s;
      currentIndex := idx3 |}).

(** [undo()] *)
Definition undo (s : DrawingState) : Js.value Operation * DrawingState :=
  if 0 <=? currentIndex s then
    let operation := Js.index (operations s) (currentIndex s) in
    (operation,
     {| operations := operations s; maxHistorySize := maxHistorySize s;
        currentIndex := currentIndex s - 1 |})
  else (Js.Null, s).

(** [redo()] *)
Definition redo (s : DrawingState) : Js.value Operation * DrawingState :=
  if currentIndex s <? Js.len (operations s) - 1 then
    let idx := currentIndex s + 1 in
    (Js.index (operations s) idx,
     {| operations := operations s; maxHistorySize := maxHistorySize s;
        currentIndex := idx |})
  else (Js.Null, s).

(** [getActiveOperations()] *)
Definition getActiveOperations (s : DrawingState) : list Operation :=
  Js.slice0 (operations s) (currentIndex s + 1).

(** [getState()]: the snapshot sent to a joining client. *)
Record Snapshot : Type := mkSnapshot {
  snap_operations : list Operation;
  snap_currentIndex : Z
}.

Definition getState (s : DrawingState) : Snapshot :=
  {| snap_operations := getActiveOperations s;
     snap_currentIndex := currentIndex s |}.

(** [clear()] *)
Definition clear (s : DrawingState) : DrawingState :=
  {| operations := []; maxHistorySize := maxHistorySize s;
     currentIndex := -1 |}.

(** *** Call sequences on one log *)

Inductive Call : Type :=
  | CallAdd (e : Entropy) (operation : OperationInput)
  | CallUndo
  | CallRedo
  | CallClear.

Definition exec (s : DrawingState) (c : Call) : DrawingState :=
  match c with
  | CallAdd e operation => snd (addOperation e operation s)
  | CallUndo => snd (undo s)
  | CallRedo => snd (redo s)
  | CallClear => clear s
  end.

Definition run (calls : list Call) : DrawingState :=
  fold_left exec calls newDrawingState.

(** The cursor invariant together with the constant set by the constructor. *)
Definition cursor_ok (s : DrawingState) : Prop :=
  -1 <= currentIndex s <= Js.len (operations s) - 1.

Definition well_formed (s : DrawingState) : Prop :=
  maxHistorySize s = 1000 /\ cursor_ok s /\
  Js.len (operations s) <= maxHistorySize s.

(** The array after the truncation and the push of [addOperation], for a
    cursor in range. *)
Definition appended (e : Entropy) (operation : OperationInput)
    (s : DrawingState) : list Operation :=
  take (Z.to_nat (currentIndex s + 1)) (operations s) ++ [stamp e operation].

End DrawingState.

Arguments OperationInput : clear implicits.
Arguments Operation : clear implicits.
Arguments DrawingState : clear implicits.
Arguments Snapshot : clear implicits.
Arguments Call : clear implicits.

(** ** An insertion-ordered [Map] with string keys

    [room.users] is iterated ([Array.from(room.users.values())]), so the order
    of its entries is kept: [set] on a present key replaces the value where it
    stands, on an absent key appends. *)

Module JsMap.

Definition t (V : Type) : Type := list (string * V).

Definition empty {V} : t V := [].

Fixpoint get {V} (k : string) (m : t V) : option V :=
  match m with
  | [] => None
  | (k', v) :: rest => if decide (k' = k) then Some v else get k rest
  end.

Fixpoint set {V} (k : string) (v : V) (m : t V) : t V :=
  match m with
  | [] => [(k, v)]
  | (k', v') :: rest =>
      if decide (k' = k) then (k, v) :: rest else (k', v') :: set k v rest
  end.

Fixpoint delete {V} (k : string) (m : t V) : t V :=
  match m with
  | [] => []
  | (k', v) :: rest =>
      if decide (k' = k) then delete k rest else (k', v) :: delete k rest
  end.

Definition size {V} (m : t V) : Z := Z.of_nat (length m).

Definition values {V} (m : t V) : list V := map snd m.

Definition keys {V} (m : t V) : list string := map fst m.

End JsMap.

(** ** Rooms, server/rooms.js *)

Section RoomManager.

Context {Payload : Type}.

Record User : Type := mkUser {
  user_id : string;
  name : string;
  color : Js.value string;
  joinedAt : Z
}.

Record Room : Type := mkRoom {
  room_id : string;
  state : DrawingState Payload;
  users : JsMap.t User;
  createdAt : Z
}.

(** [this.userColors] *)
Definition userColors : list string :=
  [ "#FF6B6B"; "#4ECDC4"; "#45B7D1"; "#FFA07A";
    "#98D8C8"; "#F7DC6F"; "#BB8FCE"; "#85C1E2";
    "#F8B739"; "#52B788"; "#FF85A1"; "#5DADE2" ]%string.

(** [rooms] and [userRooms] are only looked up, set and deleted by key. The
    colour table is the constant above. *)
Record RoomManager : Type := mkRoomManager {
  rooms : gmap string Room;
  userRooms : gmap string string
}.

(** [constructor()] *)
Definition newRoomManager : RoomManager :=
  {| rooms := ∅; userRooms := ∅ |}.

(** [getOrCreateRoom(roomId)]; [now] is the reading of [Date.now()] taken
    when the room is created. The room object is shared with the map, so the
    callers below write their changes to it back under the same key. *)
Definition getOrCreateRoom (now : Z) (roomId : string) (m : RoomManager)
    : Room * RoomManager :=
  match rooms m !! roomId with
  | Some room => (room, m)
  | None =>
      let room := {| room_id := roomId; state := newDrawingState;
                     users := JsMap.empty; createdAt := now |} in
      (room, {| rooms := <[roomId := room]> (rooms m);
                userRooms := userRooms m |})
  end.

(** [userData.name || `User ${room.users.size + 1}`]: an absent or empty name
    is falsy. *)
Definition displayName (userData : option string) (presence : Z) : string :=
  match userData with
  | Some n => if decide (n = ""%string) then "User " +:+ pretty (presence + 1)
              else n
  | None => "User " +:+ pretty (presence + 1)
  end.

(** [addUserToRoom(roomId, socketId, userData)] *)
Definition addUserToRoom (now : Z) (roomId socketId : string)
    (userData : option string) (m : RoomManager) : User * RoomManager :=
  let '(room, m1) := getOrCreateRoom now roomId m in
  let colorIndex := Z.rem (JsMap.size (users room)) (Js.len userColors) in
  let user := {| user_id := socketId;
                 name := displayName userData (JsMap.size (users room));
                 color := Js.index userColors colorIndex;
                 joinedAt := now |} in
  let room' := {| room_id := room_id room; state := state room;
                  users := JsMap.set socketId user (users room);
                  createdAt := createdAt room |} in
  (user, {| rooms := <[roomId := room']> (rooms m1);
            userRooms := <[socketId := roomId]> (userRooms m1) |}).

(** A callback registered with [setTimeout]: the delay and the room id the
    closure captured. *)
Record Timeout : Type := mkTimeout {
  delay : Z;
  captured : string
}.

(** The body of the callback of [removeUser]. *)
Definition evictionCallback (roomId : string) (m : RoomManager) : RoomManager :=
  match rooms m !! roomId with
  | Some currentRoom =>
      if decide (JsMap.size (users currentRoom) = 0)
      then {| rooms := delete roomId (rooms m); userRooms := userRooms m |}
      else m
  | None => m
  end.

(** [removeUser(socketId)]: the returned room (or [null]), the manager after,
    and the timeouts it registered. [!roomId] also holds of the empty
    string. *)
Definition removeUser (socketId : string) (m : RoomManager)
    : Js.value Room * RoomManager * list Timeout :=
  match userRooms m !! socketId with
  | None => (Js.Null, m, [])
  | Some roomId =>
      if decide (roomId = ""%string) then (Js.Null, m, [])
      else
        match rooms m !! roomId with
        | None => (Js.Null, m, [])
        | Some room =>
            let room' := {| room_id := room_id room; state := state room;
                            users := JsMap.delete socketId (users room);
                            createdAt := createdAt room |} in
            let m' := {| rooms := <[roomId := room']> (rooms m);
                         userRooms := delete socketId (userRooms m) |} in
            (Js.Obj room', m',
             if decide (JsMap.size (users room') = 0)
             then [ {| delay := 5 * 60 * 1000; captured := roomId |} ]
             else [])
        end
  end.

(** [getRoomBySocketId(socketId)] *)
Definition getRoomBySocketId (socketId : string) (m : RoomManager)
    : Js.value Room :=
  match userRooms m !! socketId with
  | None => Js.Null
  | Some roomId =>
      if decide (roomId = ""%string) then Js.Null
      else match rooms m !! roomId with
           | Some room => Js.Obj room
           | None => Js.Undefined
           end
  end.

(** [getUser(socketId)] *)
Definition getUser (socketId : string) (m : RoomManager) : Js.value User :=
  match getRoomBySocketId socketId m with
  | Js.Obj room =>
      match JsMap.get socketId (users room) with
      | Some u => Js.Obj u
      | None => Js.Undefined
      end
  | _ => Js.Null
  end.

(** [getRoomUsers(roomId)] *)
Definition getRoomUsers (roomId : string) (m : RoomManager) : list User :=
  match rooms m !! roomId with
  | None => []
  | Some room => JsMap.values (users room)
  end.

End RoomManager.

Arguments User : clear implicits.
Arguments Room : clear implicits.
Arguments RoomManager : clear implicits.

(** ** Socket handlers, server/server.js *)

Section Server.

Context {Payload : Type}.

(** The events that carry the log or the presence list to clients. *)
Inductive Message : Type :=
  | UserJoined (user : User) (roomId : string)
  | CanvasState (snapshot : Snapshot Payload)
  | UserConnected (user : User) (members : list User)
  | UsersList (members : list User)
  | DrawMsg (operation : Operation Payload)
  | StrokeComplete (operation : Operation Payload)
  | UndoMsg (operation : Operation Payload) (requestedBy : string)
  | RedoMsg (operation : Operation Payload) (requestedBy : string)
  | ClearCanvas (clearedBy : string)
  | UserDisconnected (leaver : string) (members : list User).

(** [socket.emit], [socket.to(room).emit] and [io.to(room).emit]. *)
Inductive Emit : Type :=
  | ToSender (msg : Message)
  | ToOthers (room : string) (msg : Message)
  | ToRoom (room : string) (msg : Message).

(** The outcome of a handler: the manager after and what was emitted. [None]
    stands for the runs that are not followed further: the handler throws on
    [user.name] when [getUser] gives no user, and an [addOperation] that
    returned [undefined] (which no log with a cursor in range does) would be
    echoed as such. *)
Definition Handled : Type := option (RoomManager Payload * list Emit).

(** Writing the log of a room back: [room.state] is the object in the map. *)
Definition withState (room : Room Payload) (s : DrawingState Payload)
    (m : RoomManager Payload) (key : string) : RoomManager Payload :=
  {| rooms := <[key := {| room_id := room_id room; state := s;
                          users := users room;
                          createdAt := createdAt room |}]> (rooms m);
     userRooms := userRooms m |}.

(** The key under which [getRoomBySocketId] found the room. *)
Definition roomKey (socketId : string) (m : RoomManager Payload) : string :=
  default ""%string (userRooms m !! socketId).

(** [socket.on('join-room', ...)]; [roomId] is [data.roomId] (absent or
    empty gives ['default']) and [userData] is [data.user.name]. *)
Definition onJoinRoom (now : Z) (socketId : string) (roomId : option string)
    (userData : option string) (m : RoomManager Payload) : Handled :=
  let roomId :=
    match roomId with
    | Some r => if decide (r = ""%string) then "default"%string else r
    | None => "default"%string
    end in
  let '(user, m1) := addUserToRoom now roomId socketId userData m in
  match getRoomBySocketId socketId m1 with
  | Js.Obj room =>
      Some (m1,
            [ ToSender (UserJoined user roomId);
              ToSender (CanvasState (getState (state room)));
              ToOthers roomId (UserConnected user (getRoomUsers roomId m1));
              ToSender (UsersList (getRoomUsers roomId m1)) ])
  | _ => None
  end.

(** The common body of [socket.on('draw', ...)] and
    [socket.on('stroke-complete', ...)]. *)
Definition logAndEcho (kind : OpType)
    (echo : Operation Payload -> Message) (e : Entropy) (socketId : string)
    (payload : Payload) (m : RoomManager Payload) : Handled :=
  match getRoomBySocketId socketId m with
  | Js.Obj room =>
      match getUser socketId m with
      | Js.Obj user =>
          let '(operation, s') :=
            addOperation e
              {| in_type := kind; in_data := payload;
                 in_userId := socketId; in_userName := name user;
                 in_userColor := color user |} (state room) in
          match operation with
          | Js.Obj operation =>
              Some (withState room s' m (roomKey socketId m),
                    [ ToOthers (room_id room) (echo operation) ])
          | _ => None
          end
      | _ => None
      end
  | _ => Some (m, [])
  end.

(** [socket.on('draw', ...)] *)
Definition onDraw := logAndEcho draw DrawMsg.

(** [socket.on('stroke-complete', ...)] *)
Definition onStrokeCompleteRequest := logAndEcho stroke StrokeComplete.

(** [socket.on('undo', ...)]: nothing is emitted when [undo()] is falsy. *)
Definition onUndoRequest (socketId : string) (m : RoomManager Payload)
    : Handled :=
  match getRoomBySocketId socketId m with
  | Js.Obj room =>
      let '(operation, s') := undo (state room) in
      Some (withState room s' m (roomKey socketId m),
            match operation with
            | Js.Obj operation => [ ToRoom (room_id room) (UndoMsg operation socketId) ]
            | _ => []
            end)
  | _ => Some (m, [])
  end.

(** [socket.on('redo', ...)] *)
Definition onRedoRequest (socketId : string) (m : RoomManager Payload)
    : Handled :=
  match getRoomBySocketId socketId m with
  | Js.Obj room =>
      let '(operation, s') := redo (state room) in
      Some (withState room s' m (roomKey socketId m),
            match operation with
            | Js.Obj operation => [ ToRoom (room_id room) (RedoMsg operation socketId) ]
            | _ => []
            end)
  | _ => Some (m, [])
  end.

(** [socket.on('clear-canvas', ...)] *)
Definition onClearCanvasRequest (socketId : string) (m : RoomManager Payload)
    : Handled :=
  match getRoomBySocketId socketId m with
  | Js.Obj room =>
      Some (withState room (clear (state room)) m (roomKey socketId m),
            [ ToRoom (room_id room) (ClearCanvas socketId) ])
  | _ => Some (m, [])
  end.

(** What a client sitting in [room] receives of an emission made while the
    socket [sender] was being served. *)
Definition deliveredTo (client room sender : string) (e : Emit)
    : option Message :=
  match e with
  | ToSender msg => if decide (client = sender) then Some msg else None
  | ToOthers r msg =>
      if decide (r = room) then
        if decide (client = sender) then None else Some msg
      else None
  | ToRoom r msg => if decide (r = room) then Some msg else None
  end.

End Server.

Arguments Message : clear implicits.
Arguments Emit : clear implicits.
Arguments Handled : clear implicits.

(** ** The client's copy of the log, client/main.js *)

Section Client.

Context {Payload : Type}.

(** The two fields of [app] that the replay handlers touch. *)
Record App : Type := mkApp {
  operationHistory : list (Operation Payload);
  app_currentIndex : Z
}.

(** The initial [app]. *)
Definition newApp : App :=
  {| operationHistory := []; app_currentIndex := -1 |}.

(** [app.ws.onCanvasState] *)
Definition onCanvasState (snapshot : Snapshot Payload) (a : App) : App :=
  {| operationHistory := snap_operations snapshot;
     app_currentIndex := snap_currentIndex snapshot |}.

(** [app.ws.onStrokeComplete] *)
Definition onStrokeComplete (operation : Operation Payload) (a : App) : App :=
  {| operationHistory := Js.push (operationHistory a) operation;
     app_currentIndex := app_currentIndex a + 1 |}.

(** [app.ws.onUndo] *)
Definition onUndo (a : App) : App :=
  if 0 <=? app_currentIndex a then
    {| operationHistory := operationHistory a;
       app_currentIndex := app_currentIndex a - 1 |}
  else a.

(** [app.ws.onRedo] *)
Definition onRedo (a : App) : App :=
  if app_currentIndex a <? Js.len (operationHistory a) - 1 then
    {| operationHistory := operationHistory a;
       app_currentIndex := app_currentIndex a + 1 |}
  else a.

(** [app.ws.onClearCanvas] *)
Definition onClearCanvas (a : App) : App :=
  {| operationHistory := []; app_currentIndex := -1 |}.

(** The slice the client redraws from:
    [app.operationHistory.slice(0, app.currentIndex + 1)]. *)
Definition activeOps (a : App) : list (Operation Payload) :=
  Js.slice0 (operationHistory a) (app_currentIndex a + 1).

(** Dispatch of a received event ([app.ws.onDraw] is never assigned, so a
    ['draw'] event changes nothing). *)
Definition receive (a : App) (msg : Message Payload) : App :=
  match msg with
  | CanvasState snapshot => onCanvasState snapshot a
  | StrokeComplete operation => onStrokeComplete operation a
  | UndoMsg _ _ => onUndo a
  | RedoMsg _ _ => onRedo a
  | ClearCanvas _ => onClearCanvas a
  | _ => a
  end.

End Client.

Arguments App : clear implicits.

(** ** The event loop: presence changes and the eviction timers

    The server runs each handler and each timer callback to completion. The
    world is the manager, the clock ([Date.now()], in milliseconds) and the
    callbacks registered with [setTimeout] that have not run yet, each with
    the time at which it is due. All delays are equal, so the pending list,
    kept in registration order, is also in due order. *)

Section EventLoop.

Context {Payload : Type}.

Record World : Type := mkWorld {
  manager : RoomManager Payload;
  clock : Z;
  pending : list (Z * string)
}.

Definition newWorld : World :=
  {| manager := newRoomManager; clock := 0; pending := [] |}.

(** A connection joins a room: [roomManager.addUserToRoom]. *)
Definition join (roomId socketId : string) (userData : option string)
    (w : World) : World :=
  {| manager := snd (addUserToRoom (clock w) roomId socketId userData (manager w));
     clock := clock w;
     pending := pending w |}.

(** A connection goes away: [roomManager.removeUser], whose timeouts are
    registered at the current clock. *)
Definition leave (socketId : string) (w : World) : World :=
  let '(_, m', timeouts) := removeUser socketId (manager w) in
  {| manager := m';
     clock := clock w;
     pending := pending w ++
                map (fun t => (clock w + delay t, captured t)) timeouts |}.

(** Runs, in order, the callbacks that are due at [t]; keeps the others. *)
Fixpoint fire (t : Z) (timers : list (Z * string)) (m : RoomManager Payload)
    : RoomManager Payload * list (Z * string) :=
  match timers with
  | [] => (m, [])
  | (due, roomId) :: rest =>
      if due <=? t then fire t rest (evictionCallback roomId m)
      else let '(m', rest') := fire t rest m in (m', (due, roomId) :: rest')
  end.

(** Time passes until [t] (the clock never goes back). *)
Definition advance (t : Z) (w : World) : World :=
  let t := Z.max t (clock w) in
  let '(m', rest) := fire t (pending w) (manager w) in
  {| manager := m'; clock := t; pending := rest |}.

(** The connection ids present in a room, in join order; none if the room
    does not exist. *)
Definition present (roomId : string) (m : RoomManager Payload) : list string :=
  match rooms m !! roomId with
  | Some room => JsMap.keys (users room)
  | None => []
  end.

(** *** Join traces of one room, for the colour allocator *)

Inductive Presence : Type :=
  | Joins (socketId : string) (userData : option string)
  | Leaves (socketId : string).

(** Runs a trace on the room [roomId]; the users created by the joins, in
    order (the [n]-th entry is the user of the [n]-th join, counted
    from 0). *)
Fixpoint assigned (roomId : string) (trace : list Presence) (w : World)
    : list (User) :=
  match trace with
  | [] => []
  | Joins socketId userData :: rest =>
      fst (addUserToRoom (clock w) roomId socketId userData (manager w))
      :: assigned roomId rest (join roomId socketId userData w)
  | Leaves socketId :: rest => assigned roomId rest (leave socketId w)
  end.

(** The trace in which the given connections join one after the other. *)
Definition joinsOf (joiners : list (string * option string)) : list Presence :=
  map (fun j => Joins (fst j) (snd j)) joiners.

End EventLoop.

Arguments World : clear implicits.

(** ** A room seen from one client

    Requests are served one at a time; the client [client], sitting in
    [room], applies what is delivered to it in the order of emission. *)

Section Session.

Context {Payload : Type}.

Inductive Request : Type :=
  | JoinRoom (now : Z) (roomId : option string) (userData : option string)
  | SubmitDraw (e : Entropy) (payload : Payload)
  | SubmitStroke (e : Entropy) (payload : Payload)
  | RequestUndo
  | RequestRedo
  | RequestClear.

Definition serve (sender : string) (req : Request) (m : RoomManager Payload)
    : Handled Payload :=
  match req with
  | JoinRoom now roomId userData => onJoinRoom now sender roomId userData m
  | SubmitDraw e payload => onDraw e sender payload m
  | SubmitStroke e payload => onStrokeCompleteRequest e sender payload m
  | RequestUndo => onUndoRequest sender m
  | RequestRedo => onRedoRequest sender m
  | RequestClear => onClearCanvasRequest sender m
  end.

Fixpoint observe (client room : string) (reqs : list (string * Request))
    (m : RoomManager Payload) (a : App Payload)
    : option (RoomManager Payload * App Payload) :=
  match reqs with
  | [] => Some (m, a)
  | (sender, req) :: rest =>
      match serve sender req m with
      | None => None
      | Some (m', emits) =>
          observe client room rest m'
            (fold_left receive (omap (deliveredTo client room sender) emits) a)
      end
  end.

(** The active slice of the log of [room] on the server. *)
Definition serverActive (room : string) (m : RoomManager Payload)
    : list (Operation Payload) :=
  match rooms m !! room with
  | Some r => getActiveOperations (state r)
  | None => []
  end.

(** The payloads of a slice, in order. *)
Definition payloads (ops : list (Operation Payload)) : list Payload :=
  map data ops.

(** The payloads of the server's active slice of [room] and of the client's
    active slice, after the requests were served from a fresh manager and
    replayed by a fresh client. *)
Definition replayed (client room : string) (reqs : list (string * Request))
    : option (list Payload * list Payload) :=
  match observe client room reqs newRoomManager newApp with
  | Some (m, a) => Some (payloads (serverActive room m), payloads (activeOps a))
  | None => None
  end.

(** The client's copy is the whole log of [room] and its cursor. *)
Definition mirrors (room : string) (m : RoomManager Payload) (a : App Payload)
    : Prop :=
  exists r, rooms m !! room = Some r
    /\ room_id r = room
    /\ well_formed (state r)
    /\ operationHistory a = operations (state r)
    /\ app_currentIndex a = currentIndex (state r).

(** The log of [room] has no undone entry and is below its capacity. *)
Definition appendable (room : string) (m : RoomManager Payload) : Prop :=
  exists r, rooms m !! room = Some r
    /\ currentIndex (state r) = Js.len (operations (state r)) - 1
    /\ Js.len (operations (state r)) < 1000.

(** The requests whose effect the client's handlers reproduce. *)
Definition replayable (room : string) (m : RoomManager Payload)
    (req : Request) : Prop :=
  match req with
  | SubmitStroke _ _ => appendable room m
  | RequestUndo | RequestRedo | RequestClear => True
  | JoinRoom _ _ _ | SubmitDraw _ _ => False
  end.

End Session.

Arguments Request : clear implicits.

(** ** Sample data

    Concrete logs and rooms on which the statements below are instantiated;
    the payload of a stroke is a string here. *)

Module Sample.

Definition entropy (n : Z) : Entropy :=
  {| idClock := 1700000000000 + n; idRandom := "k3j9x0q2z";
     stampClock := 1700000000000 + n |}.

Definition strokeBy (who what : string) : OperationInput string :=
  {| in_type := stroke; in_data := what; in_userId := who;
     in_userName := "User 1"; in_userColor := Js.Obj "#FF6B6B"%string |}.

(** Three strokes, the last two undone: length 3, cursor 0. *)
Definition undoneTwice : DrawingState string :=
  run [ CallAdd (entropy 1) (strokeBy "a" "S1");
        CallAdd (entropy 2) (strokeBy "a" "S2");
        CallAdd (entropy 3) (strokeBy "b" "S3");
        CallUndo; CallUndo ].

(** Two strokes, the last one undone: length 2, cursor 0. *)
Definition undoneOnce : DrawingState string :=
  run [ CallAdd (entropy 1) (strokeBy "a" "S1");
        CallAdd (entropy 2) (strokeBy "a" "S2");
        CallUndo ].

(** One stroke, undone: length 1, cursor -1. *)
Definition undoneAll : list (Call string) :=
  [ CallAdd (entropy 1) (strokeBy "a" "S1"); CallUndo ].

(** A thousand strokes: the log is full and the cursor is at the tail. *)
Definition saturating : list (Call string) :=
  replicate 1000 (CallAdd (entropy 0) (strokeBy "a" "S")).

(** Room "r1": a and b join, a submits S1 and S2, the observer c joins and
    receives the snapshot; then b requests an undo and a submits S3. *)
Definition undoThenStroke : list (string * Request string) :=
  [ ("a", JoinRoom 10 (Some "r1") None);
    ("b", JoinRoom 20 (Some "r1") None);
    ("a", SubmitStroke (entropy 1) "S1");
    ("a", SubmitStroke (entropy 2) "S2");
    ("c", JoinRoom 30 (Some "r1") None);
    ("b", RequestUndo);
    ("a", SubmitStroke (entropy 3) "S3") ]%string.

(** Room "r1": a joins, submits S1 and S2 and undoes S2; the observer c
    joins and receives the snapshot; then a requests a redo. *)
Definition redoAfterJoin : list (string * Request string) :=
  [ ("a", JoinRoom 10 (Some "r1") None);
    ("a", SubmitStroke (entropy 1) "S1");
    ("a", SubmitStroke (entropy 2) "S2");
    ("a", RequestUndo);
    ("c", JoinRoom 30 (Some "r1") None);
    ("a", RequestRedo) ]%string.

(** a and b join "r1", a leaves, c joins. *)
Definition joinLeaveJoin : list Presence :=
  [ Joins "a" None; Joins "b" None; Leaves "a"; Joins "c" None ]%string.

(** Thirteen distinct connections. *)
Definition thirteen : list (string * option string) :=
  map (fun c => (c, None))
    [ "u1"; "u2"; "u3"; "u4"; "u5"; "u6"; "u7"; "u8"; "u9"; "u10"; "u11";
      "u12"; "u13" ]%string.

(** The world after c joined room "A" at time 0, and what room "A" then
    holds. *)
Definition cInA : World string := join "A" "c" None newWorld.

Definition userC : User :=
  {| user_id := "c"; name := "User 1"; color := Js.Obj "#FF6B6B"%string;
     joinedAt := 0 |}.

Definition roomA : Room string :=
  {| room_id := "A"; state := newDrawingState; users := [("c"%string, userC)];
     createdAt := 0 |}.

End Sample.

(** ** Repeated calls on one log *)

Section Repeated.

Context {Payload : Type}.

(** [n] calls of [undo()] in a row, and [n] calls of [redo()]. *)
Definition undoTimes (n : nat) (s : DrawingState Payload)
    : DrawingState Payload :=
  Nat.iter n (fun s => snd (undo s)) s.

Definition redoTimes (n : nat) (s : DrawingState Payload)
    : DrawingState Payload :=
  Nat.iter n (fun s => snd (redo s)) s.

(** The calls that submit the given operations one after the other. *)
Definition submissions (l : list (Entropy * OperationInput Payload))
    : list (Call Payload) :=
  map (fun p => CallAdd (fst p) (snd p)) l.

(** What those submissions store. *)
Definition stamped (l : list (Entropy * OperationInput Payload))
    : list (Operation Payload) :=
  map (fun p => stamp (fst p) (snd p)) l.

End Repeated.

(** ** The remaining socket handlers and the server as a whole *)

Section ServerLoop.

Context {Payload PathData Coord : Type}.

(** What ['draw-path'] and ['cursor-move'] pass on to the other members of
    the room; neither is stored. *)
Inductive Ephemeral : Type :=
  | DrawPathMsg (data : PathData) (userId : string)
      (userColor : Js.value string)
  | CursorMoveMsg (userId userName : string) (userColor : Js.value string)
      (x y : Coord).

(** [socket.on('draw-path', ...)]: the room the message goes to (all its
    members but the sender) and the message; [None] when the handler throws
    on [user.color]. *)
Definition onDrawPath (socketId : string) (data : PathData)
    (m : RoomManager Payload) : option (list (string * Ephemeral)) :=
  match getRoomBySocketId socketId m with
  | Js.Obj room =>
      match getUser socketId m with
      | Js.Obj user =>
          Some [ (room_id room, DrawPathMsg data socketId (color user)) ]
      | _ => None
      end
  | _ => Some []
  end.

(** [socket.on('cursor-move', ...)] *)
Definition onCursorMove (socketId : string) (x y : Coord)
    (m : RoomManager Payload) : option (list (string * Ephemeral)) :=
  match getRoomBySocketId socketId m with
  | Js.Obj room =>
      match getUser socketId m with
      | Js.Obj user =>
          Some [ (room_id room,
                  CursorMoveMsg socketId (name user) (color user) x y) ]
      | _ => None
      end
  | _ => Some []
  end.

(** [socket.on('disconnect', ...)]: the world after (the timeout of
    [removeUser] is registered at the current clock) and the notification to
    the members that remain. *)
Definition onDisconnect (socketId : string) (w : World Payload)
    : World Payload * list (Emit Payload) :=
  let '(room, m', timeouts) := removeUser socketId (manager w) in
  ({| manager := m';
      clock := clock w;
      pending := pending w ++
                 map (fun t => (clock w + delay t, captured t)) timeouts |},
   match room with
   | Js.Obj room =>
       [ ToOthers (room_id room)
           (UserDisconnected socketId (getRoomUsers (room_id room) m')) ]
   | _ => []
   end).

(** What happens on the server: a request of a connected socket, one of the
    two transient messages, a disconnection, or time passing. *)
Inductive ServerEvent : Type :=
  | Incoming (sender : string) (req : Request Payload)
  | IncomingDrawPath (sender : string) (data : PathData)
  | IncomingCursorMove (sender : string) (x y : Coord)
  | Disconnected (sender : string)
  | Elapsed (t : Z).

(** One event; [None] when its handler throws. *)
Definition serverStep (w : World Payload) (ev : ServerEvent)
    : option (World Payload) :=
  match ev with
  | Incoming sender req =>
      match serve sender req (manager w) with
      | Some (m', _) =>
          Some {| manager := m'; clock := clock w; pending := pending w |}
      | None => None
      end
  | IncomingDrawPath sender data =>
      match onDrawPath sender data (manager w) with
      | Some _ => Some w
      | None => None
      end
  | IncomingCursorMove sender x y =>
      match onCursorMove sender x y (manager w) with
      | Some _ => Some w
      | None => None
      end
  | Disconnected sender => Some (fst (onDisconnect sender w))
  | Elapsed t => Some (advance t w)
  end.

(** A sequence of events from the start of the process. *)
Fixpoint serverRunFrom (w : World Payload) (evs : list ServerEvent)
    : option (World Payload) :=
  match evs with
  | [] => Some w
  | ev :: rest =>
      match serverStep w ev with
      | Some w' => serverRunFrom w' rest
      | None => None
      end
  end.

Definition serverRun (evs : list ServerEvent) : option (World Payload) :=
  serverRunFrom newWorld evs.

(** The manager's maps agree with each other: a room is stored under its own
    id, its log is well formed, its presence list has no duplicate and holds
    records with the key as id and a palette colour; the reverse index only
    names rooms that exist and list the connection. *)
Definition room_ok (r : string) (room : Room Payload) : Prop :=
  room_id room = r
  /\ well_formed (state room)
  /\ NoDup (JsMap.keys (users room))
  /\ forall (k : string) (u : User),
       JsMap.get k (users room) = Some u ->
       user_id u = k /\ exists col, color u = Js.Obj col /\ col ∈ userColors.

Definition consistent (m : RoomManager Payload) : Prop :=
  (forall (r : string) room, rooms m !! r = Some room -> room_ok r room)
  /\ (forall c r : string, userRooms m !! c = Some r ->
        r <> ""%string
        /\ exists room, rooms m !! r = Some room
                        /\ c ∈ JsMap.keys (users room)).

(** Every empty room has an eviction pending, and no eviction is due later
    than five minutes from now. *)
Definition evictions_ok (w : World Payload) : Prop :=
  (forall (r : string) room,
      rooms (manager w) !! r = Some room -> users room = [] ->
      exists due, (due, r) ∈ pending w)
  /\ (forall x, x ∈ pending w -> fst x <= clock w + 300000).

(** No room that is empty in [m'] was absent or occupied in [m]. *)
Definition no_new_empty (m m' : RoomManager Payload) : Prop :=
  forall (r : string) room',
    rooms m' !! r = Some room' -> users room' = [] ->
    exists room, rooms m !! r = Some room /\ users room = [].

End ServerLoop.

Arguments Ephemeral : clear implicits.
Arguments ServerEvent : clear implicits.

(** ** The client's copy along a run *)

Section ClientRun.

Context {Payload : Type}.

(** The client's cursor is within its copy of the history. *)
Definition copy_ok (a : App Payload) : Prop :=
  -1 <= app_currentIndex a <= Js.len (operationHistory a) - 1.

(** The message an emission carries. *)
Definition message_of (e : Emit Payload) : Message Payload :=
  match e with
  | ToSender msg | ToOthers _ msg | ToRoom _ msg => msg
  end.

(** A snapshot whose cursor is the index of its last entry. *)
Definition snapshot_ok (msg : Message Payload) : Prop :=
  match msg with
  | CanvasState snapshot =>
      snap_currentIndex snapshot = Js.len (snap_operations snapshot) - 1
  | _ => True
  end.

(** What a client in [room] holds after the emissions of one handler. *)
Definition deliver (client room sender : string) (emits : list (Emit Payload))
    (a : App Payload) : App Payload :=
  fold_left receive (omap (deliveredTo client room sender) emits) a.

(** Every request of the run comes from another member of [room] and is one
    the client's handlers reproduce in the state it is served in. *)
Fixpoint replayableRun (client room : string)
    (reqs : list (string * Request Payload)) (m : RoomManager Payload)
    : Prop :=
  match reqs with
  | [] => True
  | (sender, req) :: rest =>
      sender <> client
      /\ userRooms m !! sender = Some room
      /\ replayable room m req
      /\ forall m' emits,
           serve sender req m = Some (m', emits) ->
           replayableRun client room rest m'
  end.

(** The room id [socket.on('join-room')] uses for [data.roomId]. *)
Definition joinedRoom (roomId : option string) : string :=
  match roomId with
  | Some r => if decide (r = ""%string) then "default"%string else r
  | None => "default"%string
  end.

End ClientRun.

(** ** The client's socket manager, client/websocket.js

    The methods that batch path points and throttle cursor positions, with
    the part of the browser they rely on: the clock and the callbacks
    registered with [setTimeout]. *)

Section WebSocketManager.

Context {Point StrokeData Coord : Type}.

(** An entry of [pathBatch]: [{ point, tool, color, lineWidth }]. *)
Record PathEntry : Type := mkPathEntry {
  point : Point;
  entry_tool : string;
  entry_color : string;
  entry_lineWidth : Z
}.

(** What the methods hand to [socket.emit]. *)
Inductive Outgoing : Type :=
  | EmitDrawPath (points : list PathEntry) (tool color : string)
      (lineWidth : Z)
  | EmitStrokeComplete (strokeData : StrokeData)
  | EmitCursorMove (x y : Coord).

(** The fields of the manager these methods use. [batchTimeout] is [null] or
    a timer id, [lastCursorUpdate] is [undefined] or a clock reading. *)
Record WebSocketManager : Type := mkWebSocketManager {
  connected : bool;
  pathBatch : list PathEntry;
  batchTimeout : option nat;
  batchInterval : Z;
  lastCursorUpdate : option Z
}.

(** The callback [sendDrawPath] registers: its timer id, the time it is due
    and the [tool], [color] and [lineWidth] its closure captured. *)
Record Flush : Type := mkFlush {
  handle : nat;
  flush_due : Z;
  flush_tool : string;
  flush_color : string;
  flush_lineWidth : Z
}.

(** The manager in its browser tab: the clock, the callbacks not yet run
    (in registration order) and the next timer id ([setTimeout] returns
    positive integers). *)
Record Tab : Type := mkTab {
  ws : WebSocketManager;
  tab_clock : Z;
  tab_timers : list Flush;
  nextHandle : nat
}.

(** The manager after its constructor, in a fresh tab. *)
Definition newTab (isConnected : bool) : Tab :=
  {| ws := {| connected := isConnected; pathBatch := []; batchTimeout := None;
              batchInterval := 50; lastCursorUpdate := None |};
     tab_clock := 0; tab_timers := []; nextHandle := 1 |}.

(** [clearTimeout(id)] *)
Definition clearTimeout (id : nat) (timers : list Flush) : list Flush :=
  filter (fun f => handle f <> id) timers.

(** [if (this.batchTimeout) clearTimeout(this.batchTimeout)]: [null] and 0
    are falsy. *)
Definition clearBatchTimeout (m : WebSocketManager) (timers : list Flush)
    : list Flush :=
  match batchTimeout m with
  | Some (S id) => clearTimeout (S id) timers
  | _ => timers
  end.

(** [sendDrawPath(point, tool, color, lineWidth)] *)
Definition sendDrawPath (p : Point) (tool color : string) (lineWidth : Z)
    (t : Tab) : Tab :=
  if connected (ws t) then
    let batch :=
      Js.push (pathBatch (ws t))
        {| point := p; entry_tool := tool; entry_color := color;
           entry_lineWidth := lineWidth |} in
    let timers := clearBatchTimeout (ws t) (tab_timers t) in
    let id := nextHandle t in
    {| ws := {| connected := connected (ws t); pathBatch := batch;
                batchTimeout := Some id;
                batchInterval := batchInterval (ws t);
                lastCursorUpdate := lastCursorUpdate (ws t) |};
       tab_clock := tab_clock t;
       tab_timers :=
         timers ++ [ {| handle := id;
                        flush_due := tab_clock t + batchInterval (ws t);
                        flush_tool := tool; flush_color := color;
                        flush_lineWidth := lineWidth |} ];
       nextHandle := S id |}
  else t.

(** The body of the callback of [sendDrawPath]. *)
Definition flushBatch (f : Flush) (m : WebSocketManager)
    : WebSocketManager * list Outgoing :=
  if 0 <? Js.len (pathBatch m) then
    ({| connected := connected m; pathBatch := [];
        batchTimeout := batchTimeout m; batchInterval := batchInterval m;
        lastCursorUpdate := lastCursorUpdate m |},
     [ EmitDrawPath (pathBatch m) (flush_tool f) (flush_color f)
         (flush_lineWidth f) ])
  else (m, []).

(** [sendStrokeComplete(strokeData)] *)
Definition sendStrokeComplete (strokeData : StrokeData) (t : Tab)
    : Tab * list Outgoing :=
  if connected (ws t) then
    ({| ws := {| connected := connected (ws t); pathBatch := [];
                 batchTimeout :=
                   match batchTimeout (ws t) with
                   | Some (S _) => None
                   | other => other
                   end;
                 batchInterval := batchInterval (ws t);
                 lastCursorUpdate := lastCursorUpdate (ws t) |};
        tab_clock := tab_clock t;
        tab_timers := clearBatchTimeout (ws t) (tab_timers t);
        nextHandle := nextHandle t |},
     [ EmitStrokeComplete strokeData ])
  else (t, []).

(** [sendCursorMove(x, y)]; [checked] and [stored] are the two readings of
    [Date.now()], the one compared and the one kept. [!this.lastCursorUpdate]
    holds of [undefined] and of 0. *)
Definition sendCursorMove (checked stored : Z) (x y : Coord)
    (m : WebSocketManager) : WebSocketManager * list Outgoing :=
  if connected m then
    let unset := match lastCursorUpdate m with
                 | None => true
                 | Some last => last =? 0
                 end in
    let late := match lastCursorUpdate m with
                | None => false
                | Some last => 100 <? checked - last
                end in
    if unset || late then
      ({| connected := connected m; pathBatch := pathBatch m;
          batchTimeout := batchTimeout m; batchInterval := batchInterval m;
          lastCursorUpdate := Some stored |},
       [ EmitCursorMove x y ])
    else (m, [])
  else (m, []).

(** Runs, in order, the callbacks due at [now]; keeps the others. *)
Fixpoint runDue (now : Z) (timers : list Flush) (m : WebSocketManager)
    : WebSocketManager * list Flush * list Outgoing :=
  match timers with
  | [] => (m, [], [])
  | f :: rest =>
      if flush_due f <=? now then
        let '(m1, out1) := flushBatch f m in
        let '(m2, kept, out2) := runDue now rest m1 in
        (m2, kept, out1 ++ out2)
      else
        let '(m2, kept, out2) := runDue now rest m in
        (m2, f :: kept, out2)
  end.

(** What the tab goes through. The socket's ['connect'] and ['disconnect']
    listeners are taken for what they do to [connected] only. *)
Inductive TabEvent : Type :=
  | DrawPathPoint (p : Point) (tool color : string) (lineWidth : Z)
  | StrokeDone (strokeData : StrokeData)
  | CursorAt (x y : Coord)
  | Online (isConnected : bool)
  | Until (time : Z).

Definition tabStep (t : Tab) (ev : TabEvent) : Tab * list Outgoing :=
  match ev with
  | DrawPathPoint p tool color lineWidth =>
      (sendDrawPath p tool color lineWidth t, [])
  | StrokeDone strokeData => sendStrokeComplete strokeData t
  | CursorAt x y =>
      let '(m, out) := sendCursorMove (tab_clock t) (tab_clock t) x y (ws t) in
      ({| ws := m; tab_clock := tab_clock t; tab_timers := tab_timers t;
          nextHandle := nextHandle t |}, out)
  | Online isConnected =>
      ({| ws := {| connected := isConnected; pathBatch := pathBatch (ws t);
                   batchTimeout := batchTimeout (ws t);
                   batchInterval := batchInterval (ws t);
                   lastCursorUpdate := lastCursorUpdate (ws t) |};
          tab_clock := tab_clock t; tab_timers := tab_timers t;
          nextHandle := nextHandle t |}, [])
  | Until time =>
      let now := Z.max time (tab_clock t) in
      let '(m, kept, out) := runDue now (tab_timers t) (ws t) in
      ({| ws := m; tab_clock := now; tab_timers := kept;
          nextHandle := nextHandle t |}, out)
  end.

Fixpoint tabRun (t : Tab) (evs : list TabEvent) : Tab * list Outgoing :=
  match evs with
  | [] => (t, [])
  | ev :: rest =>
      let '(t1, out1) := tabStep t ev in
      let '(t2, out2) := tabRun t1 rest in
      (t2, out1 ++ out2)
  end.

(** The path entries of the ['draw-path'] messages emitted, in order. *)
Definition flushed (out : list Outgoing) : list PathEntry :=
  flat_map (fun o => match o with
                     | EmitDrawPath points _ _ _ => points
                     | _ => []
                     end) out.

(** The entries [sendDrawPath] takes in along a run: those submitted while
    connected. *)
Fixpoint accepted (t : Tab) (evs : list TabEvent) : list PathEntry :=
  match evs with
  | [] => []
  | ev :: rest =>
      match ev with
      | DrawPathPoint p tool color lineWidth =>
          if connected (ws t)
          then {| point := p; entry_tool := tool; entry_color := color;
                  entry_lineWidth := lineWidth |} :: accepted (fst (tabStep t ev)) rest
          else accepted (fst (tabStep t ev)) rest
      | _ => accepted (fst (tabStep t ev)) rest
      end
  end.

Definition isStrokeDone (ev : TabEvent) : bool :=
  match ev with StrokeDone _ => true | _ => false end.

(** At most the callback of the last [sendDrawPath] is pending, a non-empty
    batch always has it pending, and it is due within [batchInterval]. *)
Definition tab_ok (t : Tab) : Prop :=
  batchInterval (ws t) = 50
  /\ (1 <= nextHandle t)%nat
  /\ match tab_timers t with
     | [] => pathBatch (ws t) = []
     | [f] => batchTimeout (ws t) = Some (handle f)
              /\ (1 <= handle f < nextHandle t)%nat
              /\ flush_due f <= tab_clock t + 50
     | _ => False
     end.

(** A continuous stroke: each point is sent at its time, less than 50 ms
    after the one before. *)
Fixpoint quickPoints (last : Z) (steps : list (Z * PathEntry)) : Prop :=
  match steps with
  | [] => True
  | (time, _) :: rest => last <= time < last + 50 /\ quickPoints time rest
  end.

Definition pointEvents (steps : list (Z * PathEntry)) : list TabEvent :=
  flat_map (fun s => [ Until (fst s);
                       DrawPathPoint (point (snd s)) (entry_tool (snd s))
                         (entry_color (snd s)) (entry_lineWidth (snd s)) ])
    steps.

(** The clock readings kept by the cursor messages emitted along a run of
    [sendCursorMove] calls, each call given as its two readings and its
    position. *)
Fixpoint cursorEmissions (m : WebSocketManager)
    (calls : list (Z * Z * Coord * Coord)) : list Z :=
  match calls with
  | [] => []
  | (checked, stored, x, y) :: rest =>
      let '(m', out) := sendCursorMove checked stored x y m in
      match out with
      | [] => cursorEmissions m' rest
      | _ => stored :: cursorEmissions m' rest
      end
  end.

(** Consecutive readings are more than 100 apart. *)
Fixpoint spaced (times : list Z) : Prop :=
  match times with
  | t1 :: ((t2 :: _) as rest) => 100 < t2 - t1 /\ spaced rest
  | _ => True
  end.

(** Each call reads a positive clock that does not go back between its two
    readings. *)
Definition readings_ok (calls : list (Z * Z * Coord * Coord)) : Prop :=
  Forall (fun c => 0 < fst (fst (fst c)) <= snd (fst (fst c))) calls.

(** The time of the last step, [start] if there is none. *)
Definition lastTime (start : Z) (steps : list (Z * PathEntry)) : Z :=
  List.last (map fst steps) start.

(** The tab is connected and the callback of a [sendDrawPath] made at
    [sentAt], the current time, is the one pending. *)
Definition armed (sentAt : Z) (t : Tab) : Prop :=
  tab_ok t
  /\ connected (ws t) = true
  /\ tab_clock t = sentAt
  /\ exists f, tab_timers t = [f] /\ flush_due f = sentAt + 50.

(** A ['draw-path'] message carries at least one entry. *)
Definition batch_nonempty (o : Outgoing) : Prop :=
  match o with
  | EmitDrawPath points _ _ _ => points <> []
  | _ => True
  end.

End WebSocketManager.

Arguments PathEntry : clear implicits.
Arguments Outgoing : clear implicits.
Arguments WebSocketManager : clear implicits.
Arguments Tab : clear implicits.
Arguments TabEvent : clear implicits.

(** ** The canvas manager, client/canvas.js

    The drawing of one stroke and its replay. A point is what
    [getCoordinates(e)] returns for a mouse event; the 2D context is the
    list of the calls made on it, oldest first. *)

Section CanvasManager.

Context {Point : Type}.

(** Calls on [this.ctx]. [SetStroke] stands for the three assignments to
    [strokeStyle], [lineWidth] and [globalCompositeOperation], [SetCaps] for
    the two to [lineCap] and [lineJoin], [FillWhite] for [clearCanvas()]. *)
Inductive CtxCall : Type :=
  | Save
  | Restore
  | SetStroke (strokeStyle : string) (lineWidth : Z) (composite : string)
  | SetCaps
  | BeginPath
  | MoveTo (p : Point)
  | LineTo (p : Point)
  | Stroke
  | FillWhite.

(** The operation [stopDrawing] returns ([type] is always ['stroke']). *)
Record StrokeOp : Type := mkStrokeOp {
  op_tool : string;
  op_color : string;
  op_lineWidth : Z;
  op_points : list Point
}.

(** The fields of the manager that drawing reads or writes. *)
Record CanvasManager : Type := mkCanvasManager {
  isDrawing : bool;
  currentPath : list Point;
  cm_tool : string;
  cm_color : string;
  cm_lineWidth : Z;
  lastDrawTime : Z;
  drawThrottle : Z;
  pathBuffer : list Point;
  ctx : list CtxCall
}.

(** The style [drawLine] and [drawPath] set for a tool, colour and width. *)
Definition strokeStyleOf (tool color : string) (lineWidth : Z) : CtxCall :=
  SetStroke (if decide (tool = "eraser"%string) then "#FFFFFF"%string else color)
    lineWidth
    (if decide (tool = "eraser"%string) then "destination-out"%string
     else "source-over"%string).

(** [drawLine(from, to)]: [from] is not used. *)
Definition drawLine (to : Point) (cm : CanvasManager) : CanvasManager :=
  {| isDrawing := isDrawing cm; currentPath := currentPath cm;
     cm_tool := cm_tool cm; cm_color := cm_color cm;
     cm_lineWidth := cm_lineWidth cm; lastDrawTime := lastDrawTime cm;
     drawThrottle := drawThrottle cm; pathBuffer := pathBuffer cm;
     ctx := ctx cm ++ [ strokeStyleOf (cm_tool cm) (cm_color cm) (cm_lineWidth cm);
                        LineTo to; Stroke ] |}.

(** [this.currentPath.push(p)] *)
Definition pushPoint (p : Point) (cm : CanvasManager) : CanvasManager :=
  {| isDrawing := isDrawing cm; currentPath := Js.push (currentPath cm) p;
     cm_tool := cm_tool cm; cm_color := cm_color cm;
     cm_lineWidth := cm_lineWidth cm; lastDrawTime := lastDrawTime cm;
     drawThrottle := drawThrottle cm; pathBuffer := pathBuffer cm;
     ctx := ctx cm |}.

(** [startDrawing(e)] *)
Definition startDrawing (p : Point) (cm : CanvasManager) : CanvasManager :=
  {| isDrawing := true; currentPath := [p];
     cm_tool := cm_tool cm; cm_color := cm_color cm;
     cm_lineWidth := cm_lineWidth cm; lastDrawTime := lastDrawTime cm;
     drawThrottle := drawThrottle cm; pathBuffer := pathBuffer cm;
     ctx := ctx cm ++ [ BeginPath; MoveTo p ] |}.

(** The loop of [draw] over the buffered points: push, then draw the line. *)
Definition flushInDraw (cm : CanvasManager) : CanvasManager :=
  fold_left (fun cm q => drawLine q (pushPoint q cm)) (pathBuffer cm) cm.

(** The loop of [stopDrawing]: the line is drawn when the path has more than
    one point. *)
Definition flushInStop (cm : CanvasManager) : CanvasManager :=
  fold_left (fun cm q =>
               let cm1 := pushPoint q cm in
               if 1 <? Js.len (currentPath cm1) then drawLine q cm1 else cm1)
    (pathBuffer cm) cm.

Definition clearBuffer (cm : CanvasManager) : CanvasManager :=
  {| isDrawing := isDrawing cm; currentPath := currentPath cm;
     cm_tool := cm_tool cm; cm_color := cm_color cm;
     cm_lineWidth := cm_lineWidth cm; lastDrawTime := lastDrawTime cm;
     drawThrottle := drawThrottle cm; pathBuffer := []; ctx := ctx cm |}.

(** [draw(e)] at the clock reading [now]: the manager after and the point
    returned ([None] for [undefined]). *)
Definition drawAt (now : Z) (p : Point) (cm : CanvasManager)
    : CanvasManager * option Point :=
  if isDrawing cm then
    if now - lastDrawTime cm <? drawThrottle cm then
      ({| isDrawing := isDrawing cm; currentPath := currentPath cm;
          cm_tool := cm_tool cm; cm_color := cm_color cm;
          cm_lineWidth := cm_lineWidth cm; lastDrawTime := lastDrawTime cm;
          drawThrottle := drawThrottle cm;
          pathBuffer := Js.push (pathBuffer cm) p; ctx := ctx cm |}, None)
    else
      let cm1 :=
        {| isDrawing := isDrawing cm; currentPath := currentPath cm;
           cm_tool := cm_tool cm; cm_color := cm_color cm;
           cm_lineWidth := cm_lineWidth cm; lastDrawTime := now;
           drawThrottle := drawThrottle cm; pathBuffer := pathBuffer cm;
           ctx := ctx cm |} in
      let cm2 :=
        if 0 <? Js.len (pathBuffer cm1) then clearBuffer (flushInDraw cm1)
        else cm1 in
      let cm3 := pushPoint p cm2 in
      (if 1 <? Js.len (currentPath cm3) then drawLine p cm3 else cm3, Some p)
  else (cm, None).

(** [stopDrawing()]: the manager after and the operation returned. *)
Definition stopDrawing (cm : CanvasManager)
    : CanvasManager * option StrokeOp :=
  if isDrawing cm then
    let cm1 :=
      {| isDrawing := false; currentPath := currentPath cm;
         cm_tool := cm_tool cm; cm_color := cm_color cm;
         cm_lineWidth := cm_lineWidth cm; lastDrawTime := lastDrawTime cm;
         drawThrottle := drawThrottle cm; pathBuffer := pathBuffer cm;
         ctx := ctx cm |} in
    let cm2 :=
      if 0 <? Js.len (pathBuffer cm1) then clearBuffer (flushInStop cm1)
      else cm1 in
    ({| isDrawing := isDrawing cm2; currentPath := [];
        cm_tool := cm_tool cm2; cm_color := cm_color cm2;
        cm_lineWidth := cm_lineWidth cm2; lastDrawTime := lastDrawTime cm2;
        drawThrottle := drawThrottle cm2; pathBuffer := pathBuffer cm2;
        ctx := ctx cm2 |},
     Some {| op_tool := cm_tool cm2; op_color := cm_color cm2;
             op_lineWidth := cm_lineWidth cm2;
             op_points := currentPath cm2 |})
  else (cm, None).

(** The calls of [drawPath(path)]; none when [path.points] is empty. *)
Definition drawPathCalls (path : StrokeOp) : list CtxCall :=
  match op_points path with
  | [] => []
  | first :: others =>
      [ Save;
        strokeStyleOf (op_tool path) (op_color path) (op_lineWidth path);
        SetCaps; BeginPath; MoveTo first ]
      ++ map LineTo others ++ [ Stroke; Restore ]
  end.

(** [redrawFromHistory(operations)], for operations whose [data] is a
    stroke. *)
Definition redrawCalls (strokes : list StrokeOp) : list CtxCall :=
  FillWhite :: flat_map drawPathCalls strokes.

(** The vertices of the path a list of calls traces. *)
Definition vertices (calls : list CtxCall) : list CtxCall :=
  List.filter
    (fun c => match c with MoveTo _ | LineTo _ => true | _ => false end) calls.

(** The styles a list of calls sets. *)
Definition styles (calls : list CtxCall) : list CtxCall :=
  List.filter
    (fun c => match c with SetStroke _ _ _ => true | _ => false end) calls.

(** The mouse handlers of main.js, for what they do to the canvas manager:
    ['mousemove'] draws only while [isDrawing]; ['mouseup'] and
    ['mouseleave'] submit the operation of [stopDrawing] when there is one
    with at least a point. *)
Definition moves (steps : list (Z * Point)) (cm : CanvasManager)
    : CanvasManager :=
  fold_left (fun cm s => fst (drawAt (fst s) (snd s) cm)) steps cm.

Definition release (cm : CanvasManager) : CanvasManager * option StrokeOp :=
  match stopDrawing cm with
  | (cm', Some operation) =>
      if 0 <? Js.len (op_points operation) then (cm', Some operation)
      else (cm', None)
  | (cm', None) => (cm', None)
  end.

(** Press at [p], move through [steps], release. *)
Definition gesture (p : Point) (steps : list (Z * Point)) (cm : CanvasManager)
    : CanvasManager * option StrokeOp :=
  release (moves steps (startDrawing p cm)).

(** The calls of [drawLine] for each of the points, under one style. *)
Definition lineCalls (style : CtxCall) (pts : list Point) : list CtxCall :=
  flat_map (fun q => [ style; LineTo q; Stroke ]) pts.

(** The style of the manager's current settings. *)
Definition currentStyle (cm : CanvasManager) : CtxCall :=
  strokeStyleOf (cm_tool cm) (cm_color cm) (cm_lineWidth cm).

(** In the middle of a stroke begun at [p] on the manager [cm0], after the
    moves through [pts]: every point is in the path or in the buffer, in
    order, the lines up to the end of the path are drawn, the settings are
    those of [cm0]. *)
Definition mid_stroke (cm0 : CanvasManager) (p : Point) (pts : list Point)
    (cm : CanvasManager) : Prop :=
  isDrawing cm = true
  /\ (exists path, currentPath cm = p :: path
                   /\ path ++ pathBuffer cm = pts
                   /\ ctx cm = ctx cm0 ++ [ BeginPath; MoveTo p ]
                               ++ lineCalls (currentStyle cm0) path)
  /\ cm_tool cm = cm_tool cm0
  /\ cm_color cm = cm_color cm0
  /\ cm_lineWidth cm = cm_lineWidth cm0
  /\ drawThrottle cm = drawThrottle cm0.

End CanvasManager.

Arguments CtxCall : clear implicits.
Arguments StrokeOp : clear implicits.
Arguments CanvasManager : clear implicits.

(** ** Operation ids as strings *)

(** No character of the string is an underscore. *)
Fixpoint underscore_free (s : string) : Prop :=
  match s with
  | EmptyString => True
  | String c rest => c <> "_"%char /\ underscore_free rest
  end.

(** ** More sample data *)

Module Cases.

(** A manager in which a and b sit in room "r1". *)
Definition twoInR1 : RoomManager string :=
  snd (addUserToRoom 20 "r1" "b" None
         (snd (addUserToRoom 10 "r1" "a" (Some "Ann"%string) newRoomManager))).

(** A day on the server: a and b share "r1" and leave it, c sits in the
    default room. *)
Definition busyDay : list (ServerEvent string string Z) :=
  [ Incoming "a" (JoinRoom 10 (Some "r1") None);
    Incoming "b" (JoinRoom 20 (Some "r1") (Some "Bob"));
    Incoming "a" (SubmitStroke (Sample.entropy 1) "S1");
    IncomingDrawPath "a" "p1";
    IncomingCursorMove "b" 3 4;
    Incoming "b" RequestUndo;
    Incoming "c" (JoinRoom 30 None (Some "Cy"));
    Disconnected "a";
    Elapsed 1000;
    Disconnected "b";
    Incoming "c" (SubmitStroke (Sample.entropy 2) "S2") ]%string.

(** The record of c in the default room after that day. *)
Definition userCy : User :=
  {| user_id := "c"; name := "Cy"; color := Js.Obj "#FF6B6B"%string;
     joinedAt := 30 |}.

(** Room "r1" when the observer c has just joined: a submitted S1, nothing
    is undone; the manager and c's copy. *)
Definition justJoined : RoomManager string * App string :=
  default (newRoomManager, newApp)
    (observe "c" "r1"
       [ ("a", JoinRoom 10 (Some "r1") None);
         ("a", SubmitStroke (Sample.entropy 1) "S1");
         ("c", JoinRoom 30 (Some "r1") None) ]%string
       newRoomManager newApp).

(** Then a submits S2 and undoes it. *)
Definition strokeThenUndo : list (string * Request string) :=
  [ ("a", SubmitStroke (Sample.entropy 2) "S2"); ("a", RequestUndo) ]%string.

(** a joins "r1" and submits S1. *)
Definition aDrew : list (ServerEvent string string Z) :=
  [ Incoming "a" (JoinRoom 10 (Some "r1") None);
    Incoming "a" (SubmitStroke (Sample.entropy 1) "S1") ]%string.

(** A stroke of three points sent 20 ms apart, from time 100. *)
Definition quickStroke : list (Z * PathEntry string) :=
  [ (100, {| point := "p1"; entry_tool := "brush"; entry_color := "#000000";
             entry_lineWidth := 3 |});
    (120, {| point := "p2"; entry_tool := "brush"; entry_color := "#000000";
             entry_lineWidth := 3 |});
    (140, {| point := "p3"; entry_tool := "brush"; entry_color := "#000000";
             entry_lineWidth := 3 |}) ]%string.

(** The same three points with nothing after them. *)
Definition threePoints : list (TabEvent string string Z) :=
  pointEvents quickStroke.

(** Cursor positions reported at 1000, 1050, 1101 and 1300 ms. *)
Definition cursorCalls : list (Z * Z * Z * Z) :=
  [ (1000, 1000, 1, 1); (1050, 1050, 2, 2); (1101, 1102, 3, 3);
    (1300, 1300, 4, 4) ].

(** A canvas manager at rest, with a red brush of width 5. *)
Definition atRest : CanvasManager string :=
  {| isDrawing := false; currentPath := []; cm_tool := "brush";
     cm_color := "#FF0000"; cm_lineWidth := 5; lastDrawTime := 0;
     drawThrottle := 16; pathBuffer := []; ctx := [ FillWhite ] |}.

(** Mouse moves at 100, 105, 110 and 130 ms: the second and third fall
    within the throttle. *)
Definition fourMoves : list (Z * string) :=
  [ (100, "p1"); (105, "p2"); (110, "p3"); (130, "p4") ]%string.

End Cases.

(** * Properties of the operation log *)

Section DrawingStateFacts.

Context {Payload : Type}.
Implicit Types (s : DrawingState Payload) (o : Operation Payload).
Implicit Types (ops : list (Operation Payload)).

Lemma len_app {A} (l k : list A) : Js.len (l ++ k) = Js.len l + Js.len k.
Proof. unfold Js.len. rewrite length_app. lia. Qed.

Lemma slice0_take {A} (l : list A) (e : Z) :
  0 <= e -> Js.slice0 l e = take (Z.to_nat e) l.
Proof.
  intros He. unfold Js.slice0, Js.len.
  destruct (Z.ltb_spec e 0) as [?|_]; [lia|].
  destruct (Z.le_gt_cases e (Z.of_nat (length l))) as [Hle|Hgt].
  - by rewrite Z.min_l.
  - rewrite Z.min_r by lia. rewrite Nat2Z.id.
    rewrite !take_ge; [done | lia | lia].
Qed.

Lemma index_in_range {A} (l : list A) (i : Z) :
  0 <= i < Js.len l ->
  exists x, l !! Z.to_nat i = Some x /\ Js.index l i = Js.Obj x.
Proof.
  intros Hi. unfold Js.index, Js.len in *.
  destruct (Z.ltb_spec i 0) as [?|_]; [lia|].
  destruct (lookup_lt_is_Some_2 l (Z.to_nat i)) as [x Hx]; [lia|].
  exists x. by rewrite Hx.
Qed.

Lemma index_last {A} (l : list A) (x : A) (i : Z) :
  i = Js.len l -> Js.index (l ++ [x]) i = Js.Obj x.
Proof.
  intros ->. unfold Js.index, Js.len.
  destruct (Z.ltb_spec (Z.of_nat (length l)) 0) as [?|_]; [lia|].
  rewrite Nat2Z.id. rewrite lookup_app_r by lia.
  by rewrite Nat.sub_diag.
Qed.

Lemma len_appended e operation s :
  cursor_ok s -> Js.len (appended e operation s) = currentIndex s + 2.
Proof.
  intros [Hlo Hhi]. unfold appended. rewrite len_app.
  unfold Js.len in *. rewrite length_take. simpl. lia.
Qed.

(** [addOperation] on a log whose cursor is in range, in closed form. *)
Lemma addOperation_unfold e operation s :
  cursor_ok s ->
  addOperation e operation s =
    if maxHistorySize s <? currentIndex s + 2 then
      (Js.index (drop 1 (appended e operation s)) (currentIndex s),
       {| operations := drop 1 (appended e operation s);
          maxHistorySize := maxHistorySize s;
          currentIndex := currentIndex s |})
    else
      (Js.index (appended e operation s) (currentIndex s + 1),
       {| operations := appended e operation s;
          maxHistorySize := maxHistorySize s;
          currentIndex := currentIndex s + 1 |}).
Proof.
  intros Hc. pose proof (len_appended e operation s Hc) as Hlen.
  destruct Hc as [Hlo Hhi]. unfold addOperation.
  assert ((if currentIndex s <? Js.len (operations s) - 1
           then Js.slice0 (operations s) (currentIndex s + 1)
           else operations s)
          = take (Z.to_nat (currentIndex s + 1)) (operations s)) as ->.
  { destruct (Z.ltb_spec (currentIndex s) (Js.len (operations s) - 1)).
    - apply slice0_take. lia.
    - assert (currentIndex s + 1 = Js.len (operations s)) as -> by lia.
      unfold Js.len. rewrite Nat2Z.id. by rewrite firstn_all. }
  unfold Js.push. fold (appended e operation s). rewrite Hlen.
  destruct (maxHistorySize s <? currentIndex s + 2); unfold Js.shift.
  - by replace (currentIndex s + 1 - 1) with (currentIndex s) by lia.
  - done.
Qed.

Lemma addOperation_well_formed e operation s :
  well_formed s -> well_formed (snd (addOperation e operation s)).
Proof.
  intros (Hmax & Hc & Hcap).
  pose proof (len_appended e operation s Hc) as Hlen.
  rewrite addOperation_unfold by done.
  destruct (Z.ltb_spec (maxHistorySize s) (currentIndex s + 2)) as [Hov|Hfit];
    unfold well_formed, cursor_ok; simpl.
  - assert (Js.len (drop 1 (appended e operation s)) = currentIndex s + 1) as ->.
    { unfold Js.len in *. rewrite length_drop. lia. }
    destruct Hc. lia.
  - rewrite Hlen. destruct Hc. lia.
Qed.

Lemma undo_well_formed s : well_formed s -> well_formed (snd (undo s)).
Proof.
  intros (Hmax & [Hlo Hhi] & Hcap). unfold undo.
  destruct (Z.leb_spec 0 (currentIndex s));
    unfold well_formed, cursor_ok; simpl; lia.
Qed.

Lemma redo_well_formed s : well_formed s -> well_formed (snd (redo s)).
Proof.
  intros (Hmax & [Hlo Hhi] & Hcap). unfold redo.
  destruct (Z.ltb_spec (currentIndex s) (Js.len (operations s) - 1));
    unfold well_formed, cursor_ok; simpl; lia.
Qed.

Lemma clear_well_formed s : well_formed s -> well_formed (clear s).
Proof.
  intros (Hmax & _ & _). unfold well_formed, cursor_ok, clear, Js.len.
  simpl. lia.
Qed.

Lemma new_well_formed : well_formed (@newDrawingState Payload).
Proof. unfold well_formed, cursor_ok, newDrawingState, Js.len. simpl. lia. Qed.

Lemma exec_well_formed s (c : Call Payload) :
  well_formed s -> well_formed (exec s c).
Proof.
  destruct c; simpl; auto using addOperation_well_formed, undo_well_formed,
    redo_well_formed, clear_well_formed.
Qed.

Lemma fold_exec_well_formed (calls : list (Call Payload)) s :
  well_formed s -> well_formed (fold_left exec calls s).
Proof.
  revert s. induction calls as [|c calls IH]; intros s Hs; simpl; [done|].
  apply IH. by apply exec_well_formed.
Qed.

(** Every state reached from the constructor's is well formed. *)
Lemma run_well_formed (calls : list (Call Payload)) : well_formed (run calls).
Proof. apply fold_exec_well_formed, new_well_formed. Qed.

(** C1. Invariant: whatever sequence of [addOperation], [undo], [redo] and
    [clear] calls is run on a fresh log, the cursor stays within
    [-1 .. operations.length - 1]. *)
Theorem C1_cursor_in_range (calls : list (Call Payload)) :
  -1 <= currentIndex (run calls) <= Js.len (operations (run calls)) - 1.
Proof. by destruct (run_well_formed calls) as (_ & Hc & _). Qed.

End DrawingStateFacts.

Section DrawingStateClaims.

Context {Payload : Type}.
Implicit Types (s : DrawingState Payload).

(** C2. [addOperation] truncates the entries past the cursor (what remains is
    the active slice), appends the stamped operation as the tail (dropping
    the oldest entry only when the capacity is exceeded) and leaves the cursor
    on that tail; the call returns the stored operation. In particular, on a
    log of length L with cursor c < L-1 the result has length c+2, and is the
    active slice followed by the new operation. *)
Theorem C2_append_truncates_redo_tail (e : Entropy)
    (operation : OperationInput Payload) s :
  well_formed s ->
  let s' := snd (addOperation e operation s) in
  let pushed := getActiveOperations s ++ [stamp e operation] in
  operations s' = (if 1000 <? Js.len pushed then drop 1 pushed else pushed)
  /\ last (operations s') = Some (stamp e operation)
  /\ currentIndex s' = Js.len (operations s') - 1
  /\ fst (addOperation e operation s) = Js.Obj (stamp e operation)
  /\ (currentIndex s < Js.len (operations s) - 1 ->
      operations s' = pushed /\ Js.len (operations s') = currentIndex s + 2).
Proof.
  intros (Hmax & Hc & Hcap). cbv zeta.
  pose proof (len_appended e operation s Hc) as Hlen.
  assert (getActiveOperations s ++ [stamp e operation] = appended e operation s)
    as -> by (unfold getActiveOperations, appended; destruct Hc;
              by rewrite slice0_take by lia).
  rewrite addOperation_unfold by done. rewrite Hmax, Hlen.
  destruct Hc as [Hlo Hhi].
  destruct (Z.ltb_spec 1000 (currentIndex s + 2)) as [Hov|Hfit]; simpl.
  - assert (Js.len (drop 1 (appended e operation s)) = currentIndex s + 1)
      as Hlen' by (unfold Js.len in *; rewrite length_drop; lia).
    assert (drop 1 (appended e operation s)
            = drop 1 (take (Z.to_nat (currentIndex s + 1)) (operations s))
              ++ [stamp e operation]) as Hdrop.
    { unfold appended. rewrite drop_app_le; [done|].
      rewrite length_take. unfold Js.len in *. lia. }
    split; [done|]. split; [by rewrite Hdrop, last_snoc|].
    split; [lia|]. split; [|lia].
    rewrite Hdrop. apply index_last.
    rewrite Hdrop, len_app in Hlen'. unfold Js.len in *. simpl in Hlen'. lia.
  - split; [done|]. split; [by unfold appended; rewrite last_snoc|].
    split; [lia|]. split; [|intros _; split; [done|lia]].
    unfold appended. apply index_last.
    unfold Js.len in *. rewrite length_take. lia.
Qed.

(** C3. The log of a reachable state never holds more than 1000 entries;
    when it holds exactly 1000 with the cursor on the tail, [addOperation]
    keeps the length at 1000, drops the entry at index 0, and the cursor,
    incremented and decremented again, stays on the tail (999). *)
Theorem C3_capacity_bound (calls : list (Call Payload)) (e : Entropy)
    (operation : OperationInput Payload) :
  let s := run calls in
  let s' := snd (addOperation e operation s) in
  Js.len (operations s) <= 1000
  /\ (Js.len (operations s) = 1000 -> currentIndex s = 999 ->
      Js.len (operations s') = 1000
      /\ operations s' = drop 1 (operations s) ++ [stamp e operation]
      /\ currentIndex s' = currentIndex s + 1 - 1
      /\ currentIndex s' = Js.len (operations s') - 1).
Proof.
  cbv zeta. destruct (run_well_formed calls) as (Hmax & Hc & Hcap).
  split; [lia|]. intros Hfull Htail.
  rewrite addOperation_unfold by done. rewrite Hmax, Htail. simpl.
  unfold appended. rewrite Htail.
  replace (Z.to_nat (999 + 1)) with (length (operations (run calls)))
    by (unfold Js.len in Hfull; lia).
  rewrite firstn_all.
  assert (drop 1 (operations (run calls) ++ [stamp e operation])
          = drop 1 (operations (run calls)) ++ [stamp e operation]) as ->.
  { rewrite drop_app_le; [done|]. unfold Js.len in Hfull. lia. }
  rewrite len_app. unfold Js.len in *. rewrite length_drop. simpl.
  repeat split; lia.
Qed.

(** C4. On a log whose cursor is in range, [undo()] either finds
    [currentIndex >= 0], returns the operation stored at [currentIndex] and
    decrements the cursor, or finds [currentIndex < 0], returns [null] and
    changes nothing; [redo()] either finds [currentIndex < length-1],
    increments the cursor and returns the operation stored at the new
    [currentIndex], or returns [null] and changes nothing. *)
Theorem C4_undo_redo_step s :
  cursor_ok s ->
  ((0 <= currentIndex s /\
    exists o, operations s !! Z.to_nat (currentIndex s) = Some o /\
      undo s = (Js.Obj o,
                {| operations := operations s;
                   maxHistorySize := maxHistorySize s;
                   currentIndex := currentIndex s - 1 |}))
   \/ (currentIndex s < 0 /\ undo s = (Js.Null, s)))
  /\
  ((currentIndex s < Js.len (operations s) - 1 /\
    exists o, operations s !! Z.to_nat (currentIndex s + 1) = Some o /\
      redo s = (Js.Obj o,
                {| operations := operations s;
                   maxHistorySize := maxHistorySize s;
                   currentIndex := currentIndex s + 1 |}))
   \/ (Js.len (operations s) - 1 <= currentIndex s /\ redo s = (Js.Null, s))).
Proof.
  intros [Hlo Hhi]. split.
  - unfold undo. destruct (Z.leb_spec 0 (currentIndex s)) as [Hge|Hlt].
    + left. split; [done|].
      destruct (index_in_range (operations s) (currentIndex s)) as (o & Ho & Hi);
        [lia|].
      exists o. by rewrite Hi.
    + right. split; [lia|done].
  - unfold redo.
    destruct (Z.ltb_spec (currentIndex s) (Js.len (operations s) - 1)) as [Hlt|Hge].
    + left. split; [done|].
      destruct (index_in_range (operations s) (currentIndex s + 1))
        as (o & Ho & Hi); [lia|].
      exists o. by rewrite Hi.
    + right. split; [lia|done].
Qed.

(** C5, as amended. On a log whose cursor is in range and not below the
    bottom ([currentIndex >= 0], so that [undo()] undoes something), [undo()]
    followed by [redo()] restores [currentIndex] and the active slice, indeed
    the whole state, and [redo()] returns the operation [undo()] returned. *)
Theorem C5_undo_then_redo_restores s :
  cursor_ok s -> 0 <= currentIndex s ->
  let s' := snd (redo (snd (undo s))) in
  currentIndex s' = currentIndex s
  /\ getActiveOperations s' = getActiveOperations s
  /\ s' = s
  /\ fst (redo (snd (undo s))) = fst (undo s).
Proof.
  intros [Hlo Hhi] Hge. cbv zeta.
  assert (snd (redo (snd (undo s))) = s
          /\ fst (redo (snd (undo s))) = fst (undo s)) as [Hs Hr].
  { unfold undo. destruct (Z.leb_spec 0 (currentIndex s)); [|lia].
    unfold redo; simpl.
    destruct (Z.ltb_spec (currentIndex s - 1) (Js.len (operations s) - 1));
      [|lia].
    simpl. replace (currentIndex s - 1 + 1) with (currentIndex s) by lia.
    by destruct s. }
  by rewrite Hs, Hr.
Qed.

(** C8. [clear()] leaves an empty log with the cursor at -1, and a second
    [clear()] changes nothing more. *)
Theorem C8_clear_resets_idempotent s :
  Js.len (operations (clear s)) = 0
  /\ currentIndex (clear s) = -1
  /\ clear (clear s) = clear s.
Proof. by unfold clear, Js.len. Qed.

End DrawingStateClaims.

(** Closes a goal about a concrete log by evaluation. *)
Ltac evaluated :=
  repeat split; vm_compute; first [ reflexivity | congruence ].

Lemma C2_witness :
  well_formed Sample.undoneTwice
  /\ currentIndex Sample.undoneTwice < Js.len (operations Sample.undoneTwice) - 1
  /\ Js.len (operations (snd (addOperation (Sample.entropy 4)
                                (Sample.strokeBy "b" "S4")
                                Sample.undoneTwice)))
     = currentIndex Sample.undoneTwice + 2.
Proof.
  assert (well_formed Sample.undoneTwice) as Hwf
    by (unfold well_formed, cursor_ok; evaluated).
  assert (currentIndex Sample.undoneTwice
          < Js.len (operations Sample.undoneTwice) - 1) as Hlt by evaluated.
  split; [exact Hwf|]. split; [exact Hlt|].
  destruct (C2_append_truncates_redo_tail (Sample.entropy 4)
              (Sample.strokeBy "b" "S4") Sample.undoneTwice Hwf)
    as (_ & _ & _ & _ & Hafter).
  exact (proj2 (Hafter Hlt)).
Defined.

Lemma C3_witness :
  Js.len (operations (run Sample.saturating)) = 1000
  /\ currentIndex (run Sample.saturating) = 999
  /\ Js.len (operations (snd (addOperation (Sample.entropy 1)
                                (Sample.strokeBy "b" "T")
                                (run Sample.saturating)))) = 1000.
Proof.
  assert (Js.len (operations (run Sample.saturating)) = 1000) as Hfull
    by (vm_compute; reflexivity).
  assert (currentIndex (run Sample.saturating) = 999) as Htail
    by (vm_compute; reflexivity).
  split; [exact Hfull|]. split; [exact Htail|].
  destruct (C3_capacity_bound Sample.saturating (Sample.entropy 1)
              (Sample.strokeBy "b" "T")) as (_ & Hsat).
  exact (proj1 (Hsat Hfull Htail)).
Defined.

Lemma C4_witness :
  cursor_ok Sample.undoneTwice
  /\ exists o, operations Sample.undoneTwice !! 0%nat = Some o
               /\ fst (undo Sample.undoneTwice) = Js.Obj o.
Proof.
  assert (cursor_ok Sample.undoneTwice) as Hc
    by (unfold cursor_ok; evaluated).
  split; [exact Hc|].
  destruct (C4_undo_redo_step Sample.undoneTwice Hc)
    as [[(_ & o & Ho & Hu) | (Hlt & _)] _].
  - exists o. split; [exact Ho|]. by rewrite Hu.
  - exfalso. vm_compute in Hlt. discriminate.
Defined.

(** C5, refuted as stated: after one stroke and one [undo()] the cursor is
    -1 and the log still holds the stroke; a further [undo()] does nothing
    and the [redo()] after it moves the cursor to 0, so the pair does not
    restore the cursor (nor the active slice, which grows from none to one
    entry). *)
Lemma C5_counterexample :
  ~ (forall calls : list (Call string),
       let s := run calls in
       let s' := snd (redo (snd (undo s))) in
       currentIndex s' = currentIndex s
       /\ getActiveOperations s' = getActiveOperations s).
Proof.
  intros H. destruct (H Sample.undoneAll) as [Hidx _].
  vm_compute in Hidx. discriminate.
Qed.

Lemma C5_witness :
  cursor_ok Sample.undoneOnce
  /\ 0 <= currentIndex Sample.undoneOnce
  /\ currentIndex (snd (redo (snd (undo Sample.undoneOnce))))
     = currentIndex Sample.undoneOnce.
Proof.
  assert (cursor_ok Sample.undoneOnce) as Hc
    by (unfold cursor_ok; evaluated).
  assert (0 <= currentIndex Sample.undoneOnce) as Hge by evaluated.
  split; [exact Hc|]. split; [exact Hge|].
  exact (proj1 (C5_undo_then_redo_restores Sample.undoneOnce Hc Hge)).
Defined.

(** * Properties of the rooms *)

Section JsMapFacts.

Context {V : Type}.
Implicit Types (m : JsMap.t V) (k : string) (v : V).

Lemma keys_set_fresh k v m :
  k ∉ JsMap.keys m -> JsMap.keys (JsMap.set k v m) = JsMap.keys m ++ [k].
Proof.
  induction m as [|[k' v'] m IH]; simpl; intros Hk; [done|].
  apply not_elem_of_cons in Hk as [Hne Hk].
  destruct (decide (k' = k)) as [->|_]; [done|].
  simpl. by rewrite IH.
Qed.

Lemma elem_keys_set k v m : k ∈ JsMap.keys (JsMap.set k v m).
Proof.
  induction m as [|[k' v'] m IH]; simpl; [apply list_elem_of_here|].
  destruct (decide (k' = k)); simpl;
    [apply list_elem_of_here | by apply list_elem_of_further].
Qed.

Lemma not_elem_keys_delete k m : k ∉ JsMap.keys (JsMap.delete k m).
Proof.
  induction m as [|[k' v'] m IH]; simpl; [apply not_elem_of_nil|].
  destruct (decide (k' = k)) as [|Hne]; [done|].
  simpl. apply not_elem_of_cons. split; [congruence|done].
Qed.

Lemma get_values k v m : JsMap.get k m = Some v -> v ∈ JsMap.values m.
Proof.
  induction m as [|[k' v'] m IH]; simpl; [done|].
  destruct (decide (k' = k)).
  - intros [= ->]. apply list_elem_of_here.
  - intros H. apply list_elem_of_further. by apply IH.
Qed.

Lemma size_keys m : JsMap.size m = Z.of_nat (length (JsMap.keys m)).
Proof. unfold JsMap.size, JsMap.keys. by rewrite length_map. Qed.

Lemma size_zero_keys m : JsMap.size m = 0 <-> JsMap.keys m = [].
Proof.
  rewrite size_keys. split.
  - intros H. apply length_zero_iff_nil. lia.
  - by intros ->.
Qed.

End JsMapFacts.

Section ColourFacts.

Context {Payload : Type}.
Implicit Types (m : RoomManager Payload) (w : World Payload).

(** The colour handed out by a join is indexed by the number of connections
    present in the room when the join is served. *)
Lemma addUserToRoom_color now (r c : string) ud m :
  color (fst (addUserToRoom now r c ud m))
  = Js.index userColors (Z.of_nat (length (present r m)) `mod` 12).
Proof.
  unfold addUserToRoom, getOrCreateRoom, present.
  destruct (rooms m !! r) as [room|]; simpl.
  - rewrite size_keys. by rewrite Z.rem_mod_nonneg by (unfold Js.len; simpl; lia).
  - done.
Qed.

Lemma present_join_fresh (r c : string) ud w :
  c ∉ present r (manager w) ->
  present r (manager (join r c ud w)) = present r (manager w) ++ [c].
Proof.
  unfold join, addUserToRoom, getOrCreateRoom, present. simpl.
  destruct (rooms (manager w) !! r) as [room|]; simpl; intros Hc;
    rewrite lookup_insert_eq; simpl.
  - by apply keys_set_fresh.
  - done.
Qed.

Lemma present_join_elem (r c : string) ud w :
  c ∈ present r (manager (join r c ud w)).
Proof.
  unfold join, addUserToRoom, getOrCreateRoom, present. simpl.
  destruct (rooms (manager w) !! r) as [room|]; simpl;
    rewrite lookup_insert_eq; simpl.
  - apply elem_keys_set.
  - apply list_elem_of_here.
Qed.

(** With joins of fresh connections only, the presence count is the count of
    the joins so far. *)
Lemma assigned_joins_only (r : string) joiners : forall w (n : nat) (u : User),
  NoDup (present r (manager w) ++ map fst joiners) ->
  assigned r (joinsOf joiners) w !! n = Some u ->
  color u = Js.index userColors
              ((Z.of_nat (length (present r (manager w))) + Z.of_nat n) `mod` 12).
Proof.
  induction joiners as [|[c ud] joiners IH]; intros w n u Hnd Hn; simpl in *.
  - by destruct n.
  - destruct n as [|n]; simpl in Hn.
    + injection Hn as <-. rewrite addUserToRoom_color. f_equal. f_equal. lia.
    + assert (c ∉ present r (manager w)) as Hfresh.
      { apply NoDup_app in Hnd as (_ & Hdisj & _). intros Hin.
        apply (Hdisj c Hin). apply list_elem_of_here. }
      rewrite (IH (join r c ud w) n u).
      * rewrite present_join_fresh by done. rewrite length_app. simpl.
        f_equal. f_equal. lia.
      * rewrite present_join_fresh by done. rewrite <- app_assoc. done.
      * done.
Qed.

(** C7, as amended. The colour given to a joining user is
    [palette[presenceSize mod 12]], where [presenceSize] is the number of
    connections present in the room when the join is served; when distinct
    connections join an empty (or new) room and none leaves, that number is
    the join sequence number, so the user of the join number [n] (from 0)
    gets [palette[n mod 12]] and the 13th gets the colour of the 1st. *)
Theorem C7_color_by_presence_size :
  (forall now (r c : string) ud m,
      color (fst (addUserToRoom now r c ud m))
      = Js.index userColors (Z.of_nat (length (present r m)) `mod` 12))
  /\ (forall (r : string) joiners w (n : nat) (u : User),
        present r (manager w) = [] ->
        NoDup (map fst joiners) ->
        assigned r (joinsOf joiners) w !! n = Some u ->
        color u = Js.index userColors (Z.of_nat n `mod` 12)).
Proof.
  split; [apply addUserToRoom_color|].
  intros r joiners w n u Hempty Hnd Hn.
  rewrite (assigned_joins_only r joiners w n u); [|by rewrite Hempty|done].
  by rewrite Hempty.
Qed.

End ColourFacts.

(** C7, refuted as stated: a and b join "r1", a leaves, c joins. c is the
    third to join (sequence number 2) and receives the colour at index 1,
    the one b still holds, not the one at index 2. *)
Lemma C7_counterexample :
  ~ (forall (trace : list Presence) (n : nat) (u : User),
       assigned "r1" trace (@newWorld string) !! n = Some u ->
       color u = Js.index userColors (Z.of_nat n `mod` 12)).
Proof.
  intros H.
  specialize (H Sample.joinLeaveJoin 2%nat
                {| user_id := "c"; name := "User 2";
                   color := Js.Obj "#4ECDC4"%string; joinedAt := 0 |}
                eq_refl).
  vm_compute in H. discriminate.
Qed.

Lemma C7_witness :
  exists u1 u13 : User,
    assigned "r1" (joinsOf Sample.thirteen) (@newWorld string) !! 0%nat = Some u1
    /\ assigned "r1" (joinsOf Sample.thirteen) (@newWorld string) !! 12%nat = Some u13
    /\ color u13 = Js.Obj "#FF6B6B"%string
    /\ color u13 = color u1.
Proof.
  assert (NoDup (map fst Sample.thirteen)) as Hnd
    by (apply (bool_decide_unpack _); vm_compute; exact I).
  assert (present "r1" (manager (@newWorld string)) = []) as Hempty
    by (vm_compute; reflexivity).
  exists {| user_id := "u1"; name := "User 1";
            color := Js.Obj "#FF6B6B"%string; joinedAt := 0 |},
         {| user_id := "u13"; name := "User 13";
            color := Js.Obj "#FF6B6B"%string; joinedAt := 0 |}.
  assert (assigned "r1" (joinsOf Sample.thirteen) (@newWorld string) !! 12%nat
          = Some {| user_id := "u13"; name := "User 13";
                    color := Js.Obj "#FF6B6B"%string; joinedAt := 0 |}) as H13
    by (vm_compute; reflexivity).
  split; [vm_compute; reflexivity|].
  split; [exact H13|].
  split; [|reflexivity].
  exact (proj2 C7_color_by_presence_size "r1"%string Sample.thirteen
           newWorld 12%nat _ Hempty Hnd H13).
Defined.

Section EvictionFacts.

Context {Payload : Type}.
Implicit Types (m : RoomManager Payload) (w : World Payload).
Implicit Types (timers : list (Z * string)).

(** A room that holds somebody is untouched by any eviction callback. *)
Lemma evictionCallback_occupied (r r' : string) m :
  present r m <> [] ->
  rooms (evictionCallback r' m) !! r = rooms m !! r.
Proof.
  unfold evictionCallback, present. intros Hocc.
  destruct (rooms m !! r') as [room'|] eqn:Hr'; [|done].
  destruct (decide (JsMap.size (users room') = 0)) as [Hz|_]; [|done].
  simpl. destruct (decide (r' = r)) as [->|Hne].
  - rewrite Hr' in Hocc. by apply size_zero_keys in Hz.
  - by rewrite lookup_delete_ne.
Qed.

Lemma evictionCallback_present (r r' : string) m :
  present r m <> [] -> present r (evictionCallback r' m) = present r m.
Proof.
  intros Hocc. unfold present.
  by rewrite evictionCallback_occupied.
Qed.

Lemma evictionCallback_same_room (r : string) m :
  (present r m <> [] -> evictionCallback r m = m)
  /\ (rooms (evictionCallback r m) !! r = None <-> present r m = []).
Proof.
  unfold evictionCallback, present.
  destruct (rooms m !! r) as [room|] eqn:Hr.
  - destruct (decide (JsMap.size (users room) = 0)) as [Hz|Hnz]; simpl.
    + apply size_zero_keys in Hz. rewrite lookup_delete_eq. by rewrite Hz.
    + rewrite Hr. split; [done|]. split; [done|].
      intros Hk. by apply size_zero_keys in Hk.
  - by rewrite Hr.
Qed.

Lemma fire_present t timers : forall m (r : string),
  present r m <> [] -> present r (fst (fire t timers m)) = present r m.
Proof.
  induction timers as [|[due r'] timers IH]; intros m r Hocc; simpl; [done|].
  destruct (due <=? t).
  - rewrite IH; rewrite evictionCallback_present; done.
  - specialize (IH m r Hocc). by destruct (fire t timers m).
Qed.

Lemma fire_pending_later t timers : forall m x,
  x ∈ snd (fire t timers m) -> t < fst x.
Proof.
  induction timers as [|[due r'] timers IH]; intros m x; simpl.
  - by intros ?%elem_of_nil.
  - destruct (Z.leb_spec due t) as [Hdue|Hlater]; [apply IH|].
    specialize (IH m x). destruct (fire t timers m) as [m' rest]. simpl in *.
    intros [->|Hin]%elem_of_cons; [done|by apply IH].
Qed.

Lemma fire_keeps_later t timers : forall m x,
  x ∈ timers -> t < fst x -> x ∈ snd (fire t timers m).
Proof.
  induction timers as [|[due r'] timers IH]; intros m x; simpl.
  - by intros ?%elem_of_nil.
  - intros Hin Hlater. destruct (Z.leb_spec due t) as [Hdue|Hnot].
    + apply elem_of_cons in Hin as [->|Hin]; [simpl in Hlater; lia|].
      by apply IH.
    + specialize (IH m x). destruct (fire t timers m) as [m' rest]. simpl in *.
      apply elem_of_cons in Hin as [->|Hin];
        [apply list_elem_of_here | apply list_elem_of_further; by apply IH].
Qed.

Lemma advance_present t w (r d : string) :
  d ∈ present r (manager w) -> d ∈ present r (manager (advance t w)).
Proof.
  intros Hd. unfold advance.
  pose proof (fire_present (Z.max t (clock w)) (pending w) (manager w) r) as Hf.
  destruct (fire (Z.max t (clock w)) (pending w) (manager w)) as [m' rest].
  simpl in *. rewrite Hf; [done|]. intros Hnil. rewrite Hnil in Hd.
  by apply elem_of_nil in Hd.
Qed.

Lemma advance_pending_later t w x :
  x ∈ pending (advance t w) -> t < fst x.
Proof.
  unfold advance.
  pose proof (fire_pending_later (Z.max t (clock w)) (pending w) (manager w) x)
    as Hf.
  destruct (fire (Z.max t (clock w)) (pending w) (manager w)) as [m' rest].
  simpl in *. intros Hin. specialize (Hf Hin). lia.
Qed.

Lemma advance_keeps_later t w x :
  x ∈ pending w -> Z.max t (clock w) < fst x -> x ∈ pending (advance t w).
Proof.
  unfold advance. intros Hin Hlater.
  pose proof (fire_keeps_later (Z.max t (clock w)) (pending w) (manager w) x
                Hin Hlater) as Hf.
  by destruct (fire (Z.max t (clock w)) (pending w) (manager w)) as [m' rest].
Qed.

(** The last member leaving empties the room, keeps it in the map and
    registers the eviction five minutes ahead. *)
Lemma leave_last_member w (c r : string) :
  userRooms (manager w) !! c = Some r -> r <> ""%string ->
  present r (manager w) = [c] ->
  is_Some (rooms (manager (leave c w)) !! r)
  /\ present r (manager (leave c w)) = []
  /\ pending (leave c w) = pending w ++ [(clock w + 300000, r)]
  /\ clock (leave c w) = clock w.
Proof.
  intros Hc Hr Hp. unfold leave, removeUser, present in *. rewrite Hc.
  destruct (decide (r = ""%string)) as [|_]; [done|].
  destruct (rooms (manager w) !! r) as [room|]; [|done].
  destruct (users room) as [|[k u] [|? ?]] eqn:Hu; simpl in Hp; try done.
  injection Hp as ->. simpl.
  destruct (decide (c = c)) as [_|]; [|done]. simpl.
  rewrite lookup_insert_eq. simpl. split; [by eexists|done].
Qed.

(** C9. The eviction callback re-checks the room when it runs: a room that
    holds somebody is left as it is, and the room is gone afterwards exactly
    when it was absent or empty at that time. In the scenario: the last
    member c leaves room r (eviction registered five minutes ahead), d joins
    before that time, and the clock passes it; then the registered callback
    has run and room r still holds d. *)
Theorem C9_eviction_revalidated_at_fire_time :
  (forall (r : string) m,
      (present r m <> [] -> evictionCallback r m = m)
      /\ (rooms (evictionCallback r m) !! r = None <-> present r m = []))
  /\ (forall w (c d r : string) ud t1 t2,
        userRooms (manager w) !! c = Some r -> r <> ""%string ->
        present r (manager w) = [c] ->
        clock w <= t1 < clock w + 300000 -> clock w + 300000 <= t2 ->
        let w1 := leave c w in
        let w2 := join r d ud (advance t1 w1) in
        let w3 := advance t2 w2 in
        is_Some (rooms (manager w1) !! r)
        /\ present r (manager w1) = []
        /\ (clock w + 300000, r) ∈ pending w1
        /\ (clock w + 300000, r) ∈ pending w2
        /\ (forall x, x ∈ pending w3 -> t2 < fst x)
        /\ d ∈ present r (manager w3)).
Proof.
  split; [apply evictionCallback_same_room|].
  intros w c d r ud t1 t2 Hc Hr Hp Ht1 Ht2. cbv zeta.
  destruct (leave_last_member w c r Hc Hr Hp) as (Hex & Hempty & Hpend & Hclk).
  assert ((clock w + 300000, r) ∈ pending (leave c w)) as Hin.
  { rewrite Hpend. apply elem_of_app. right. apply list_elem_of_here. }
  repeat split; try done.
  - simpl. apply advance_keeps_later; [done|]. rewrite Hclk. simpl. lia.
  - intros x. apply advance_pending_later.
  - apply advance_present, present_join_elem.
Qed.

End EvictionFacts.

Lemma C9_witness :
  userRooms (manager Sample.cInA) !! "c"%string = Some "A"%string
  /\ present "A" (manager Sample.cInA) = ["c"%string]
  /\ evictionCallback "A" (manager Sample.cInA) = manager Sample.cInA
  /\ "d"%string ∈ present "A"
       (manager (advance 300000
                   (join "A" "d" None (advance 1000 (leave "c" Sample.cInA))))).
Proof.
  assert (userRooms (manager Sample.cInA) !! "c"%string = Some "A"%string)
    as Hc by (vm_compute; reflexivity).
  assert (present "A" (manager Sample.cInA) = ["c"%string])
    as Hp by (vm_compute; reflexivity).
  assert ("A"%string <> ""%string) as Hr by discriminate.
  assert (clock Sample.cInA <= 1000 < clock Sample.cInA + 300000) as Ht1
    by (change (clock Sample.cInA) with 0; lia).
  assert (clock Sample.cInA + 300000 <= 300000) as Ht2
    by (change (clock Sample.cInA) with 0; lia).
  split; [exact Hc|]. split; [exact Hp|].
  split.
  { apply (proj1 C9_eviction_revalidated_at_fire_time "A"%string
             (manager Sample.cInA)).
    rewrite Hp. discriminate. }
  destruct (proj2 C9_eviction_revalidated_at_fire_time Sample.cInA
              "c"%string "d"%string "A"%string None 1000 300000
              Hc Hr Hp Ht1 Ht2) as (_ & _ & _ & _ & _ & Hd).
  exact Hd.
Defined.

Section PresenceFrame.

Context {Payload : Type}.
Implicit Types (m : RoomManager Payload).

(** C10. When a connection c that room A lists joins another room B, room A
    is not touched: it still lists c (also through [getRoomUsers]), while the
    reverse index now sends c to B. The [removeUser] that follows leaves
    every room other than B as it was, so c stays listed in A; it takes c
    out of B (for a B that is not the empty string, which [removeUser]
    treats as no room). *)
Theorem C10_join_elsewhere_keeps_stale_presence now (a b c : string) ud m
    (roomA : Room Payload) (uA : User) :
  a <> b ->
  rooms m !! a = Some roomA ->
  JsMap.get c (users roomA) = Some uA ->
  let m1 := snd (addUserToRoom now b c ud m) in
  let m2 := snd (fst (removeUser c m1)) in
  rooms m1 !! a = Some roomA
  /\ uA ∈ getRoomUsers a m1
  /\ getRoomUsers a m1 = getRoomUsers a m
  /\ userRooms m1 !! c = Some b
  /\ rooms m2 !! a = Some roomA
  /\ uA ∈ getRoomUsers a m2
  /\ (forall r : string, r <> b -> rooms m2 !! r = rooms m1 !! r)
  /\ (b <> ""%string -> (c ∉ present b m2) /\ userRooms m2 !! c = None).
Proof.
  intros Hab Ha Hget. cbv zeta.
  assert (uA ∈ JsMap.values (users roomA)) as HuA by by eapply get_values.
  set (m1 := snd (addUserToRoom now b c ud m)).
  assert (exists roomB,
             rooms m1 = <[b := roomB]> (rooms m)
             /\ userRooms m1 = <[c := b]> (userRooms m)) as (roomB & Hrooms & Hidx).
  { subst m1. unfold addUserToRoom, getOrCreateRoom.
    destruct (rooms m !! b) as [room|]; simpl.
    - by eexists.
    - eexists. split; [|done]. by rewrite insert_insert_eq. }
  assert (rooms m1 !! a = Some roomA) as Ha1
    by (rewrite Hrooms, lookup_insert_ne; done).
  assert (forall r : string, r <> b ->
            rooms (snd (fst (removeUser c m1))) !! r = rooms m1 !! r) as Hframe.
  { intros r Hr. unfold removeUser. rewrite Hidx, lookup_insert_eq.
    destruct (decide (b = ""%string)); [done|].
    rewrite Hrooms, lookup_insert_eq. simpl.
    by rewrite lookup_insert_ne. }
  assert (rooms (snd (fst (removeUser c m1))) !! a = Some roomA) as Ha2
    by (rewrite Hframe; done).
  repeat split.
  - done.
  - unfold getRoomUsers. by rewrite Ha1.
  - unfold getRoomUsers. by rewrite Ha1, Ha.
  - by rewrite Hidx, lookup_insert_eq.
  - done.
  - unfold getRoomUsers. by rewrite Ha2.
  - done.
  - unfold removeUser, present. rewrite Hidx, lookup_insert_eq.
    destruct (decide (b = ""%string)); [done|].
    rewrite Hrooms, lookup_insert_eq. simpl. rewrite lookup_insert_eq. simpl.
    apply not_elem_keys_delete.
  - unfold removeUser. rewrite Hidx, lookup_insert_eq.
    destruct (decide (b = ""%string)); [done|].
    rewrite Hrooms, lookup_insert_eq. simpl. apply lookup_delete_eq.
Qed.

End PresenceFrame.

Lemma C10_witness :
  rooms (manager Sample.cInA) !! "A"%string = Some Sample.roomA
  /\ JsMap.get "c" (users Sample.roomA) = Some Sample.userC
  /\ Sample.userC ∈ getRoomUsers "A"
       (snd (fst (removeUser "c"
                    (snd (addUserToRoom 5 "B" "c" None
                            (manager Sample.cInA))))))
  /\ "c"%string ∉ present "B"
       (snd (fst (removeUser "c"
                    (snd (addUserToRoom 5 "B" "c" None
                            (manager Sample.cInA)))))).
Proof.
  assert (rooms (manager Sample.cInA) !! "A"%string = Some Sample.roomA)
    as Ha by (vm_compute; reflexivity).
  assert (JsMap.get "c" (users Sample.roomA) = Some Sample.userC)
    as Hget by (vm_compute; reflexivity).
  assert ("A"%string <> "B"%string) as Hab by discriminate.
  split; [exact Ha|]. split; [exact Hget|].
  destruct (C10_join_elsewhere_keeps_stale_presence 5 "A"%string "B"%string
              "c"%string None (manager Sample.cInA) Sample.roomA Sample.userC
              Hab Ha Hget) as (_ & _ & _ & _ & _ & Hstale & _ & Hgone).
  split; [exact Hstale|].
  assert ("B"%string <> ""%string) as Hb by discriminate.
  exact (proj1 (Hgone Hb)).
Defined.

(** * Where the client's replay does follow the server *)

Section ReplayFacts.

Context {Payload : Type}.
Implicit Types (m : RoomManager Payload) (a : App Payload).

Lemma mirrors_active (room : string) m a :
  mirrors room m a -> activeOps a = serverActive room m.
Proof.
  intros (r & Hr & _ & _ & Hops & Hidx).
  unfold activeOps, serverActive, getActiveOperations.
  by rewrite Hr, Hops, Hidx.
Qed.

Lemma getRoomBySocketId_found (room sender : string) m r :
  userRooms m !! sender = Some room -> room <> ""%string ->
  rooms m !! room = Some r ->
  getRoomBySocketId sender m = Js.Obj r /\ roomKey sender m = room.
Proof.
  intros Hs Hne Hr. unfold getRoomBySocketId, roomKey. rewrite Hs. simpl.
  destruct (decide (room = ""%string)); [done|]. by rewrite Hr.
Qed.

(** One request of another member, served and replayed: the copy stays
    exact for undo, redo and clear, and for a stroke submitted while the log
    has no undone entry and is below capacity. *)
Lemma replay_step_mirrors (room client sender : string) req m a m' emits :
  mirrors room m a ->
  sender <> client ->
  userRooms m !! sender = Some room -> room <> ""%string ->
  replayable room m req ->
  serve sender req m = Some (m', emits) ->
  mirrors room m'
    (fold_left receive (omap (deliveredTo client room sender) emits) a).
Proof.
  intros (r & Hr & Hid & Hwf & Hops & Hidx) Hsc Hs Hne Hreq Hserve.
  destruct (getRoomBySocketId_found room sender m r Hs Hne Hr) as [Hfound Hkey].
  pose proof Hwf as (Hmax & Hc & Hcap). pose proof Hc as [Hlo Hhi].
  destruct req as [| |e payload| | |]; simpl in Hreq; try done; simpl in Hserve.
  - (* stroke-complete *)
    destruct Hreq as (r0 & Hr0 & Htail & Hroom). rewrite Hr in Hr0.
    injection Hr0 as <-.
    unfold onStrokeCompleteRequest, logAndEcho in Hserve.
    rewrite Hfound, Hkey in Hserve.
    destruct (getUser sender m) as [| |user]; try done.
    pose proof (addOperation_well_formed e
      {| in_type := stroke; in_data := payload; in_userId := sender;
         in_userName := name user; in_userColor := color user |} (state r) Hwf)
      as Hwf'.
    rewrite addOperation_unfold in Hserve, Hwf' by done.
    rewrite Hmax in Hserve, Hwf'.
    destruct (Z.ltb_spec 1000 (currentIndex (state r) + 2)); [lia|].
    unfold appended in Hserve, Hwf'.
    replace (Z.to_nat (currentIndex (state r) + 1))
      with (length (operations (state r))) in Hserve, Hwf'
      by (unfold Js.len in *; lia).
    rewrite firstn_all in Hserve, Hwf'.
    rewrite index_last in Hserve by lia.
    injection Hserve as <- <-. simpl.
    rewrite Hid. destruct (decide (room = room)); [|done].
    destruct (decide (client = sender)); [congruence|]. simpl.
    eexists. split; [apply lookup_insert_eq|]. simpl.
    split; [done|]. split; [exact Hwf'|].
    unfold Js.push. by rewrite Hops, Hidx.
  - (* undo *)
    unfold onUndoRequest in Hserve. rewrite Hfound, Hkey in Hserve.
    pose proof (undo_well_formed (state r) Hwf) as Hwf'.
    unfold undo in Hserve, Hwf'.
    destruct (Z.leb_spec 0 (currentIndex (state r))) as [Hge|Hlt].
    + destruct (index_in_range (operations (state r)) (currentIndex (state r)))
        as (o & _ & Hi); [lia|].
      rewrite Hi in Hserve. injection Hserve as <- <-. simpl.
      rewrite Hid. destruct (decide (room = room)); [|done]. simpl.
      unfold onUndo. rewrite Hidx.
      destruct (Z.leb_spec 0 (currentIndex (state r))); [|lia].
      eexists. split; [apply lookup_insert_eq|]. simpl. by rewrite Hops.
    + injection Hserve as <- <-. simpl.
      eexists. split; [apply lookup_insert_eq|]. done.
  - (* redo *)
    unfold onRedoRequest in Hserve. rewrite Hfound, Hkey in Hserve.
    pose proof (redo_well_formed (state r) Hwf) as Hwf'.
    unfold redo in Hserve, Hwf'.
    destruct (Z.ltb_spec (currentIndex (state r))
                (Js.len (operations (state r)) - 1)) as [Hlt|Hge].
    + destruct (index_in_range (operations (state r))
                  (currentIndex (state r) + 1)) as (o & _ & Hi); [lia|].
      rewrite Hi in Hserve. injection Hserve as <- <-. simpl.
      rewrite Hid. destruct (decide (room = room)); [|done]. simpl.
      unfold onRedo. rewrite Hidx, Hops.
      destruct (Z.ltb_spec (currentIndex (state r))
                  (Js.len (operations (state r)) - 1)); [|lia].
      eexists. split; [apply lookup_insert_eq|]. done.
    + injection Hserve as <- <-. simpl.
      eexists. split; [apply lookup_insert_eq|]. done.
  - (* clear-canvas *)
    unfold onClearCanvasRequest in Hserve. rewrite Hfound, Hkey in Hserve.
    injection Hserve as <- <-. simpl.
    rewrite Hid. destruct (decide (room = room)); [|done]. simpl.
    eexists. split; [apply lookup_insert_eq|]. simpl.
    split; [done|]. split; [by apply clear_well_formed|done].
Qed.

(** After such a step the client redraws exactly the server's active
    slice. *)
Corollary replay_step_active (room client sender : string) req m a m' emits :
  mirrors room m a ->
  sender <> client ->
  userRooms m !! sender = Some room -> room <> ""%string ->
  replayable room m req ->
  serve sender req m = Some (m', emits) ->
  activeOps (fold_left receive (omap (deliveredTo client room sender) emits) a)
  = serverActive room m'.
Proof. intros. by eapply mirrors_active, replay_step_mirrors. Qed.

End ReplayFacts.

(** C6, evaluated where it fails. Room "r1" holds S1 and S2 when the
    observer c joins and receives the snapshot. After an undo and the
    submission of S3 the server's active slice is S1, S3 ([addOperation]
    dropped the undone S2), while c, whose [onStrokeComplete] pushes without
    truncating, holds S1, S2, S3 with cursor 1 and redraws S1, S2. In the
    second run c joins while S2 is undone: the snapshot carries the active
    slice only, so the redo that follows finds nothing to redo on c, which
    keeps S1 while the server shows S1, S2. *)
Theorem C6_client_replay_diverges :
  replayed "c" "r1" Sample.undoThenStroke
    = Some (["S1"; "S3"]%string, ["S1"; "S2"]%string)
  /\ replayed "c" "r1" Sample.redoAfterJoin
    = Some (["S1"; "S2"]%string, ["S1"]%string).
Proof. split; vm_compute; reflexivity. Qed.

(** * Further properties of the operation log *)

Section DrawingStateMore.

Context {Payload : Type}.
Implicit Types (s : DrawingState Payload).

Lemma run_snoc (calls : list (Call Payload)) (c : Call Payload) :
  run (calls ++ [c]) = exec (run calls) c.
Proof. unfold run. by rewrite fold_left_app. Qed.

Lemma active_take s :
  cursor_ok s ->
  getActiveOperations s = take (Z.to_nat (currentIndex s + 1)) (operations s).
Proof. intros [Hlo _]. unfold getActiveOperations. apply slice0_take. lia. Qed.

Lemma len_active s :
  cursor_ok s -> Js.len (getActiveOperations s) = currentIndex s + 1.
Proof.
  intros Hc. rewrite active_take by done. destruct Hc as [Hlo Hhi].
  unfold Js.len in *. rewrite length_take. lia.
Qed.

(** The state after [addOperation] on a well-formed log: the array is the
    active slice plus the new entry, less the oldest entry when that makes
    1001; the cursor is on the tail. *)
Lemma addOperation_state e (operation : OperationInput Payload) s :
  well_formed s ->
  let pushed := getActiveOperations s ++ [stamp e operation] in
  let kept := if 1000 <? Js.len pushed then drop 1 pushed else pushed in
  snd (addOperation e operation s)
  = {| operations := kept; maxHistorySize := 1000;
       currentIndex := Js.len kept - 1 |}
  /\ fst (addOperation e operation s) = Js.index kept (Js.len kept - 1)
  /\ 1 <= Js.len kept.
Proof.
  intros (Hmax & Hc & Hcap). cbv zeta.
  pose proof (len_appended e operation s Hc) as Hlen.
  rewrite active_take by done. fold (appended e operation s).
  rewrite addOperation_unfold by done. rewrite Hmax, Hlen.
  destruct Hc as [Hlo Hhi].
  destruct (Z.ltb_spec 1000 (currentIndex s + 2)); simpl.
  - assert (Js.len (drop 1 (appended e operation s)) = currentIndex s + 1)
      as -> by (unfold Js.len in *; rewrite length_drop; lia).
    replace (currentIndex s + 1 - 1) with (currentIndex s) by lia.
    split; [done|]. split; [done|lia].
  - rewrite Hlen. replace (currentIndex s + 2 - 1) with (currentIndex s + 1) by lia.
    split; [done|]. split; [done|lia].
Qed.

(** X1. The snapshot sent to a joining client holds exactly the first
    [currentIndex + 1] entries of the log (the undone entries are left out),
    and its cursor is the index of its last entry. *)
Theorem X1_snapshot_is_active_prefix (calls : list (Call Payload)) :
  let s := run calls in
  snap_operations (getState s)
    = take (Z.to_nat (currentIndex s + 1)) (operations s)
  /\ snap_operations (getState s) `prefix_of` operations s
  /\ snap_currentIndex (getState s) = Js.len (snap_operations (getState s)) - 1.
Proof.
  cbv zeta. destruct (run_well_formed calls) as (_ & Hc & _).
  unfold getState. simpl. rewrite len_active by done.
  rewrite active_take by done.
  split; [done|]. split; [apply prefix_take | lia].
Qed.

(** X2. New work discards the redo history: right after an [addOperation],
    on any reachable log, [redo()] returns [null] and changes nothing. *)
Theorem X2_append_leaves_nothing_to_redo (calls : list (Call Payload))
    (e : Entropy) (operation : OperationInput Payload) :
  let s' := snd (addOperation e operation (run calls)) in
  redo s' = (Js.Null, s').
Proof.
  cbv zeta.
  destruct (addOperation_state e operation (run calls) (run_well_formed calls))
    as (Hs & _ & _).
  rewrite Hs. unfold redo. simpl.
  by rewrite Z.ltb_irrefl.
Qed.

(** X3. An [undo()] right after an [addOperation] returns the operation
    just stored and brings the active slice back to what it was before the
    append, except that the oldest entry is gone when the append overflowed
    the capacity. *)
Theorem X3_undo_after_append (calls : list (Call Payload))
    (e : Entropy) (operation : OperationInput Payload) :
  let s := run calls in
  let s1 := snd (addOperation e operation s) in
  fst (undo s1) = Js.Obj (stamp e operation)
  /\ getActiveOperations (snd (undo s1))
     = if Js.len (getActiveOperations s) <? 1000
       then getActiveOperations s
       else drop 1 (getActiveOperations s).
Proof.
  cbv zeta. pose proof (run_well_formed calls) as Hwf.
  destruct (addOperation_state e operation (run calls) Hwf) as (Hs & _ & Hpos).
  cbv zeta in Hs, Hpos. rewrite Hs. clear Hs.
  destruct Hwf as (Hmax & Hc & Hcap).
  pose proof (len_active _ Hc) as Hact.
  set (act := getActiveOperations (run calls)) in *.
  assert (Js.len (act ++ [stamp e operation]) = Js.len act + 1) as Hlen
    by (rewrite len_app; unfold Js.len; simpl; lia).
  rewrite Hlen in *.
  unfold undo. simpl.
  destruct (Z.ltb_spec 1000 (Js.len act + 1)) as [Hov|Hfit].
  - assert (drop 1 (act ++ [stamp e operation])
            = drop 1 act ++ [stamp e operation]) as Hdrop.
    { rewrite drop_app_le; [done|]. unfold Js.len in *. lia. }
    rewrite Hdrop in *.
    assert (Js.len (drop 1 act ++ [stamp e operation]) - 1 = Js.len (drop 1 act))
      as -> by (rewrite len_app; unfold Js.len; simpl; lia).
    destruct (Z.leb_spec 0 (Js.len (drop 1 act))) as [_|Hneg];
      [|unfold Js.len in Hneg; lia].
    simpl. split; [by apply index_last|].
    unfold getActiveOperations. simpl.
    replace (Js.len (drop 1 act) - 1 + 1) with (Js.len (drop 1 act)) by lia.
    rewrite slice0_take by (unfold Js.len; lia).
    unfold Js.len at 1. rewrite Nat2Z.id, take_app_length.
    by destruct (Z.ltb_spec (Js.len act) 1000); [lia|].
  - rewrite Hlen.
    replace (Js.len act + 1 - 1) with (Js.len act) by lia.
    destruct (Z.leb_spec 0 (Js.len act)) as [_|Hneg];
      [|unfold Js.len in Hneg; lia].
    simpl. split; [by apply index_last|].
    unfold getActiveOperations. simpl.
    replace (Js.len act - 1 + 1) with (Js.len act) by lia.
    rewrite slice0_take by (unfold Js.len; lia).
    unfold Js.len at 1. rewrite Nat2Z.id, take_app_length.
    by destruct (Z.ltb_spec (Js.len act) 1000); [|lia].
Qed.

(** X4. On a log whose cursor is in range and that has an undone entry
    ([currentIndex < length-1]), [redo()] followed by [undo()] restores the
    state, and [undo()] returns the operation [redo()] returned. *)
Theorem X4_redo_then_undo_restores s :
  cursor_ok s -> currentIndex s < Js.len (operations s) - 1 ->
  snd (undo (snd (redo s))) = s
  /\ fst (undo (snd (redo s))) = fst (redo s).
Proof.
  intros [Hlo Hhi] Hlt. unfold redo.
  destruct (Z.ltb_spec (currentIndex s) (Js.len (operations s) - 1)); [|lia].
  unfold undo; simpl.
  destruct (Z.leb_spec 0 (currentIndex s + 1)); [|lia].
  simpl. replace (currentIndex s + 1 - 1) with (currentIndex s) by lia.
  by destruct s.
Qed.

End DrawingStateMore.

Lemma X4_witness :
  cursor_ok Sample.undoneOnce
  /\ currentIndex Sample.undoneOnce < Js.len (operations Sample.undoneOnce) - 1
  /\ snd (undo (snd (redo Sample.undoneOnce))) = Sample.undoneOnce.
Proof.
  assert (cursor_ok Sample.undoneOnce) as Hc by (unfold cursor_ok; evaluated).
  assert (currentIndex Sample.undoneOnce
          < Js.len (operations Sample.undoneOnce) - 1) as Hlt by evaluated.
  split; [exact Hc|]. split; [exact Hlt|].
  exact (proj1 (X4_redo_then_undo_restores Sample.undoneOnce Hc Hlt)).
Defined.

Section RepeatedFacts.

Context {Payload : Type}.
Implicit Types (s : DrawingState Payload).

Lemma undoTimes_S n s : undoTimes (S n) s = undoTimes n (snd (undo s)).
Proof.
  unfold undoTimes. induction n as [|n IH]; [done|].
  simpl in *. by rewrite IH.
Qed.

Lemma redoTimes_S n s : redoTimes (S n) s = snd (redo (redoTimes n s)).
Proof. done. Qed.

Lemma undoTimes_cursor n : forall s,
  cursor_ok s ->
  undoTimes n s
  = {| operations := operations s; maxHistorySize := maxHistorySize s;
       currentIndex := Z.max (-1) (currentIndex s - Z.of_nat n) |}.
Proof.
  induction n as [|n IH]; intros s [Hlo Hhi].
  - unfold undoTimes. simpl. destruct s; simpl in *. f_equal. lia.
  - rewrite undoTimes_S. unfold undo.
    destruct (Z.leb_spec 0 (currentIndex s)).
    + rewrite IH by (unfold cursor_ok; simpl; lia). simpl. f_equal. lia.
    + simpl. rewrite IH by done. f_equal. lia.
Qed.

(** X5. [n] undos move the cursor down by [n], stopping at -1, and never
    touch the stored operations; as long as [n] does not exceed the number
    of active entries, [n] redos after them restore the state. *)
Theorem X5_undo_n_then_redo_n (n : nat) s :
  cursor_ok s ->
  currentIndex (undoTimes n s) = Z.max (-1) (currentIndex s - Z.of_nat n)
  /\ operations (undoTimes n s) = operations s
  /\ (Z.of_nat n <= currentIndex s + 1 -> redoTimes n (undoTimes n s) = s).
Proof.
  intros Hc. rewrite undoTimes_cursor by done. simpl.
  split; [done|]. split; [done|]. intros Hn.
  destruct Hc as [Hlo Hhi].
  assert (forall k : nat, (k <= n)%nat ->
            redoTimes k {| operations := operations s;
                           maxHistorySize := maxHistorySize s;
                           currentIndex := Z.max (-1) (currentIndex s - Z.of_nat n) |}
            = {| operations := operations s;
                 maxHistorySize := maxHistorySize s;
                 currentIndex := currentIndex s - Z.of_nat n + Z.of_nat k |})
    as Hredo.
  { induction k as [|k IH]; intros Hk.
    - unfold redoTimes. simpl. f_equal. lia.
    - rewrite redoTimes_S, IH by lia. unfold redo. simpl.
      destruct (Z.ltb_spec (currentIndex s - Z.of_nat n + Z.of_nat k)
                  (Js.len (operations s) - 1)); [|lia].
      simpl. f_equal. lia. }
  rewrite Hredo by lia. destruct s; simpl. f_equal. lia.
Qed.

Lemma run_submissions_snoc (l : list (Entropy * OperationInput Payload)) p :
  run (submissions (l ++ [p]))
  = snd (addOperation (fst p) (snd p) (run (submissions l))).
Proof. unfold submissions. rewrite map_app. simpl. by rewrite run_snoc. Qed.

(** X6. With submissions only (no undo, redo or clear), the log holds the
    operations submitted, in order, and once more than 1000 were submitted
    exactly the last 1000 of them; the cursor is on the newest. *)
Theorem X6_log_keeps_the_last_thousand
    (l : list (Entropy * OperationInput Payload)) :
  operations (run (submissions l)) = drop (length l - 1000) (stamped l)
  /\ currentIndex (run (submissions l)) = Z.min (Js.len l) 1000 - 1.
Proof.
  induction l as [|p l IH] using rev_ind; [done|].
  destruct IH as [IHops IHidx].
  pose proof (run_well_formed (submissions l)) as Hwf.
  rewrite run_submissions_snoc.
  destruct (addOperation_state (fst p) (snd p) _ Hwf) as (Hs & _ & _).
  cbv zeta in Hs. rewrite Hs. clear Hs. simpl.
  destruct Hwf as (_ & Hc & _).
  assert (getActiveOperations (run (submissions l))
          = drop (length l - 1000) (stamped l)) as Hact.
  { rewrite active_take by done. rewrite IHops, IHidx.
    apply take_ge. rewrite length_drop. unfold stamped, Js.len.
    rewrite length_map. lia. }
  rewrite Hact.
  assert (length (stamped l) = length l) as Hsl
    by (unfold stamped; by rewrite length_map).
  assert (stamped (l ++ [p]) = stamped l ++ [stamp (fst p) (snd p)]) as ->
    by (unfold stamped; by rewrite map_app).
  assert (Js.len (drop (length l - 1000) (stamped l) ++ [stamp (fst p) (snd p)])
          = Z.min (Js.len l) 1000 + 1) as Hlen.
  { rewrite len_app. unfold Js.len. rewrite length_drop, Hsl. simpl. lia. }
  rewrite Hlen. rewrite length_app. simpl.
  destruct (Z.ltb_spec 1000 (Z.min (Js.len l) 1000 + 1)) as [Hov|Hfit].
  - assert (1000 <= length l)%nat as Hbig by (unfold Js.len in Hov; lia).
    split.
    + rewrite drop_app_le by (rewrite length_drop, Hsl; lia).
      rewrite drop_drop. rewrite drop_app_le by lia.
      do 2 f_equal. lia.
    + rewrite len_app. unfold Js.len in *. rewrite length_drop, length_app.
      rewrite length_drop, Hsl. simpl. lia.
  - assert (length l < 1000)%nat as Hsmall by (unfold Js.len in Hfit; lia).
    split.
    + replace (length l + 1 - 1000)%nat with 0%nat by lia.
      replace (length l - 1000)%nat with 0%nat by lia. done.
    + rewrite Hlen. rewrite len_app. unfold Js.len in *. simpl. lia.
Qed.

End RepeatedFacts.

Lemma X5_witness :
  cursor_ok (run Sample.saturating)
  /\ Z.of_nat 7 <= currentIndex (run Sample.saturating) + 1
  /\ redoTimes 7 (undoTimes 7 (run Sample.saturating)) = run Sample.saturating.
Proof.
  assert (cursor_ok (run Sample.saturating)) as Hc
    by (unfold cursor_ok; evaluated).
  assert (Z.of_nat 7 <= currentIndex (run Sample.saturating) + 1) as Hn
    by evaluated.
  split; [exact Hc|]. split; [exact Hn|].
  exact (proj2 (proj2 (X5_undo_n_then_redo_n 7 (run Sample.saturating) Hc)) Hn).
Defined.

(** * Further properties of the rooms *)

Section JsMapMore.

Context {V : Type}.
Implicit Types (m : JsMap.t V) (k : string) (v : V).

Lemma get_set_eq k v m : JsMap.get k (JsMap.set k v m) = Some v.
Proof.
  induction m as [|[k' v'] m IH]; simpl.
  - by destruct (decide (k = k)).
  - destruct (decide (k' = k)) as [->|Hne]; simpl.
    + by destruct (decide (k = k)).
    + by destruct (decide (k' = k)).
Qed.

Lemma get_set_ne k k' v m :
  k' <> k -> JsMap.get k' (JsMap.set k v m) = JsMap.get k' m.
Proof.
  intros Hne. induction m as [|[k0 v0] m IH]; simpl.
  - by destruct (decide (k = k')) as [->|].
  - destruct (decide (k0 = k)) as [->|Hk]; simpl.
    + destruct (decide (k = k')) as [->|]; [done|]. done.
    + by rewrite IH.
Qed.

Lemma keys_set_present k v m :
  k ∈ JsMap.keys m -> JsMap.keys (JsMap.set k v m) = JsMap.keys m.
Proof.
  induction m as [|[k' v'] m IH]; simpl; [by intros ?%elem_of_nil|].
  destruct (decide (k' = k)) as [->|Hne]; [done|].
  intros [?|Hin]%elem_of_cons; [congruence|]. simpl. by rewrite IH.
Qed.

Lemma delete_fresh k m : k ∉ JsMap.keys m -> JsMap.delete k m = m.
Proof.
  induction m as [|[k' v'] m IH]; simpl; [done|].
  intros [Hne Hk]%not_elem_of_cons.
  destruct (decide (k' = k)); [congruence|]. by rewrite IH.
Qed.

Lemma delete_set_fresh k v m :
  k ∉ JsMap.keys m -> JsMap.delete k (JsMap.set k v m) = m.
Proof.
  induction m as [|[k' v'] m IH]; simpl.
  - by destruct (decide (k = k)).
  - intros [Hne Hk]%not_elem_of_cons.
    destruct (decide (k' = k)); [congruence|]. simpl.
    destruct (decide (k' = k)); [congruence|]. by rewrite IH.
Qed.

Lemma keys_delete k m :
  JsMap.keys (JsMap.delete k m) = filter (fun k' => k' <> k) (JsMap.keys m).
Proof.
  induction m as [|[k' v'] m IH]; simpl; [done|].
  destruct (decide (k' = k)) as [->|Hne].
  - rewrite filter_cons_False by (intros H; by apply H). done.
  - rewrite filter_cons_True by done. simpl. by rewrite IH.
Qed.

Lemma get_delete_ne k k' m :
  k' <> k -> JsMap.get k' (JsMap.delete k m) = JsMap.get k' m.
Proof.
  intros Hne. induction m as [|[k0 v0] m IH]; simpl; [done|].
  destruct (decide (k0 = k)) as [->|Hk]; simpl.
  - destruct (decide (k = k')); [congruence|done].
  - by rewrite IH.
Qed.

Lemma get_keys k m : is_Some (JsMap.get k m) <-> k ∈ JsMap.keys m.
Proof.
  induction m as [|[k' v'] m IH]; simpl.
  - split; [by intros [? ?]|by intros ?%elem_of_nil].
  - destruct (decide (k' = k)) as [->|Hne].
    + split; [intros _; apply list_elem_of_here|by eexists].
    + rewrite IH. split; [apply list_elem_of_further|].
      intros [?|?]%elem_of_cons; [congruence|done].
Qed.

Lemma keys_set_elem k k' v m :
  k' ∈ JsMap.keys m -> k' ∈ JsMap.keys (JsMap.set k v m).
Proof.
  intros Hin. destruct (decide (k ∈ JsMap.keys m)).
  - by rewrite keys_set_present.
  - rewrite keys_set_fresh by done. apply elem_of_app. by left.
Qed.

Lemma NoDup_keys_set k v m :
  NoDup (JsMap.keys m) -> NoDup (JsMap.keys (JsMap.set k v m)).
Proof.
  intros Hnd. destruct (decide (k ∈ JsMap.keys m)).
  - by rewrite keys_set_present.
  - rewrite keys_set_fresh by done. apply NoDup_app. split; [done|].
    split; [|apply NoDup_singleton].
    intros x Hx ->%list_elem_of_singleton. done.
Qed.

Lemma NoDup_keys_delete k m :
  NoDup (JsMap.keys m) -> NoDup (JsMap.keys (JsMap.delete k m)).
Proof. intros Hnd. rewrite keys_delete. by apply NoDup_filter. Qed.

End JsMapMore.
Section RoomManagerMore.

Context {Payload : Type}.
Implicit Types (m : RoomManager Payload).

(** X7. [getOrCreateRoom] is idempotent: a second call returns the same room
    and changes nothing. The call never touches another room or the reverse
    index, and a room it creates is empty: no users, an empty log with the
    cursor at -1. *)
Theorem X7_getOrCreateRoom_idempotent now now' (r : string) m :
  let created := getOrCreateRoom now r m in
  getOrCreateRoom now' r (snd created) = created
  /\ rooms (snd created) !! r = Some (fst created)
  /\ userRooms (snd created) = userRooms m
  /\ (forall r' : string, r' <> r -> rooms (snd created) !! r' = rooms m !! r')
  /\ (rooms m !! r = None ->
      fst created = {| room_id := r; state := newDrawingState;
                       users := []; createdAt := now |}).
Proof.
  cbv zeta. unfold getOrCreateRoom.
  destruct (rooms m !! r) as [room|] eqn:Hr; simpl.
  - rewrite Hr. done.
  - rewrite lookup_insert_eq. repeat split; try done.
    intros r' Hne. by rewrite lookup_insert_ne.
Qed.

Lemma addUserToRoom_rooms now (r c : string) ud m :
  exists room,
    rooms (snd (addUserToRoom now r c ud m))
    = <[r := {| room_id := room_id room; state := state room;
                users := JsMap.set c (fst (addUserToRoom now r c ud m))
                           (users room);
                createdAt := createdAt room |}]> (rooms m)
    /\ userRooms (snd (addUserToRoom now r c ud m)) = <[c := r]> (userRooms m)
    /\ present r m = JsMap.keys (users room)
    /\ match rooms m !! r with
       | Some room0 => room = room0
       | None => room = {| room_id := r; state := newDrawingState;
                           users := []; createdAt := now |}
       end.
Proof.
  unfold addUserToRoom, getOrCreateRoom, present.
  destruct (rooms m !! r) as [room|]; simpl.
  - by exists room.
  - exists {| room_id := r; state := newDrawingState; users := [];
              createdAt := now |}.
    simpl. by rewrite insert_insert_eq.
Qed.

(** X8. Round trip of a join into a room whose id is not the empty string:
    afterwards [getUser] returns the user record the join returned,
    [getRoomBySocketId] returns the room stored under that id, that room
    lists the record under the connection id, and [getRoomUsers] contains
    it. *)
Theorem X8_join_then_lookup now (r c : string) ud m :
  r <> ""%string ->
  let joined := addUserToRoom now r c ud m in
  getUser c (snd joined) = Js.Obj (fst joined)
  /\ (exists room,
        getRoomBySocketId c (snd joined) = Js.Obj room
        /\ rooms (snd joined) !! r = Some room
        /\ JsMap.get c (users room) = Some (fst joined))
  /\ fst joined ∈ getRoomUsers r (snd joined)
  /\ user_id (fst joined) = c.
Proof.
  intros Hr. cbv zeta.
  destruct (addUserToRoom_rooms now r c ud m) as (room & Hrooms & Hidx & _ & _).
  unfold getUser, getRoomBySocketId, getRoomUsers.
  rewrite Hidx, lookup_insert_eq.
  destruct (decide (r = ""%string)); [done|].
  rewrite Hrooms, lookup_insert_eq. simpl. rewrite get_set_eq.
  split; [done|]. split.
  - eexists. split; [done|]. split; [done|]. simpl. apply get_set_eq.
  - split; [|by unfold addUserToRoom; destruct (getOrCreateRoom now r m)].
    eapply get_values. apply get_set_eq.
Qed.

(** X9. The empty string as a room id: [addUserToRoom] accepts it and lists
    the connection in that room, but [!roomId] treats the id as absent, so
    [getRoomBySocketId] and [getUser] return [null] and [removeUser] returns
    [null] and removes nothing. *)
Theorem X9_empty_room_id_is_never_found now (c : string) ud m :
  let m1 := snd (addUserToRoom now "" c ud m) in
  (c ∈ present "" m1)
  /\ getRoomBySocketId c m1 = Js.Null
  /\ getUser c m1 = Js.Null
  /\ removeUser c m1 = (Js.Null, m1, []).
Proof.
  cbv zeta.
  destruct (addUserToRoom_rooms now "" c ud m) as (room & Hrooms & Hidx & _ & _).
  unfold getUser, getRoomBySocketId, removeUser, present.
  rewrite Hidx, lookup_insert_eq, Hrooms, lookup_insert_eq. simpl.
  split; [apply elem_keys_set|done].
Qed.

(** X10. [removeUser] and [getRoomBySocketId] agree: when the latter finds
    no room, [removeUser] returns [null], changes nothing and registers no
    timer; when it finds one, [removeUser] returns that room without the
    connection, stores it under the same id, and the reverse index forgets
    the connection, so that a second [removeUser] is a no-op. *)
Theorem X10_removeUser_follows_the_reverse_index (c : string) m :
  match getRoomBySocketId c m with
  | Js.Obj room =>
      exists (r : string) room' m' timeouts,
        removeUser c m = (Js.Obj room', m', timeouts)
        /\ userRooms m !! c = Some r
        /\ room' = {| room_id := room_id room; state := state room;
                      users := JsMap.delete c (users room);
                      createdAt := createdAt room |}
        /\ rooms m' = <[r := room']> (rooms m)
        /\ userRooms m' = delete c (userRooms m)
        /\ (c ∉ JsMap.keys (users room'))
        /\ removeUser c m' = (Js.Null, m', [])
  | _ => removeUser c m = (Js.Null, m, [])
  end.
Proof.
  unfold getRoomBySocketId, removeUser.
  destruct (userRooms m !! c) as [r|] eqn:Hc; [|done].
  destruct (decide (r = ""%string)); [done|].
  destruct (rooms m !! r) as [room|] eqn:Hr; [|done].
  eexists r, _, _, _. split; [done|]. split; [done|]. split; [done|].
  split; [done|]. split; [done|]. split; [apply not_elem_keys_delete|].
  simpl. by rewrite lookup_delete_eq.
Qed.

(** X11. A connection that joins a room (id not the empty string) which
    does not list it, and then leaves, restores the room's presence list;
    the room stays in the map, every other room is as before, and the
    reverse index no longer knows the connection. *)
Theorem X11_join_then_leave_restores_presence now (r c : string) ud m :
  r <> ""%string ->
  c ∉ present r m ->
  let m2 := snd (fst (removeUser c (snd (addUserToRoom now r c ud m)))) in
  present r m2 = present r m
  /\ getRoomUsers r m2 = getRoomUsers r m
  /\ is_Some (rooms m2 !! r)
  /\ (forall r' : string, r' <> r -> rooms m2 !! r' = rooms m !! r')
  /\ userRooms m2 = delete c (userRooms m).
Proof.
  intros Hr Hfresh. cbv zeta.
  destruct (addUserToRoom_rooms now r c ud m)
    as (room & Hrooms & Hidx & Hpresent & Hroom).
  rewrite Hpresent in Hfresh.
  unfold removeUser. rewrite Hidx, lookup_insert_eq.
  destruct (decide (r = ""%string)); [done|].
  rewrite Hrooms, lookup_insert_eq. simpl.
  rewrite delete_set_fresh by done.
  unfold present, getRoomUsers. simpl. rewrite lookup_insert_eq. simpl.
  split; [by destruct (rooms m !! r); subst|].
  split; [by destruct (rooms m !! r); subst|].
  split; [by eexists|]. split.
  - intros r' Hne. by rewrite !lookup_insert_ne.
  - apply delete_insert_eq.
Qed.

Lemma palette_index (n : Z) :
  0 <= n -> exists col, Js.index userColors (n `mod` 12) = Js.Obj col
                        /\ col ∈ userColors.
Proof.
  intros Hn.
  destruct (index_in_range userColors (n `mod` 12)) as (col & Hl & Hi).
  { pose proof (Z.mod_pos_bound n 12). unfold Js.len; simpl; lia. }
  exists col. split; [done|]. by eapply list_elem_of_lookup_2.
Qed.

(** X12. The record a join creates: its id is the connection id, its colour
    is an entry of the palette (never [undefined]), and its name is the
    requested one when that is present and not empty, otherwise "User N"
    with N one more than the number of connections the room listed, so the
    name is never empty. *)
Theorem X12_user_record_of_a_join now (r c : string) ud m :
  let u := fst (addUserToRoom now r c ud m) in
  user_id u = c
  /\ joinedAt u = now
  /\ (exists col, color u = Js.Obj col /\ col ∈ userColors)
  /\ name u <> ""%string
  /\ name u = match ud with
              | Some n =>
                  if decide (n = ""%string)
                  then "User " +:+ pretty (Js.len (present r m) + 1)
                  else n
              | None => "User " +:+ pretty (Js.len (present r m) + 1)
              end.
Proof.
  cbv zeta. pose proof (addUserToRoom_color now r c ud m) as Hcol.
  unfold addUserToRoom, getOrCreateRoom, present in *.
  destruct (rooms m !! r) as [room|]; simpl in *.
  - split; [done|]. split; [done|]. split.
    { rewrite Hcol. apply palette_index. lia. }
    rewrite size_keys. unfold displayName, Js.len.
    destruct ud as [n|]; [destruct (decide (n = ""%string))|]; done.
  - split; [done|]. split; [done|]. split.
    { exists "#FF6B6B"%string. split; [done|]. apply list_elem_of_here. }
    unfold displayName.
    destruct ud as [n|]; [destruct (decide (n = ""%string))|]; done.
Qed.

End RoomManagerMore.

Lemma X7_witness :
  rooms (@newRoomManager string) !! "r1"%string = None
  /\ fst (getOrCreateRoom 5 "r1" (@newRoomManager string))
     = {| room_id := "r1"; state := newDrawingState; users := [];
          createdAt := 5 |}.
Proof.
  assert (rooms (@newRoomManager string) !! "r1"%string = None) as Hnone
    by (vm_compute; reflexivity).
  split; [exact Hnone|].
  destruct (X7_getOrCreateRoom_idempotent 5 6 "r1"%string (@newRoomManager string))
    as (_ & _ & _ & _ & Hfresh).
  exact (Hfresh Hnone).
Defined.

Lemma X8_witness :
  "r1"%string <> ""%string
  /\ getUser "c" (snd (addUserToRoom 30 "r1" "c" None Cases.twoInR1))
     = Js.Obj (fst (addUserToRoom 30 "r1" "c" None Cases.twoInR1)).
Proof.
  assert ("r1"%string <> ""%string) as Hr by discriminate.
  split; [exact Hr|].
  exact (proj1 (X8_join_then_lookup 30 "r1"%string "c"%string None
                  Cases.twoInR1 Hr)).
Defined.

Lemma X11_witness :
  "r1"%string <> ""%string
  /\ ("c"%string ∉ present "r1" Cases.twoInR1)
  /\ present "r1"
       (snd (fst (removeUser "c"
                    (snd (addUserToRoom 30 "r1" "c" None Cases.twoInR1)))))
     = present "r1" Cases.twoInR1.
Proof.
  assert ("r1"%string <> ""%string) as Hr by discriminate.
  assert ("c"%string ∉ present "r1" Cases.twoInR1) as Hfresh.
  { apply (bool_decide_unpack _). vm_compute. exact I. }
  split; [exact Hr|]. split; [exact Hfresh|].
  exact (proj1 (X11_join_then_leave_restores_presence 30 "r1"%string
                  "c"%string None Cases.twoInR1 Hr Hfresh)).
Defined.

(** * The server as a whole *)

Section ServerFacts.

Context {Payload PathData Coord : Type}.
Implicit Types (m : RoomManager Payload) (w : World Payload).
Implicit Types (ev : ServerEvent Payload PathData Coord).

Lemma consistent_new : consistent (@newRoomManager Payload).
Proof. split; intros ? ?; simpl; by rewrite lookup_empty. Qed.

Lemma addUserToRoom_record now (r c : string) ud m :
  user_id (fst (addUserToRoom now r c ud m)) = c
  /\ exists col, color (fst (addUserToRoom now r c ud m)) = Js.Obj col
                 /\ col ∈ userColors.
Proof.
  split; [by unfold addUserToRoom; destruct (getOrCreateRoom now r m)|].
  rewrite addUserToRoom_color. apply palette_index. lia.
Qed.

Lemma addUserToRoom_consistent now (r c : string) ud m :
  r <> ""%string -> consistent m ->
  consistent (snd (addUserToRoom now r c ud m)).
Proof.
  intros Hr [Hrooms Hidx].
  destruct (addUserToRoom_rooms now r c ud m) as (room & Hrs & Hix & _ & Hroom).
  destruct (addUserToRoom_record now r c ud m) as (Hid & Hcol).
  unfold consistent. rewrite Hrs, Hix. clear Hrs Hix.
  set (u := fst (addUserToRoom now r c ud m)) in *.
  assert (room_ok r room) as (Hrid & Hwf & Hnd & Hrec).
  { destruct (rooms m !! r) as [room0|] eqn:Hr0; subst room.
    - by apply Hrooms.
    - split; [done|]. split; [apply new_well_formed|].
      split; [apply NoDup_nil_2|]. done. }
  split.
  - intros r' room'. destruct (decide (r = r')) as [<-|Hne].
    + rewrite lookup_insert_eq. intros [= <-]. unfold room_ok. simpl.
      split; [done|]. split; [done|]. split; [by apply NoDup_keys_set|].
      intros k v. destruct (decide (k = c)) as [->|Hk].
      * rewrite get_set_eq. by intros [= <-].
      * rewrite get_set_ne by done. apply Hrec.
    + rewrite lookup_insert_ne by done. apply Hrooms.
  - intros c' r'. destruct (decide (c = c')) as [<-|Hne].
    + rewrite lookup_insert_eq. intros [= <-]. split; [done|].
      eexists. rewrite lookup_insert_eq. split; [done|]. simpl.
      apply elem_keys_set.
    + rewrite lookup_insert_ne by done. intros Hc'.
      destruct (Hidx c' r' Hc') as (Hne' & room' & Hr' & Hin).
      split; [done|]. destruct (decide (r = r')) as [<-|Hrr].
      * eexists. rewrite lookup_insert_eq. split; [done|]. simpl.
        apply keys_set_elem.
        destruct (rooms m !! r) as [room0|]; [|done].
        injection Hr' as <-. by subst room.
      * exists room'. by rewrite lookup_insert_ne.
Qed.


Lemma addUserToRoom_found now (r c : string) ud m :
  r <> ""%string ->
  exists room,
    getRoomBySocketId c (snd (addUserToRoom now r c ud m)) = Js.Obj room
    /\ rooms (snd (addUserToRoom now r c ud m)) !! r = Some room
    /\ users room <> [].
Proof.
  intros Hr.
  destruct (addUserToRoom_rooms now r c ud m) as (room & Hrs & Hix & _ & _).
  unfold getRoomBySocketId. rewrite Hix, lookup_insert_eq.
  destruct (decide (r = ""%string)); [done|].
  rewrite Hrs, lookup_insert_eq. eexists. split; [done|]. split; [done|].
  simpl. by destruct (users room) as [|[k v] rest]; simpl;
    [|destruct (decide (k = c))].
Qed.

Lemma onJoinRoom_ok now (c : string) rid ud m :
  consistent m ->
  exists m' emits,
    onJoinRoom now c rid ud m = Some (m', emits)
    /\ consistent m' /\ no_new_empty m m'.
Proof.
  intros Hm. unfold onJoinRoom.
  set (r := match rid with
            | Some r => if decide (r = ""%string) then "default"%string else r
            | None => "default"%string
            end).
  assert (r <> ""%string) as Hr.
  { subst r. destruct rid as [r|]; [destruct (decide (r = ""%string))|]; done. }
  pose proof (addUserToRoom_consistent now r c ud m Hr Hm) as Hm'.
  destruct (addUserToRoom_found now r c ud m Hr) as (room & Hfound & Hlook & Hne).
  destruct (addUserToRoom_rooms now r c ud m) as (room0 & Hrs & _ & _ & _).
  destruct (addUserToRoom now r c ud m) as [user m1]. simpl in *.
  rewrite Hfound. eexists _, _. split; [done|]. split; [done|].
  intros r' room' Hr' Hempty. destruct (decide (r = r')) as [<-|Hrr].
  - rewrite Hlook in Hr'. by injection Hr' as <-.
  - rewrite Hrs, lookup_insert_ne in Hr' by done. by exists room'.
Qed.

Lemma withState_consistent (r : string) room (s' : DrawingState Payload) m :
  consistent m -> rooms m !! r = Some room -> well_formed s' ->
  consistent (withState room s' m r)
  /\ no_new_empty m (withState room s' m r).
Proof.
  intros [Hrooms Hidx] Hr Hwf. destruct (Hrooms r room Hr) as (Hid & _ & Hnd & Hrec).
  unfold withState. split; [split|]; simpl.
  - intros r' room'. destruct (decide (r = r')) as [<-|Hne].
    + rewrite lookup_insert_eq. by intros [= <-].
    + rewrite lookup_insert_ne by done. apply Hrooms.
  - intros c r' Hc. destruct (Hidx c r' Hc) as (Hne & room' & Hr' & Hin).
    split; [done|]. destruct (decide (r = r')) as [<-|Hrr].
    + eexists. rewrite lookup_insert_eq. split; [done|]. simpl.
      rewrite Hr in Hr'. by injection Hr' as <-.
    + exists room'. by rewrite lookup_insert_ne.
  - unfold no_new_empty. simpl.
    intros r' room'. destruct (decide (r = r')) as [<-|Hne].
    + rewrite lookup_insert_eq. intros [= <-]. simpl. by exists room.
    + rewrite lookup_insert_ne by done. by exists room'.
Qed.

(** What the lookups give on a consistent manager. *)
Lemma lookups_consistent (c : string) m :
  consistent m ->
  (getRoomBySocketId c m = Js.Null /\ userRooms m !! c = None)
  \/ (exists (r : string) room u,
        userRooms m !! c = Some r /\ r <> ""%string
        /\ rooms m !! r = Some room /\ room_id room = r
        /\ well_formed (state room)
        /\ JsMap.get c (users room) = Some u /\ user_id u = c
        /\ getRoomBySocketId c m = Js.Obj room
        /\ roomKey c m = r
        /\ getUser c m = Js.Obj u).
Proof.
  intros [Hrooms Hidx]. unfold getUser, getRoomBySocketId, roomKey.
  destruct (userRooms m !! c) as [r|] eqn:Hc; [right|by left].
  destruct (Hidx c r Hc) as (Hne & room & Hr & Hin).
  destruct (Hrooms r room Hr) as (Hid & Hwf & _ & Hrec).
  apply get_keys in Hin as [u Hu]. destruct (Hrec c u Hu) as [Huid _].
  exists r, room, u. destruct (decide (r = ""%string)); [done|].
  rewrite Hr, Hu. done.
Qed.

Lemma addOperation_returns e (operation : OperationInput Payload)
    (s : DrawingState Payload) :
  well_formed s -> exists o, fst (addOperation e operation s) = Js.Obj o.
Proof.
  intros Hwf. destruct (addOperation_state e operation s Hwf) as (_ & Hret & Hpos).
  cbv zeta in Hret, Hpos. rewrite Hret.
  set (kept := if 1000 <? _ then _ else _) in *.
  destruct (index_in_range kept (Js.len kept - 1)) as (o & _ & Ho); [lia|].
  by exists o.
Qed.

Lemma serve_ok (sender : string) (req : Request Payload) m :
  consistent m ->
  exists m' emits,
    serve sender req m = Some (m', emits)
    /\ consistent m' /\ no_new_empty m m'.
Proof.
  intros Hm.
  assert (no_new_empty m m) as Hsame
    by (intros r room' ? ?; by exists room').
  destruct req as [now rid ud|e payload|e payload| | |]; simpl.
  - by apply onJoinRoom_ok.
  - unfold onDraw, logAndEcho.
    destruct (lookups_consistent sender m Hm)
      as [[-> _]|(r & room & u & _ & _ & Hr & _ & Hwf & _ & _ & -> & -> & ->)].
    { by eexists _, _. }
    pose proof (addOperation_well_formed e
      {| in_type := draw; in_data := payload; in_userId := sender;
         in_userName := name u; in_userColor := color u |} (state room) Hwf)
      as Hwf'.
    destruct (addOperation_returns e
      {| in_type := draw; in_data := payload; in_userId := sender;
         in_userName := name u; in_userColor := color u |} (state room) Hwf)
      as (o & Ho).
    destruct (addOperation _ _ _) as [ret s']. simpl in *. subst ret.
    eexists _, _. split; [done|]. by apply withState_consistent.
  - unfold onStrokeCompleteRequest, logAndEcho.
    destruct (lookups_consistent sender m Hm)
      as [[-> _]|(r & room & u & _ & _ & Hr & _ & Hwf & _ & _ & -> & -> & ->)].
    { by eexists _, _. }
    pose proof (addOperation_well_formed e
      {| in_type := stroke; in_data := payload; in_userId := sender;
         in_userName := name u; in_userColor := color u |} (state room) Hwf)
      as Hwf'.
    destruct (addOperation_returns e
      {| in_type := stroke; in_data := payload; in_userId := sender;
         in_userName := name u; in_userColor := color u |} (state room) Hwf)
      as (o & Ho).
    destruct (addOperation _ _ _) as [ret s']. simpl in *. subst ret.
    eexists _, _. split; [done|]. by apply withState_consistent.
  - unfold onUndoRequest.
    destruct (lookups_consistent sender m Hm)
      as [[-> _]|(r & room & u & _ & _ & Hr & _ & Hwf & _ & _ & -> & -> & _)].
    { by eexists _, _. }
    pose proof (undo_well_formed (state room) Hwf) as Hwf'.
    destruct (undo (state room)) as [ret s']. simpl in *.
    eexists _, _. split; [done|]. by apply withState_consistent.
  - unfold onRedoRequest.
    destruct (lookups_consistent sender m Hm)
      as [[-> _]|(r & room & u & _ & _ & Hr & _ & Hwf & _ & _ & -> & -> & _)].
    { by eexists _, _. }
    pose proof (redo_well_formed (state room) Hwf) as Hwf'.
    destruct (redo (state room)) as [ret s']. simpl in *.
    eexists _, _. split; [done|]. by apply withState_consistent.
  - unfold onClearCanvasRequest.
    destruct (lookups_consistent sender m Hm)
      as [[-> _]|(r & room & u & _ & _ & Hr & _ & Hwf & _ & _ & -> & -> & _)].
    { by eexists _, _. }
    eexists _, _. split; [done|].
    apply withState_consistent; [done|done|by apply clear_well_formed].
Qed.


Lemma onDisconnect_leave (c : string) w : fst (onDisconnect c w) = leave c w.
Proof.
  unfold onDisconnect, leave.
  by destruct (removeUser c (manager w)) as [[ret m'] timeouts].
Qed.

Lemma leave_consistent (c : string) w :
  consistent (manager w) -> consistent (manager (leave c w)).
Proof.
  intros Hm. pose proof Hm as [Hrooms Hidx]. unfold leave, removeUser.
  destruct (lookups_consistent c (manager w) Hm)
    as [[_ ->]|(r & room & u & -> & Hne & Hr & Hid & Hwf & _)]; [by destruct w|].
  destruct (decide (r = ""%string)); [done|]. rewrite Hr. simpl.
  destruct (Hrooms r room Hr) as (_ & _ & Hnd & Hrec).
  split; simpl.
  - intros r' room'. destruct (decide (r = r')) as [<-|Hrr].
    + rewrite lookup_insert_eq. intros [= <-]. unfold room_ok. simpl.
      split; [done|]. split; [done|]. split; [by apply NoDup_keys_delete|].
      intros k v. destruct (decide (k = c)) as [->|Hk].
      * intros Hget. exfalso. apply (not_elem_keys_delete c (users room)).
        apply get_keys. by eexists.
      * rewrite get_delete_ne by done. apply Hrec.
    + rewrite lookup_insert_ne by done. apply Hrooms.
  - intros c' r'. destruct (decide (c = c')) as [<-|Hcc].
    + by rewrite lookup_delete_eq.
    + rewrite lookup_delete_ne by done. intros Hc'.
      destruct (Hidx c' r' Hc') as (Hne' & room' & Hr' & Hin).
      split; [done|]. destruct (decide (r = r')) as [<-|Hrr].
      * eexists. rewrite lookup_insert_eq. split; [done|]. simpl.
        rewrite Hr in Hr'. injection Hr' as <-.
        rewrite keys_delete. apply list_elem_of_filter. split; [congruence|done].
      * exists room'. by rewrite lookup_insert_ne.
Qed.

Lemma leave_evictions (c : string) w :
  evictions_ok w -> evictions_ok (leave c w).
Proof.
  intros [Hempty Hdue].
  assert (evictions_ok {| manager := manager w; clock := clock w;
                          pending := pending w ++ [] |}) as Hsame
    by (rewrite app_nil_r; by split).
  unfold leave, removeUser.
  destruct (userRooms (manager w) !! c) as [r|]; [|done].
  destruct (decide (r = ""%string)); [done|].
  destruct (rooms (manager w) !! r) as [room|] eqn:Hr; [|done].
  clear Hsame. split; simpl.
  - intros r' room'. destruct (decide (r = r')) as [<-|Hrr].
    + rewrite lookup_insert_eq. intros [= <-]. simpl. intros Hnil.
      rewrite Hnil. simpl. exists (clock w + 5 * 60 * 1000).
      apply elem_of_app. right. apply list_elem_of_here.
    + rewrite lookup_insert_ne by done. intros Hr' Hnil.
      destruct (Hempty r' room' Hr' Hnil) as [due Hin].
      exists due. apply elem_of_app. by left.
  - intros x [Hin|Hin]%elem_of_app; [by apply Hdue|].
    destruct (decide (JsMap.size (JsMap.delete c (users room)) = 0));
      simpl in Hin; [|by apply elem_of_nil in Hin].
    apply list_elem_of_singleton in Hin as ->. simpl. lia.
Qed.

Lemma evictionCallback_consistent (r : string) m :
  consistent m -> consistent (evictionCallback r m).
Proof.
  intros [Hrooms Hidx]. unfold evictionCallback.
  destruct (rooms m !! r) as [room|] eqn:Hr; [|done].
  destruct (decide (JsMap.size (users room) = 0)) as [Hz|]; [|done].
  apply size_zero_keys in Hz. split; simpl.
  - intros r' room'. destruct (decide (r = r')) as [<-|Hrr].
    + by rewrite lookup_delete_eq.
    + rewrite lookup_delete_ne by done. apply Hrooms.
  - intros c r' Hc. destruct (Hidx c r' Hc) as (Hne & room' & Hr' & Hin).
    split; [done|]. exists room'. split; [|done].
    destruct (decide (r = r')) as [<-|Hrr]; [|by rewrite lookup_delete_ne].
    rewrite Hr in Hr'. injection Hr' as <-. rewrite Hz in Hin.
    by apply elem_of_nil in Hin.
Qed.

Lemma evictionCallback_sub (r r' : string) m room :
  rooms (evictionCallback r m) !! r' = Some room -> rooms m !! r' = Some room.
Proof.
  unfold evictionCallback. destruct (rooms m !! r) as [room0|]; [|done].
  destruct (decide (JsMap.size (users room0) = 0)); [|done]. simpl.
  destruct (decide (r = r')) as [<-|Hrr].
  - by rewrite lookup_delete_eq.
  - by rewrite lookup_delete_ne.
Qed.

Lemma fire_consistent t timers : forall m,
  consistent m -> consistent (fst (fire t timers m)).
Proof.
  induction timers as [|[due r] timers IH]; intros m Hm; simpl; [done|].
  destruct (due <=? t).
  - by apply IH, evictionCallback_consistent.
  - specialize (IH m Hm). by destruct (fire t timers m).
Qed.

Lemma fire_sub t timers : forall m (r : string) room,
  rooms (fst (fire t timers m)) !! r = Some room -> rooms m !! r = Some room.
Proof.
  induction timers as [|[due r0] timers IH]; intros m r room; simpl; [done|].
  destruct (due <=? t).
  - intros H. by eapply evictionCallback_sub, IH.
  - specialize (IH m r room). by destruct (fire t timers m).
Qed.

Lemma fire_rest_sub t timers : forall m x,
  x ∈ snd (fire t timers m) -> x ∈ timers.
Proof.
  induction timers as [|[due r0] timers IH]; intros m x; simpl; [done|].
  destruct (due <=? t).
  - intros H. apply list_elem_of_further. by eapply IH.
  - specialize (IH m x). destruct (fire t timers m) as [m' rest]. simpl in *.
    intros [->|Hin]%elem_of_cons;
      [apply list_elem_of_here|by apply list_elem_of_further, IH].
Qed.

(** A room that is still there and empty after the due callbacks ran keeps a
    pending callback if it had one. *)
Lemma fire_keeps_eviction t timers : forall m (r : string) room,
  rooms (fst (fire t timers m)) !! r = Some room -> users room = [] ->
  (exists due, (due, r) ∈ timers) ->
  exists due, (due, r) ∈ snd (fire t timers m).
Proof.
  induction timers as [|[due0 r0] timers IH]; intros m r room; simpl.
  - intros _ _ [due Hin]. by apply elem_of_nil in Hin.
  - destruct (Z.leb_spec due0 t) as [Hdue|Hlater].
    + intros Hr Hnil [due Hin].
      apply (IH _ r room Hr Hnil).
      apply elem_of_cons in Hin as [[= -> ->]|Hin]; [|by exists due].
      exfalso. apply fire_sub in Hr.
      pose proof (evictionCallback_sub _ _ _ _ Hr) as Hbefore.
      unfold evictionCallback in Hr. rewrite Hbefore in Hr.
      destruct (decide (JsMap.size (users room) = 0)) as [|Hnz].
      * simpl in Hr. by rewrite lookup_delete_eq in Hr.
      * apply Hnz. by rewrite Hnil.
    + specialize (IH m r room). destruct (fire t timers m) as [m' rest].
      simpl in *. intros Hr Hnil [due Hin].
      apply elem_of_cons in Hin as [[= -> ->]|Hin].
      * exists due0. apply list_elem_of_here.
      * destruct (IH Hr Hnil) as [due' Hin']; [by exists due|].
        exists due'. by apply list_elem_of_further.
Qed.

Lemma advance_consistent t w :
  consistent (manager w) -> consistent (manager (advance t w)).
Proof.
  intros Hm. unfold advance.
  pose proof (fire_consistent (Z.max t (clock w)) (pending w) (manager w) Hm).
  by destruct (fire (Z.max t (clock w)) (pending w) (manager w)).
Qed.

Lemma advance_evictions t w : evictions_ok w -> evictions_ok (advance t w).
Proof.
  intros [Hempty Hdue]. unfold advance.
  pose proof (fire_sub (Z.max t (clock w)) (pending w) (manager w)) as Hsub.
  pose proof (fire_rest_sub (Z.max t (clock w)) (pending w) (manager w)) as Hrest.
  pose proof (fire_keeps_eviction (Z.max t (clock w)) (pending w) (manager w))
    as Hkeep.
  destruct (fire (Z.max t (clock w)) (pending w) (manager w)) as [m' rest].
  simpl in *. split; simpl.
  - intros r room Hr Hnil. apply (Hkeep r room Hr Hnil).
    apply (Hempty r room); [by apply Hsub|done].
  - intros x Hin. specialize (Hdue x (Hrest x Hin)). lia.
Qed.

Lemma serve_evictions (sender : string) (req : Request Payload) w m' emits :
  consistent (manager w) ->
  evictions_ok w ->
  serve sender req (manager w) = Some (m', emits) ->
  evictions_ok {| manager := m'; clock := clock w; pending := pending w |}.
Proof.
  intros Hm [Hempty Hdue] Hserve.
  destruct (serve_ok sender req (manager w) Hm) as (m1 & emits1 & H1 & _ & Hnew).
  rewrite H1 in Hserve. injection Hserve as <- <-.
  split; simpl; [|done].
  intros r room' Hr Hnil. destruct (Hnew r room' Hr Hnil) as (room & Hr0 & Hnil0).
  by apply (Hempty r room).
Qed.

(** The state of the whole server that every event keeps. *)
Lemma serverStep_ok w ev :
  consistent (manager w) -> evictions_ok w ->
  exists w', serverStep w ev = Some w'
             /\ consistent (manager w') /\ evictions_ok w'
             /\ clock w <= clock w'.
Proof.
  intros Hm Hev. destruct ev as [sender req|sender data|sender x y|sender|t];
    simpl.
  - destruct (serve_ok sender req (manager w) Hm) as (m' & emits & Hs & Hm' & _).
    pose proof (serve_evictions sender req w m' emits Hm Hev Hs).
    rewrite Hs. eexists. split; [done|]. simpl. split; [done|]. split; [done|lia].
  - unfold onDrawPath.
    destruct (lookups_consistent sender (manager w) Hm)
      as [[-> _]|(r & room & u & _ & _ & _ & _ & _ & _ & _ & -> & _ & ->)];
      (exists w; split; [done|]; split; [done|]; split; [done|lia]).
  - unfold onCursorMove.
    destruct (lookups_consistent sender (manager w) Hm)
      as [[-> _]|(r & room & u & _ & _ & _ & _ & _ & _ & _ & -> & _ & ->)];
      (exists w; split; [done|]; split; [done|]; split; [done|lia]).
  - rewrite onDisconnect_leave. eexists. split; [done|].
    split; [by apply leave_consistent|]. split; [by apply leave_evictions|].
    unfold leave. destruct (removeUser sender (manager w)) as [[? ?] ?].
    simpl. lia.
  - eexists. split; [done|]. split; [by apply advance_consistent|].
    split; [by apply advance_evictions|].
    unfold advance.
    destruct (fire (Z.max t (clock w)) (pending w) (manager w)). simpl. lia.
Qed.

Lemma serverRunFrom_ok (evs : list (ServerEvent Payload PathData Coord)) :
  forall w, consistent (manager w) -> evictions_ok w ->
  exists w', serverRunFrom w evs = Some w'
             /\ consistent (manager w') /\ evictions_ok w'.
Proof.
  induction evs as [|ev evs IH]; intros w Hm Hev; simpl.
  - by exists w.
  - destruct (serverStep_ok w ev Hm Hev) as (w1 & -> & Hm1 & Hev1 & _).
    by apply IH.
Qed.

Lemma serverRun_ok (evs : list (ServerEvent Payload PathData Coord)) :
  exists w, serverRun evs = Some w
            /\ consistent (manager w) /\ evictions_ok w.
Proof.
  apply serverRunFrom_ok; [apply consistent_new|].
  split; simpl; [intros r room; by rewrite lookup_empty|].
  by intros x ?%elem_of_nil.
Qed.



Lemma ids_are_keys (m : JsMap.t User) :
  NoDup (JsMap.keys m) ->
  (forall (k : string) (u : User), JsMap.get k m = Some u -> user_id u = k) ->
  map user_id (JsMap.values m) = JsMap.keys m
  /\ forall u, u ∈ JsMap.values m -> exists k, JsMap.get k m = Some u.
Proof.
  induction m as [|[k u] m IH]; simpl; intros Hnd Hrec.
  - split; [done|]. by intros u ?%elem_of_nil.
  - apply NoDup_cons in Hnd as [Hk Hnd].
    assert (forall (k' : string) (u' : User),
              JsMap.get k' m = Some u' -> user_id u' = k') as Hrec'.
    { intros k' u' Hget. apply Hrec. destruct (decide (k = k')) as [<-|]; [|done].
      exfalso. apply Hk, get_keys. by eexists. }
    destruct (IH Hnd Hrec') as [IHids IHget]. split.
    + rewrite IHids. f_equal. apply Hrec. by destruct (decide (k = k)).
    + intros u' [->|Hin]%elem_of_cons.
      * exists k. by destruct (decide (k = k)).
      * destruct (IHget u' Hin) as [k' Hget]. exists k'.
        destruct (decide (k = k')) as [<-|]; [|done].
        exfalso. apply Hk, get_keys. by eexists.
Qed.


(** X14. The reverse index is sound in every state the server reaches: a
    connection it maps to a room id is listed in the room stored under that
    id, whose own [id] field is that id, so [getRoomBySocketId] and [getUser]
    both succeed and the user record carries the connection id. *)
Theorem X14_reverse_index_is_sound
    (evs : list (ServerEvent Payload PathData Coord)) :
  exists w, serverRun evs = Some w
    /\ forall c r : string,
         userRooms (manager w) !! c = Some r ->
         exists room u,
           rooms (manager w) !! r = Some room
           /\ room_id room = r
           /\ getRoomBySocketId c (manager w) = Js.Obj room
           /\ getUser c (manager w) = Js.Obj u
           /\ user_id u = c.
Proof.
  destruct (serverRun_ok evs) as (w & Hrun & Hm & _).
  exists w. split; [done|]. intros c r Hc.
  destruct (lookups_consistent c (manager w) Hm)
    as [[_ Hnone]|(r' & room & u & Hc' & _ & Hr & Hid & _ & _ & Hu & Hfound & _ & Hget)];
    [congruence|].
  rewrite Hc in Hc'. injection Hc' as <-. by exists room, u.
Qed.

(** X15. In every state the server reaches, the member list of a room
    ([getRoomUsers]) names no connection twice, and every member has a colour
    of the palette. *)
Theorem X15_member_lists_are_duplicate_free
    (evs : list (ServerEvent Payload PathData Coord)) :
  exists w, serverRun evs = Some w
    /\ forall r : string,
         NoDup (map user_id (getRoomUsers r (manager w)))
         /\ forall u, u ∈ getRoomUsers r (manager w) ->
              exists col, color u = Js.Obj col /\ col ∈ userColors.
Proof.
  destruct (serverRun_ok evs) as (w & Hrun & [Hrooms _] & _).
  exists w. split; [done|]. intros r. unfold getRoomUsers.
  destruct (rooms (manager w) !! r) as [room|] eqn:Hr.
  - destruct (Hrooms r room Hr) as (_ & _ & Hnd & Hrec).
    destruct (ids_are_keys (users room) Hnd) as [Hids Hget].
    { intros k u Hu. by apply Hrec. }
    rewrite Hids. split; [done|]. intros u Hin.
    destruct (Hget u Hin) as [k Hk]. by apply (Hrec k u).
  - split; [apply NoDup_nil_2|]. by intros u ?%elem_of_nil.
Qed.

(** X16. In every state the server reaches, every room is stored under its
    own id and its log satisfies the invariants of the operation log: cursor
    within [-1 .. length-1] and at most 1000 entries. *)
Theorem X16_every_room_log_is_well_formed
    (evs : list (ServerEvent Payload PathData Coord)) :
  exists w, serverRun evs = Some w
    /\ forall (r : string) room,
         rooms (manager w) !! r = Some room ->
         room_id room = r
         /\ -1 <= currentIndex (state room)
               <= Js.len (operations (state room)) - 1
         /\ Js.len (operations (state room)) <= 1000.
Proof.
  destruct (serverRun_ok evs) as (w & Hrun & [Hrooms _] & _).
  exists w. split; [done|]. intros r room Hr.
  destruct (Hrooms r room Hr) as (Hid & (Hmax & Hc & Hcap) & _).
  split; [done|]. split; [done|lia].
Qed.


End ServerFacts.

Lemma X14_witness :
  exists w, serverRun Cases.busyDay = Some w
    /\ userRooms (manager w) !! "c"%string = Some "default"%string
    /\ exists u, getUser "c" (manager w) = Js.Obj u /\ user_id u = "c"%string.
Proof.
  destruct (X14_reverse_index_is_sound Cases.busyDay) as (w & Hrun & Hsound).
  assert (userRooms (manager w) !! "c"%string = Some "default"%string) as Hc.
  { pose proof Hrun as Hw. vm_compute in Hw. injection Hw as <-.
    vm_compute. reflexivity. }
  exists w. split; [exact Hrun|]. split; [exact Hc|].
  destruct (Hsound _ _ Hc) as (room & u & _ & _ & _ & Hu & Hid).
  exists u. split; [exact Hu|exact Hid].
Defined.

Lemma X15_witness :
  exists w, serverRun Cases.busyDay = Some w
    /\ Cases.userCy ∈ getRoomUsers "default" (manager w)
    /\ exists col, color Cases.userCy = Js.Obj col /\ col ∈ userColors.
Proof.
  destruct (X15_member_lists_are_duplicate_free Cases.busyDay)
    as (w & Hrun & Hlists).
  assert (Cases.userCy ∈ getRoomUsers "default" (manager w)) as Hin.
  { pose proof Hrun as Hw. vm_compute in Hw. injection Hw as <-.
    vm_compute. apply list_elem_of_here. }
  exists w. split; [exact Hrun|]. split; [exact Hin|].
  exact (proj2 (Hlists "default"%string) _ Hin).
Defined.

Lemma X16_witness :
  exists w room, serverRun Cases.busyDay = Some w
    /\ rooms (manager w) !! "default"%string = Some room
    /\ Js.len (operations (state room)) <= 1000.
Proof.
  destruct (X16_every_room_log_is_well_formed Cases.busyDay)
    as (w & Hrun & Hlogs).
  assert (is_Some (rooms (manager w) !! "default"%string)) as [room Hr].
  { pose proof Hrun as Hw. vm_compute in Hw. injection Hw as <-.
    vm_compute. eexists. reflexivity. }
  exists w, room. split; [exact Hrun|]. split; [exact Hr|].
  exact (proj2 (proj2 (Hlogs _ _ Hr))).
Defined.


(** * Further properties of the client's replay *)

Section ClientFacts.

Context {Payload : Type}.
Implicit Types (m : RoomManager Payload) (a : App Payload).

Lemma receive_copy_ok a (msg : Message Payload) :
  copy_ok a -> snapshot_ok msg -> copy_ok (receive a msg).
Proof.
  unfold copy_ok. intros [Hlo Hhi] Hmsg.
  destruct msg; simpl in *; try done.
  - unfold onCanvasState, Js.len in *. simpl. lia.
  - unfold Js.push. rewrite len_app. unfold Js.len in *. simpl. lia.
  - unfold onUndo. destruct (Z.leb_spec 0 (app_currentIndex a)); simpl; lia.
  - unfold onRedo.
    destruct (Z.ltb_spec (app_currentIndex a) (Js.len (operationHistory a) - 1));
      simpl; lia.
Qed.

Lemma deliver_copy_ok (client room sender : string)
    (emits : list (Emit Payload)) : forall a,
  copy_ok a -> Forall (fun e => snapshot_ok (message_of e)) emits ->
  copy_ok (deliver client room sender emits a).
Proof.
  unfold deliver. induction emits as [|e emits IH]; intros a Ha Hall; [done|].
  apply Forall_cons in Hall as [He Hall]. simpl.
  destruct (deliveredTo client room sender e) as [msg|] eqn:Hd; simpl.
  - apply IH; [|done]. apply receive_copy_ok; [done|].
    destruct e; simpl in *; repeat case_decide; congruence.
  - by apply IH.
Qed.

Lemma getState_snapshot_ok (s : DrawingState Payload) :
  cursor_ok s -> snapshot_ok (CanvasState (getState s)).
Proof. intros Hc. simpl. rewrite len_active by done. lia. Qed.

Lemma serve_snapshots (sender : string) (req : Request Payload) m m' emits :
  consistent m ->
  serve sender req m = Some (m', emits) ->
  Forall (fun e => snapshot_ok (message_of e)) emits.
Proof.
  intros Hm. destruct req as [now rid ud|e payload|e payload| | |]; simpl.
  - unfold onJoinRoom.
    set (r := match rid with
              | Some r => if decide (r = ""%string) then "default"%string else r
              | None => "default"%string
              end).
    assert (r <> ""%string) as Hr.
    { subst r. destruct rid as [r|]; [destruct (decide (r = ""%string))|]; done. }
    pose proof (addUserToRoom_consistent now r sender ud m Hr Hm) as [Hrooms _].
    destruct (addUserToRoom_found now r sender ud m Hr) as (room & Hfound & Hlook & _).
    destruct (addUserToRoom now r sender ud m) as [user m1]. simpl in *.
    rewrite Hfound. intros [= <- <-].
    destruct (Hrooms r room Hlook) as (_ & (_ & Hc & _) & _).
    repeat constructor. by apply getState_snapshot_ok.
  - unfold onDraw, logAndEcho.
    destruct (getRoomBySocketId sender m); try (intros [= <- <-]; constructor).
    destruct (getUser sender m); try done.
    destruct (addOperation _ _ _) as [[| |o] s']; try done.
    intros [= <- <-]. by repeat constructor.
  - unfold onStrokeCompleteRequest, logAndEcho.
    destruct (getRoomBySocketId sender m); try (intros [= <- <-]; constructor).
    destruct (getUser sender m); try done.
    destruct (addOperation _ _ _) as [[| |o] s']; try done.
    intros [= <- <-]. by repeat constructor.
  - unfold onUndoRequest.
    destruct (getRoomBySocketId sender m); try (intros [= <- <-]; constructor).
    destruct (undo _) as [[| |o] s']; intros [= <- <-]; by repeat constructor.
  - unfold onRedoRequest.
    destruct (getRoomBySocketId sender m); try (intros [= <- <-]; constructor).
    destruct (redo _) as [[| |o] s']; intros [= <- <-]; by repeat constructor.
  - unfold onClearCanvasRequest.
    destruct (getRoomBySocketId sender m); intros [= <- <-];
      by repeat constructor.
Qed.

Lemma observe_ok (client room : string) (reqs : list (string * Request Payload)) :
  forall m a, consistent m -> copy_ok a ->
  exists m' a', observe client room reqs m a = Some (m', a')
                /\ consistent m' /\ copy_ok a'.
Proof.
  induction reqs as [|[sender req] reqs IH]; intros m a Hm Ha; simpl.
  - by exists m, a.
  - destruct (serve_ok sender req m Hm) as (m1 & emits & Hs & Hm1 & _).
    pose proof (serve_snapshots sender req m m1 emits Hm Hs) as Hsnap.
    rewrite Hs. apply IH; [done|].
    by apply (deliver_copy_ok client room sender emits).
Qed.

(** X18. Whatever the members of a room request, a client that applies what
    it is sent keeps its cursor within its own copy of the history
    ([-1 <= currentIndex <= operationHistory.length - 1]), and no handler
    throws on the way. *)
Theorem X18_client_cursor_stays_in_range (client room : string)
    (reqs : list (string * Request Payload)) :
  exists m a,
    observe client room reqs newRoomManager newApp = Some (m, a)
    /\ -1 <= app_currentIndex a <= Js.len (operationHistory a) - 1.
Proof.
  destruct (observe_ok client room reqs newRoomManager newApp)
    as (m & a & Hrun & _ & Ha).
  - apply consistent_new.
  - unfold copy_ok, Js.len. simpl. lia.
  - by exists m, a.
Qed.


Lemma onJoinRoom_mirrors now (client : string) rid ud m m1 emits a :
  consistent m ->
  (forall r0, rooms m !! joinedRoom rid = Some r0 ->
     currentIndex (state r0) = Js.len (operations (state r0)) - 1) ->
  onJoinRoom now client rid ud m = Some (m1, emits) ->
  mirrors (joinedRoom rid) m1 (deliver client (joinedRoom rid) client emits a).
Proof.
  intros Hm Htail. unfold onJoinRoom. fold (joinedRoom rid).
  set (r := joinedRoom rid) in *.
  assert (r <> ""%string) as Hr.
  { subst r. unfold joinedRoom.
    destruct rid as [r|]; [destruct (decide (r = ""%string))|]; done. }
  pose proof (addUserToRoom_consistent now r client ud m Hr Hm) as [Hrooms _].
  destruct (addUserToRoom_found now r client ud m Hr) as (room & Hfound & Hlook & _).
  destruct (addUserToRoom_rooms now r client ud m) as (room0 & Hrs & _ & _ & Hroom0).
  destruct (addUserToRoom now r client ud m) as [user m'']. simpl in *.
  rewrite Hfound. intros [= <- <-].
  destruct (Hrooms r room Hlook) as (Hid & Hwf & _).
  assert (currentIndex (state room) = Js.len (operations (state room)) - 1)
    as Hroomtail.
  { rewrite Hrs, lookup_insert_eq in Hlook. injection Hlook as <-. simpl.
    destruct (rooms m !! r) as [r0|] eqn:Hr0; subst room0; [by apply Htail|done]. }
  unfold deliver. simpl.
  destruct (decide (client = client)); [|done]. simpl.
  destruct (decide (r = r)); [|done]. simpl.
  exists room. split; [done|]. split; [done|]. split; [done|]. simpl.
  split; [|done]. unfold getActiveOperations. rewrite Hroomtail.
  replace (Js.len (operations (state room)) - 1 + 1)
    with (Js.len (operations (state room))) by lia.
  rewrite slice0_take by (unfold Js.len; lia).
  unfold Js.len. rewrite Nat2Z.id. apply firstn_all.
Qed.

(** X19. A client that joins a room whose log has no undone entry receives
    a snapshot that is the whole log: right after the join its copy and its
    cursor equal the server's, and so do the two active slices. *)
Theorem X19_join_snapshot_mirrors_the_log now (client : string) rid ud m m1
    emits :
  consistent m ->
  (forall r0, rooms m !! joinedRoom rid = Some r0 ->
     currentIndex (state r0) = Js.len (operations (state r0)) - 1) ->
  onJoinRoom now client rid ud m = Some (m1, emits) ->
  let a := deliver client (joinedRoom rid) client emits newApp in
  mirrors (joinedRoom rid) m1 a
  /\ activeOps a = serverActive (joinedRoom rid) m1.
Proof.
  intros Hm Htail Hjoin. cbv zeta.
  pose proof (onJoinRoom_mirrors now client rid ud m m1 emits newApp
                Hm Htail Hjoin) as Hmir.
  split; [done|]. by apply mirrors_active.
Qed.

Lemma replayableRun_mirrors (client room : string)
    (reqs : list (string * Request Payload)) : forall m a m' a',
  room <> ""%string ->
  mirrors room m a ->
  replayableRun client room reqs m ->
  observe client room reqs m a = Some (m', a') ->
  mirrors room m' a'.
Proof.
  induction reqs as [|[sender req] reqs IH]; intros m a m' a' Hr Hmir Hrun;
    simpl.
  - by intros [= <- <-].
  - destruct Hrun as (Hsender & Hroom & Hreq & Hrest).
    destruct (serve sender req m) as [[m1 emits]|] eqn:Hs; [|done].
    apply IH; [done| |by eapply Hrest].
    by apply (replay_step_mirrors room client sender req m a m1 emits).
Qed.

(** X20. Along a run in which every request comes from another member of
    the room and is an undo, a redo, a clear, or a stroke submitted while
    the log has no undone entry and fewer than 1000 entries, a client whose
    copy equals the log keeps an exact copy: at the end its history, its
    cursor and its active slice are the server's. *)
Theorem X20_replayable_run_keeps_the_copy_exact (client room : string)
    (reqs : list (string * Request Payload)) m a m' a' :
  room <> ""%string ->
  mirrors room m a ->
  replayableRun client room reqs m ->
  observe client room reqs m a = Some (m', a') ->
  mirrors room m' a' /\ activeOps a' = serverActive room m'.
Proof.
  intros Hr Hmir Hrun Hobs.
  pose proof (replayableRun_mirrors client room reqs m a m' a' Hr Hmir Hrun Hobs).
  split; [done|]. by apply mirrors_active.
Qed.

End ClientFacts.

Lemma X19_witness :
  exists w m1 emits,
    @serverRun string string Z Cases.aDrew = Some w
    /\ onJoinRoom 30 "c" (Some "r1"%string) None (manager w) = Some (m1, emits)
    /\ activeOps (deliver "c" "r1" "c" emits newApp) = serverActive "r1" m1.
Proof.
  destruct (@serverRun_ok string string Z Cases.aDrew) as (w & Hrun & Hm & _).
  destruct (serve_ok "c"%string (JoinRoom 30 (Some "r1"%string) None)
              (manager w) Hm) as (m1 & emits & Hs & _).
  simpl in Hs.
  assert (forall r0, rooms (manager w) !! joinedRoom (Some "r1"%string) = Some r0 ->
            currentIndex (state r0) = Js.len (operations (state r0)) - 1)
    as Htail.
  { pose proof Hrun as Hw. vm_compute in Hw. injection Hw as <-.
    intros r0 Hr0. vm_compute in Hr0. injection Hr0 as <-.
    vm_compute. reflexivity. }
  exists w, m1, emits. split; [exact Hrun|]. split; [exact Hs|].
  exact (proj2 (X19_join_snapshot_mirrors_the_log 30 "c"%string
                  (Some "r1"%string) None (manager w) m1 emits Hm Htail Hs)).
Defined.

Lemma X20_witness :
  exists m' a',
    observe "c" "r1" Cases.strokeThenUndo
      (fst Cases.justJoined) (snd Cases.justJoined) = Some (m', a')
    /\ activeOps a' = serverActive "r1" m'.
Proof.
  assert ("r1"%string <> ""%string) as Hr by discriminate.
  assert (mirrors "r1" (fst Cases.justJoined) (snd Cases.justJoined)) as Hmir.
  { unfold mirrors. eexists. split; [vm_compute; reflexivity|].
    split; [reflexivity|]. split; [unfold well_formed, cursor_ok; evaluated|].
    split; vm_compute; reflexivity. }
  assert (replayableRun "c" "r1" Cases.strokeThenUndo (fst Cases.justJoined))
    as Hrun.
  { simpl. split; [discriminate|]. split; [vm_compute; reflexivity|].
    split.
    { unfold appendable. eexists. split; [vm_compute; reflexivity|].
      split; vm_compute; reflexivity. }
    intros m1 emits1 H1. vm_compute in H1. injection H1 as <- <-.
    split; [discriminate|]. split; [vm_compute; reflexivity|].
    split; [exact I|]. intros m2 emits2 _. exact I. }
  assert (is_Some (observe "c" "r1" Cases.strokeThenUndo
                     (fst Cases.justJoined) (snd Cases.justJoined)))
    as [[m' a'] Hobs] by (vm_compute; eexists; reflexivity).
  exists m', a'. split; [exact Hobs|].
  exact (proj2 (X20_replayable_run_keeps_the_copy_exact "c"%string "r1"%string
                  Cases.strokeThenUndo _ _ m' a' Hr Hmir Hrun Hobs)).
Defined.

(** * Properties of the client's socket manager *)

Section WebSocketFacts.

Context {Point StrokeData Coord : Type}.
Implicit Types (t : Tab Point) (m : WebSocketManager Point).
Implicit Types (ev : TabEvent Point StrokeData Coord).
Implicit Types (out : list (Outgoing Point StrokeData Coord)).

Lemma flushed_app out1 out2 :
  flushed (out1 ++ out2) = flushed out1 ++ flushed out2.
Proof. unfold flushed. apply flat_map_app. Qed.

Lemma newTab_ok (isConnected : bool) : tab_ok (@newTab Point isConnected).
Proof. unfold tab_ok. simpl. split; [done|]. split; [lia|done]. Qed.

Lemma clearBatchTimeout_ok t :
  tab_ok t -> clearBatchTimeout (ws t) (tab_timers t) = [].
Proof.
  intros (_ & _ & Htimers). unfold clearBatchTimeout, clearTimeout.
  destruct (tab_timers t) as [|f [|? ?]]; [|destruct Htimers as (-> & Hh & _)|done].
  - by destruct (batchTimeout (ws t)) as [[|?]|].
  - destruct (handle f) as [|id] eqn:Hid; [lia|].
    rewrite filter_cons_False; [done|]. intros Hne. by apply Hne.
Qed.

(** What the callbacks due at [now] do on a tab that is in order. *)
Lemma runDue_ok now t :
  tab_ok t -> tab_clock t <= now ->
  exists m' kept out,
    runDue (StrokeData := StrokeData) (Coord := Coord) now (tab_timers t) (ws t)
    = (m', kept, out)
    /\ connected m' = connected (ws t)
    /\ batchTimeout m' = batchTimeout (ws t)
    /\ batchInterval m' = batchInterval (ws t)
    /\ lastCursorUpdate m' = lastCursorUpdate (ws t)
    /\ flushed out ++ pathBatch m' = pathBatch (ws t)
    /\ Forall (fun o => match o with
                        | EmitDrawPath points _ _ _ => points <> []
                        | _ => False
                        end) out
    /\ ((kept = [] /\ pathBatch m' = []
         /\ Forall (fun f => flush_due f <= now) (tab_timers t))
        \/ (kept = tab_timers t /\ out = [] /\ m' = ws t
            /\ exists f, tab_timers t = [f] /\ now < flush_due f)).
Proof.
  intros (_ & _ & Htimers) Hnow.
  destruct (tab_timers t) as [|f [|? ?]]; [| |done]; simpl.
  - eexists _, _, _. split; [done|]. rewrite Htimers. repeat split; try done.
    left. by repeat split.
  - destruct (Z.leb_spec (flush_due f) now) as [Hdue|Hlater].
    + unfold flushBatch.
      destruct (Z.ltb_spec 0 (Js.len (pathBatch (ws t)))) as [Hne|Hemp]; simpl.
      * eexists _, _, _. split; [done|]. simpl. rewrite !app_nil_r.
        repeat split; try done.
        -- repeat constructor. intros Hnil. rewrite Hnil in Hne.
           unfold Js.len in Hne. simpl in Hne. lia.
        -- left. repeat split; try done. by repeat constructor.
      * assert (pathBatch (ws t) = []) as Hnil.
        { destruct (pathBatch (ws t)); [done|].
          unfold Js.len in Hemp. simpl in Hemp. lia. }
        eexists _, _, _. split; [done|]. simpl. repeat split; try done.
        left. repeat split; try done. by repeat constructor.
    + eexists _, _, _. split; [done|]. simpl. repeat split; try done.
      right. repeat split; try done. by exists f.
Qed.

Lemma tabStep_ok t ev :
  tab_ok t -> tab_ok (fst (tabStep t ev)).
Proof.
  intros Hok. pose proof Hok as (Hint & Hnext & Htimers).
  destruct ev as [p tool color lw|d|x y|c|time]; simpl.
  - unfold sendDrawPath. destruct (connected (ws t)); [|done].
    rewrite clearBatchTimeout_ok by done. unfold tab_ok. simpl.
    split; [done|]. split; [lia|]. split; [done|]. split; [lia|]. lia.
  - unfold sendStrokeComplete. destruct (connected (ws t)); [|done].
    rewrite clearBatchTimeout_ok by done. unfold tab_ok. simpl.
    split; [done|]. split; [lia|done].
  - unfold sendCursorMove.
    destruct (connected (ws t)); [|by destruct t].
    destruct (_ || _); [|by destruct t].
    unfold tab_ok. simpl. done.
  - unfold tab_ok. simpl. done.
  - destruct (runDue_ok (Z.max time (tab_clock t)) t Hok)
      as (m' & kept & out & -> & _ & Hbt & Hbi & _ & _ & _ & Hcase); [lia|].
    unfold tab_ok. simpl. rewrite Hbi. split; [done|]. split; [done|].
    destruct Hcase as [(-> & Hnil & _)|(-> & _ & -> & f & Hf & Hlater)]; [done|].
    rewrite Hf in *. destruct Htimers as (? & ? & ?).
    split; [done|]. split; [done|]. lia.
Qed.

Lemma tabRun_ok (evs : list (TabEvent Point StrokeData Coord)) : forall t,
  tab_ok t -> tab_ok (fst (tabRun t evs)).
Proof.
  induction evs as [|ev evs IH]; intros t Hok; simpl; [done|].
  pose proof (tabStep_ok t ev Hok) as Hok1.
  destruct (tabStep t ev) as [t1 out1]. specialize (IH t1 Hok1).
  by destruct (tabRun t1 evs) as [t2 out2].
Qed.


Lemma accepted_cons t ev (evs : list (TabEvent Point StrokeData Coord)) :
  accepted t (ev :: evs) = accepted t [ev] ++ accepted (fst (tabStep t ev)) evs.
Proof.
  simpl. destruct ev; try done. by destruct (connected (ws t)).
Qed.

(** One event: what was emitted plus what is buffered afterwards, against
    what was buffered before plus what the event submitted. *)
Lemma tabStep_flow t ev :
  tab_ok t ->
  Forall batch_nonempty (snd (tabStep t ev))
  /\ flushed (snd (tabStep t ev)) ++ pathBatch (ws (fst (tabStep t ev)))
       `sublist_of` pathBatch (ws t) ++ accepted t [ev]
  /\ (isStrokeDone ev = false ->
       flushed (snd (tabStep t ev)) ++ pathBatch (ws (fst (tabStep t ev)))
       = pathBatch (ws t) ++ accepted t [ev]).
Proof.
  intros Hok. destruct ev as [p tool color lw|d|x y|c|time]; simpl.
  - unfold sendDrawPath. destruct (connected (ws t)); simpl.
    + split; [constructor|]. unfold Js.push. split; [done|done].
    + rewrite app_nil_r. split; [constructor|]. split; [done|done].
  - unfold sendStrokeComplete. destruct (connected (ws t)); simpl.
    + split; [by repeat constructor|]. split; [apply sublist_nil_l|done].
    + rewrite app_nil_r. split; [constructor|]. split; [done|done].
  - unfold sendCursorMove. rewrite app_nil_r.
    destruct (connected (ws t)); simpl; [|by repeat split].
    destruct (_ || _); simpl; [|by repeat split].
    split; [by repeat constructor|]. split; [done|done].
  - rewrite app_nil_r. split; [constructor|]. split; [done|done].
  - destruct (runDue_ok (Z.max time (tab_clock t)) t Hok)
      as (m' & kept & out & -> & _ & _ & _ & _ & Hflow & Hne & _); [lia|].
    simpl. rewrite app_nil_r, Hflow. split; [|done].
    eapply Forall_impl; [exact Hne|]. by intros [].
Qed.

Lemma tabRun_flow (evs : list (TabEvent Point StrokeData Coord)) : forall t,
  tab_ok t ->
  Forall batch_nonempty (snd (tabRun t evs))
  /\ flushed (snd (tabRun t evs)) ++ pathBatch (ws (fst (tabRun t evs)))
       `sublist_of` pathBatch (ws t) ++ accepted t evs
  /\ (forallb (fun ev => negb (isStrokeDone ev)) evs = true ->
       flushed (snd (tabRun t evs)) ++ pathBatch (ws (fst (tabRun t evs)))
       = pathBatch (ws t) ++ accepted t evs).
Proof.
  induction evs as [|ev evs IH]; intros t Hok.
  - simpl. rewrite app_nil_r. split; [constructor|]. split; [done|done].
  - rewrite accepted_cons.
    destruct (tabStep_flow t ev Hok) as (Hne1 & Hsub1 & Heq1).
    pose proof (tabStep_ok t ev Hok) as Hok1.
    set (one := accepted t [ev]) in *.
    cbn [tabRun forallb]. destruct (tabStep t ev) as [t1 out1].
    cbn [fst snd] in *.
    destruct (IH t1 Hok1) as (Hne2 & Hsub2 & Heq2).
    destruct (tabRun t1 evs) as [t2 out2]. cbn [fst snd] in *.
    rewrite flushed_app, <- !app_assoc.
    split; [by apply Forall_app|]. split.
    + trans (flushed out1 ++ pathBatch (ws t1) ++ accepted t1 evs).
      * by apply sublist_app.
      * rewrite !app_assoc. by apply sublist_app.
    + intros [Hev Hrest]%andb_prop.
      rewrite Heq2 by done. rewrite !app_assoc. f_equal.
      apply Heq1. by destruct (isStrokeDone ev).
Qed.

(** X21. Path points through the batch: along any run of a fresh tab, the
    entries of the ['draw-path'] messages emitted, followed by what is still
    buffered, are entries that [sendDrawPath] took in while connected, in
    the order it took them, none twice; no emitted message is empty; and as
    long as no stroke was completed nothing is missing. *)
Theorem X21_batch_neither_reorders_nor_duplicates (isConnected : bool)
    (evs : list (TabEvent Point StrokeData Coord)) :
  let t0 := newTab isConnected in
  let sent := flushed (snd (tabRun t0 evs)) in
  let buffered := pathBatch (ws (fst (tabRun t0 evs))) in
  sent ++ buffered `sublist_of` accepted t0 evs
  /\ Forall batch_nonempty (snd (tabRun t0 evs))
  /\ (forallb (fun ev => negb (isStrokeDone ev)) evs = true ->
       sent ++ buffered = accepted t0 evs).
Proof.
  cbv zeta.
  destruct (tabRun_flow evs (newTab isConnected) (newTab_ok isConnected))
    as (Hne & Hsub & Heq).
  split; [done|]. split; [done|done].
Qed.

(** X22. Whatever is buffered goes out once 50 ms pass without a new point:
    in any state a fresh tab reaches, letting the clock reach 50 ms from now
    emits exactly the buffered entries (nothing when the buffer is empty)
    and leaves the buffer empty and no callback pending. *)
Theorem X22_buffer_is_flushed_after_the_interval (isConnected : bool)
    (evs : list (TabEvent Point StrokeData Coord)) :
  let t := fst (tabRun (newTab isConnected) evs) in
  let later := tabStep (StrokeData := StrokeData) (Coord := Coord) t
                 (Until (tab_clock t + 50)) in
  flushed (snd later) = pathBatch (ws t)
  /\ pathBatch (ws (fst later)) = []
  /\ tab_timers (fst later) = [].
Proof.
  cbv zeta.
  pose proof (tabRun_ok evs (newTab isConnected) (newTab_ok isConnected)) as Hok.
  set (t := fst (tabRun (newTab isConnected) evs)) in *. simpl.
  destruct (runDue_ok (Z.max (tab_clock t + 50) (tab_clock t)) t Hok)
    as (m' & kept & out & -> & _ & _ & _ & _ & Hflow & _ & Hcase); [lia|].
  simpl.
  destruct Hcase as [(-> & Hnil & _)|(_ & _ & _ & f & Hf & Hlater)].
  - rewrite Hnil, app_nil_r in Hflow. done.
  - destruct Hok as (_ & _ & Htimers). rewrite Hf in Htimers.
    destruct Htimers as (_ & _ & Hdue). lia.
Qed.


Lemma quick_point_rearms sentAt time (e : PathEntry Point) t :
  armed sentAt t -> sentAt <= time < sentAt + 50 ->
  exists t',
    tabRun (StrokeData := StrokeData) (Coord := Coord) t
      [ Until time;
        DrawPathPoint (point e) (entry_tool e) (entry_color e)
          (entry_lineWidth e) ] = (t', [])
    /\ armed time t'
    /\ pathBatch (ws t') = pathBatch (ws t) ++ [e].
Proof.
  intros (Hok & Hconn & Hclock & f & Hf & Hdue) Htime.
  pose proof (tabStep_ok t (Until time) Hok) as Hok1.
  pose proof (tabStep_ok _ (DrawPathPoint (point e) (entry_tool e)
    (entry_color e) (entry_lineWidth e)) Hok1) as Hok2.
  cbn [tabRun tabStep] in *.
  destruct (runDue_ok (Z.max time (tab_clock t)) t Hok)
    as (m' & kept & out & Hrun & Hc & _ & Hbi & _ & _ & _ & Hcase); [lia|].
  rewrite Hrun in *. cbn [fst snd] in *.
  destruct Hcase as [(_ & _ & Hall)|(-> & -> & -> & _)].
  { rewrite Hf in Hall. apply Forall_cons in Hall as [Hle _]. lia. }
  unfold sendDrawPath in *. cbn [ws tab_clock tab_timers nextHandle] in *.
  rewrite Hconn in *.
  rewrite (clearBatchTimeout_ok t Hok) in *.
  eexists. split; [done|]. split; [|by destruct e].
  split; [done|]. split; [done|]. cbn. split; [lia|].
  eexists. split; [done|]. cbn. destruct Hok as (-> & _). lia.
Qed.

Lemma tabRun_app (evs1 evs2 : list (TabEvent Point StrokeData Coord)) :
  forall t,
  tabRun t (evs1 ++ evs2)
  = (fst (tabRun (fst (tabRun t evs1)) evs2),
     snd (tabRun t evs1) ++ snd (tabRun (fst (tabRun t evs1)) evs2)).
Proof.
  induction evs1 as [|ev evs1 IH]; intros t; simpl.
  - by destruct (tabRun t evs2).
  - destruct (tabStep t ev) as [t1 out1]. rewrite IH.
    destruct (tabRun t1 evs1) as [t2 out2]. simpl.
    by rewrite app_assoc.
Qed.

Lemma last_cons_default (l : list Z) : forall a d,
  List.last (a :: l) d = List.last l a.
Proof.
  induction l as [|b l IH]; intros a d; [done|].
  change (List.last (a :: b :: l) d) with (List.last (b :: l) d).
  by rewrite !IH.
Qed.

Lemma quick_points_emit_nothing (steps : list (Z * PathEntry Point)) :
  forall sentAt t,
  armed sentAt t -> quickPoints sentAt steps ->
  exists t',
    tabRun (StrokeData := StrokeData) (Coord := Coord) t (pointEvents steps)
    = (t', [])
    /\ armed (lastTime sentAt steps) t'
    /\ pathBatch (ws t') = pathBatch (ws t) ++ map snd steps.
Proof.
  induction steps as [|[time e] steps IH]; intros sentAt t Harmed Hquick.
  - exists t. rewrite app_nil_r. done.
  - destruct Hquick as [Htime Hquick].
    destruct (quick_point_rearms sentAt time e t Harmed Htime)
      as (t1 & Hrun1 & Harmed1 & Hbatch1).
    destruct (IH time t1 Harmed1 Hquick) as (t2 & Hrun2 & Harmed2 & Hbatch2).
    exists t2. split; [|split].
    + change (pointEvents ((time, e) :: steps))
        with ([ Until (StrokeData := StrokeData) (Coord := Coord) time;
                DrawPathPoint (point e) (entry_tool e) (entry_color e)
                  (entry_lineWidth e) ] ++ pointEvents steps).
      rewrite tabRun_app, Hrun1. cbn [fst snd]. by rewrite Hrun2.
    + unfold lastTime in *. cbn [map fst]. by rewrite last_cons_default.
    + rewrite Hbatch2, Hbatch1, <- app_assoc. done.
Qed.


Lemma first_point_arms time (e : PathEntry Point) :
  0 <= time ->
  exists t',
    tabRun (StrokeData := StrokeData) (Coord := Coord) (newTab true)
      [ Until time;
        DrawPathPoint (point e) (entry_tool e) (entry_color e)
          (entry_lineWidth e) ] = (t', [])
    /\ armed time t'.
Proof.
  intros Htime. cbn. rewrite Z.max_l by lia.
  eexists. split; [done|]. unfold armed, tab_ok. cbn.
  split; [split; [done|]; split; [lia|]; split; [done|]; split; lia|].
  split; [done|]. split; [done|]. eexists. split; [done|]. cbn. lia.
Qed.

(** X23. The batch is debounced, not sampled: while the points of a stroke
    are sent less than 50 ms apart the flush callback is cancelled and
    registered anew each time, and a [sendStrokeComplete] less than 50 ms
    after the last point cancels it for good and empties the batch. Along
    such a stroke, from a fresh connected tab, the only message emitted is
    the ['stroke-complete']: no ['draw-path'] is ever sent. *)
Theorem X23_continuous_stroke_sends_no_path (first : Z * PathEntry Point)
    (rest : list (Z * PathEntry Point)) (strokeData : StrokeData)
    (doneAt : Z) :
  0 <= fst first ->
  quickPoints (fst first) rest ->
  lastTime (fst first) rest <= doneAt < lastTime (fst first) rest + 50 ->
  let outcome :=
    tabRun (Coord := Coord) (newTab true)
      (pointEvents (first :: rest) ++ [ Until doneAt; StrokeDone strokeData ]) in
  snd outcome = [ EmitStrokeComplete strokeData ]
  /\ pathBatch (ws (fst outcome)) = []
  /\ tab_timers (fst outcome) = [].
Proof.
  intros Hfirst Hquick Hdone. cbv zeta. destruct first as [time e].
  cbn [fst] in *.
  destruct (first_point_arms time e Hfirst) as (t1 & Hrun1 & Harmed1).
  destruct (quick_points_emit_nothing rest time t1 Harmed1 Hquick)
    as (t2 & Hrun2 & (Hok & Hconn & Hclock & f & Hf & Hdue) & _).
  change (pointEvents ((time, e) :: rest))
    with ([ Until (StrokeData := StrokeData) (Coord := Coord) time;
            DrawPathPoint (point e) (entry_tool e) (entry_color e)
              (entry_lineWidth e) ] ++ pointEvents rest).
  rewrite <- app_assoc, !tabRun_app, Hrun1. cbn [fst snd].
  rewrite Hrun2. cbn [fst snd app tabRun tabStep].
  destruct (runDue_ok (Z.max doneAt (tab_clock t2)) t2 Hok)
    as (m' & kept & out & Hrun & Hc & _ & _ & _ & _ & _ & Hcase); [lia|].
  rewrite Hrun.
  destruct Hcase as [(_ & _ & Hall)|(-> & -> & -> & _)].
  { rewrite Hf in Hall. apply Forall_cons in Hall as [Hle _]. lia. }
  unfold sendStrokeComplete. cbn [ws tab_timers]. rewrite Hconn.
  cbn. split; [done|]. split; [done|]. by apply clearBatchTimeout_ok.
Qed.

Lemma cursorEmissions_spaced (calls : list (Z * Z * Coord * Coord)) :
  forall m,
  readings_ok calls ->
  (forall l, lastCursorUpdate m = Some l -> 0 < l) ->
  spaced (cursorEmissions (StrokeData := StrokeData) m calls)
  /\ forall l next,
       lastCursorUpdate m = Some l ->
       head (cursorEmissions (StrokeData := StrokeData) m calls) = Some next ->
       100 < next - l.
Proof.
  induction calls as [|[[[checked stored] x] y] calls IH]; intros m Hall Hpos.
  - split; [done|]. by intros l next _ ?.
  - apply Forall_cons in Hall as [Hread Hall]. cbn [fst snd] in Hread.
    cbn [cursorEmissions]. unfold sendCursorMove.
    destruct (connected m); [|by apply IH].
    destruct (lastCursorUpdate m) as [l|] eqn:Hl.
    + specialize (Hpos l eq_refl).
      destruct (Z.eqb_spec l 0) as [|_]; [lia|].
      destruct (Z.ltb_spec 100 (checked - l)) as [Hlate|Hsoon]; cbn.
      * destruct (IH {| connected := true; pathBatch := pathBatch m;
                        batchTimeout := batchTimeout m;
                        batchInterval := batchInterval m;
                        lastCursorUpdate := Some stored |} Hall)
          as [Hsp Hnext]; [by intros ? [= <-]; lia|].
        split.
        -- destruct (cursorEmissions (StrokeData := StrokeData) _ calls) as [|t2 rest] eqn:Hrest; [done|].
           split; [by apply (Hnext stored t2)|done].
        -- intros l' next [= <-] [= <-]. lia.
      * rewrite <- Hl in *. destruct (IH m Hall) as [Hsp Hnext].
        { intros l' Hl'. rewrite Hl in Hl'. injection Hl' as <-. done. }
        split; [done|]. intros l' next Hl' Hhead. by apply (Hnext l' next).
    + cbn.
      destruct (IH {| connected := true; pathBatch := pathBatch m;
                      batchTimeout := batchTimeout m;
                      batchInterval := batchInterval m;
                      lastCursorUpdate := Some stored |} Hall)
        as [Hsp Hnext]; [by intros ? [= <-]; lia|].
      split; [|done].
      destruct (cursorEmissions (StrokeData := StrokeData) _ calls) as [|t2 rest] eqn:Hrest; [done|].
      split; [by apply (Hnext stored t2)|done].
Qed.

(** X24. Cursor positions are throttled: whatever the calls of
    [sendCursorMove], as long as each reads a positive clock, any two
    ['cursor-move'] messages emitted one after the other are more than
    100 ms apart. *)
Theorem X24_cursor_moves_are_spaced (isConnected : bool)
    (calls : list (Z * Z * Coord * Coord)) :
  readings_ok calls ->
  spaced (cursorEmissions (StrokeData := StrokeData)
            (ws (@newTab Point isConnected)) calls).
Proof.
  intros Hall.
  by destruct (cursorEmissions_spaced calls (ws (@newTab Point isConnected)) Hall).
Qed.

End WebSocketFacts.

Lemma X21_witness :
  forallb (fun ev => negb (isStrokeDone ev)) Cases.threePoints = true
  /\ flushed (snd (tabRun (newTab true) Cases.threePoints))
       ++ pathBatch (ws (fst (tabRun (newTab true) Cases.threePoints)))
     = accepted (newTab true) Cases.threePoints.
Proof.
  assert (forallb (fun ev => negb (isStrokeDone ev)) Cases.threePoints = true)
    as Hno by (vm_compute; reflexivity).
  split; [exact Hno|].
  exact (proj2 (proj2 (X21_batch_neither_reorders_nor_duplicates true
                         Cases.threePoints)) Hno).
Defined.

Lemma X23_witness :
  snd (tabRun (Coord := Z) (newTab true)
         (pointEvents Cases.quickStroke ++ [ Until 150; StrokeDone "S"%string ]))
  = [ EmitStrokeComplete "S"%string ].
Proof.
  refine (proj1 (X23_continuous_stroke_sends_no_path
                   (100, {| point := "p1"%string; entry_tool := "brush";
                            entry_color := "#000000"; entry_lineWidth := 3 |})
                   (tl Cases.quickStroke) "S"%string 150 _ _ _)).
  - cbn. lia.
  - cbn. lia.
  - cbn. lia.
Defined.

Lemma X24_witness :
  readings_ok Cases.cursorCalls
  /\ cursorEmissions (StrokeData := string) (ws (@newTab string true))
       Cases.cursorCalls
     = [1000; 1102; 1300]
  /\ spaced (cursorEmissions (StrokeData := string) (ws (@newTab string true))
       Cases.cursorCalls).
Proof.
  assert (readings_ok Cases.cursorCalls) as Hread.
  { unfold readings_ok, Cases.cursorCalls. repeat constructor; cbn; lia. }
  split; [exact Hread|]. split; [vm_compute; reflexivity|].
  exact (X24_cursor_moves_are_spaced (Point := string)
           (StrokeData := string) true Cases.cursorCalls Hread).
Defined.

(** * Properties of the canvas manager *)

Section CanvasFacts.

Context {Point : Type}.
Implicit Types (cm : CanvasManager Point) (p q : Point).

Lemma lineCalls_app (style : CtxCall Point) (l k : list Point) :
  lineCalls style (l ++ k) = lineCalls style l ++ lineCalls style k.
Proof. unfold lineCalls. apply flat_map_app. Qed.

(** The loop of [draw] over any list of points. *)
Lemma flushInDraw_fold (b : list Point) : forall cm,
  let cm' := fold_left (fun cm q => drawLine q (pushPoint q cm)) b cm in
  currentPath cm' = currentPath cm ++ b
  /\ ctx cm' = ctx cm ++ lineCalls (currentStyle cm) b
  /\ isDrawing cm' = isDrawing cm /\ pathBuffer cm' = pathBuffer cm
  /\ cm_tool cm' = cm_tool cm /\ cm_color cm' = cm_color cm
  /\ cm_lineWidth cm' = cm_lineWidth cm
  /\ drawThrottle cm' = drawThrottle cm
  /\ lastDrawTime cm' = lastDrawTime cm.
Proof.
  induction b as [|q b IH]; intros cm; cbn [fold_left].
  - cbv zeta. rewrite !app_nil_r. done.
  - cbv zeta in *.
    destruct (IH (drawLine q (pushPoint q cm)))
      as (Hpath & Hctx & ? & ? & ? & ? & ? & ? & ?).
    rewrite Hpath, Hctx. cbn. unfold Js.push.
    rewrite <- !app_assoc. done.
Qed.

(** The loop of [stopDrawing] does the same once the path is not empty. *)
Lemma flushInStop_fold (b : list Point) : forall cm,
  currentPath cm <> [] ->
  fold_left (fun cm q =>
               let cm1 := pushPoint q cm in
               if 1 <? Js.len (currentPath cm1) then drawLine q cm1 else cm1)
    b cm
  = fold_left (fun cm q => drawLine q (pushPoint q cm)) b cm.
Proof.
  induction b as [|q b IH]; intros cm Hne; cbn [fold_left]; [done|].
  cbv zeta.
  assert ((1 <? Js.len (currentPath (pushPoint q cm))) = true) as ->.
  { apply Z.ltb_lt. cbn. unfold Js.push, Js.len. rewrite length_app.
    destruct (currentPath cm); [done|]. cbn. lia. }
  apply IH. cbn. unfold Js.push. by destruct (currentPath cm).
Qed.

Lemma startDrawing_mid cm p :
  pathBuffer cm = [] -> mid_stroke cm p [] (startDrawing p cm).
Proof.
  intros Hbuf. unfold mid_stroke. cbn. split; [done|].
  split; [|done]. exists []. rewrite Hbuf. cbn. done.
Qed.

Lemma drawAt_mid cm0 p pts now q cm :
  mid_stroke cm0 p pts cm ->
  mid_stroke cm0 p (pts ++ [q]) (fst (drawAt now q cm)).
Proof.
  intros (Hdraw & (path & Hpath & Hpts & Hctx) & Htool & Hcol & Hlw & Hthr).
  unfold drawAt. rewrite Hdraw.
  destruct (now - lastDrawTime cm <? drawThrottle cm); cbn [fst].
  - unfold mid_stroke. cbn. split; [done|]. split; [|done].
    exists path. unfold Js.push. rewrite app_assoc, Hpts. done.
  - cbv zeta.
    set (cm1 := {| isDrawing := true; currentPath := currentPath cm;
                   cm_tool := cm_tool cm; cm_color := cm_color cm;
                   cm_lineWidth := cm_lineWidth cm; lastDrawTime := now;
                   drawThrottle := drawThrottle cm;
                   pathBuffer := pathBuffer cm; ctx := ctx cm |}).
    assert (currentStyle cm1 = currentStyle cm0) as Hstyle
      by (unfold currentStyle; cbn; by rewrite Htool, Hcol, Hlw).
    set (cm2 := if 0 <? Js.len (pathBuffer cm1)
                then clearBuffer (flushInDraw cm1) else cm1).
    assert (isDrawing cm2 = true
            /\ currentPath cm2 = p :: pts
            /\ pathBuffer cm2 = []
            /\ ctx cm2 = ctx cm0 ++ [ BeginPath; MoveTo p ]
                         ++ lineCalls (currentStyle cm0) pts
            /\ cm_tool cm2 = cm_tool cm0 /\ cm_color cm2 = cm_color cm0
            /\ cm_lineWidth cm2 = cm_lineWidth cm0
            /\ drawThrottle cm2 = drawThrottle cm0)
      as (Hd2 & Hp2 & Hb2 & Hc2 & Ht2 & Hco2 & Hl2 & Hth2).
    { subst cm2.
      destruct (Z.ltb_spec 0 (Js.len (pathBuffer cm1))) as [Hne|Hemp].
      - unfold flushInDraw.
        destruct (flushInDraw_fold (pathBuffer cm1) cm1)
          as (Hq & Hx & Hi & _ & H1 & H2 & H3 & H4 & _).
        cbv zeta in *. cbn [clearBuffer isDrawing currentPath pathBuffer ctx
                              cm_tool cm_color cm_lineWidth drawThrottle].
        rewrite Hq, Hx, Hi, H1, H2, H3, H4, Hstyle. subst cm1. cbn.
        rewrite Hpath, Hctx, <- Hpts, lineCalls_app, <- !app_assoc. done.
      - assert (pathBuffer cm = []) as Hnil.
        { subst cm1. cbn in Hemp. destruct (pathBuffer cm); [done|].
          unfold Js.len in Hemp. cbn in Hemp. lia. }
        subst cm1. cbn. rewrite Hnil, app_nil_r in Hpts. subst pts.
        by rewrite Hnil. }
    assert ((1 <? Js.len (currentPath (pushPoint q cm2))) = true) as ->.
    { apply Z.ltb_lt. cbn. rewrite Hp2. unfold Js.push, Js.len.
      rewrite length_app. cbn. lia. }
    unfold mid_stroke. cbn. rewrite Hp2, Hb2, Hc2.
    split; [done|]. split; [|done].
    exists (pts ++ [q]). unfold Js.push. rewrite app_nil_r.
    split; [done|]. split; [done|].
    rewrite lineCalls_app, <- !app_assoc. cbn.
    unfold currentStyle. by rewrite Ht2, Hco2, Hl2.
Qed.

Lemma moves_mid cm0 p (steps : list (Z * Point)) : forall pts cm,
  mid_stroke cm0 p pts cm ->
  mid_stroke cm0 p (pts ++ map snd steps) (moves steps cm).
Proof.
  induction steps as [|[now q] steps IH]; intros pts cm Hmid; cbn.
  - by rewrite app_nil_r.
  - replace (pts ++ q :: map snd steps) with ((pts ++ [q]) ++ map snd steps)
      by (by rewrite <- app_assoc).
    apply IH. by apply drawAt_mid.
Qed.

(** What [stopDrawing] returns in the middle of a stroke. *)
Lemma stopDrawing_mid cm0 p pts cm :
  mid_stroke cm0 p pts cm ->
  exists cm',
    stopDrawing cm
    = (cm', Some {| op_tool := cm_tool cm0; op_color := cm_color cm0;
                    op_lineWidth := cm_lineWidth cm0;
                    op_points := p :: pts |})
    /\ isDrawing cm' = false /\ currentPath cm' = [] /\ pathBuffer cm' = []
    /\ ctx cm' = ctx cm0 ++ [ BeginPath; MoveTo p ]
                 ++ lineCalls (currentStyle cm0) pts
    /\ cm_tool cm' = cm_tool cm0 /\ cm_color cm' = cm_color cm0
    /\ cm_lineWidth cm' = cm_lineWidth cm0.
Proof.
  intros (Hdraw & (path & Hpath & Hpts & Hctx) & Htool & Hcol & Hlw & Hthr).
  unfold stopDrawing. rewrite Hdraw. cbv zeta.
  set (cm1 := {| isDrawing := false; currentPath := currentPath cm;
                 cm_tool := cm_tool cm; cm_color := cm_color cm;
                 cm_lineWidth := cm_lineWidth cm;
                 lastDrawTime := lastDrawTime cm;
                 drawThrottle := drawThrottle cm;
                 pathBuffer := pathBuffer cm; ctx := ctx cm |}).
  assert (currentStyle cm1 = currentStyle cm0) as Hstyle
    by (unfold currentStyle; cbn; by rewrite Htool, Hcol, Hlw).
  set (cm2 := if 0 <? Js.len (pathBuffer cm1)
              then clearBuffer (flushInStop cm1) else cm1).
  assert (isDrawing cm2 = false
          /\ currentPath cm2 = p :: pts
          /\ pathBuffer cm2 = []
          /\ ctx cm2 = ctx cm0 ++ [ BeginPath; MoveTo p ]
                       ++ lineCalls (currentStyle cm0) pts
          /\ cm_tool cm2 = cm_tool cm0 /\ cm_color cm2 = cm_color cm0
          /\ cm_lineWidth cm2 = cm_lineWidth cm0)
    as (Hd2 & Hp2 & Hb2 & Hc2 & Ht2 & Hco2 & Hl2).
  { subst cm2.
    destruct (Z.ltb_spec 0 (Js.len (pathBuffer cm1))) as [Hne|Hemp].
    - unfold flushInStop. rewrite flushInStop_fold
        by (subst cm1; cbn; by rewrite Hpath).
      destruct (flushInDraw_fold (pathBuffer cm1) cm1)
        as (Hq & Hx & Hi & _ & H1 & H2 & H3 & _).
      cbv zeta in *. cbn [clearBuffer isDrawing currentPath pathBuffer ctx
                            cm_tool cm_color cm_lineWidth drawThrottle].
      rewrite Hq, Hx, Hi, H1, H2, H3, Hstyle. subst cm1. cbn.
      rewrite Hpath, Hctx, <- Hpts, lineCalls_app, <- !app_assoc. done.
    - assert (pathBuffer cm = []) as Hnil.
      { subst cm1. cbn in Hemp. destruct (pathBuffer cm); [done|].
        unfold Js.len in Hemp. cbn in Hemp. lia. }
      subst cm1. cbn. rewrite Hnil, app_nil_r in Hpts. subst pts.
      by rewrite Hnil. }
  eexists. split; [by rewrite Hp2, Ht2, Hco2, Hl2|]. cbn. done.
Qed.


Lemma gesture_result p (steps : list (Z * Point)) cm :
  pathBuffer cm = [] ->
  exists cm',
    gesture p steps cm
    = (cm', Some {| op_tool := cm_tool cm; op_color := cm_color cm;
                    op_lineWidth := cm_lineWidth cm;
                    op_points := p :: map snd steps |})
    /\ isDrawing cm' = false /\ currentPath cm' = [] /\ pathBuffer cm' = []
    /\ ctx cm' = ctx cm ++ [ BeginPath; MoveTo p ]
                 ++ lineCalls (currentStyle cm) (map snd steps).
Proof.
  intros Hbuf.
  pose proof (moves_mid cm p steps [] _ (startDrawing_mid cm p Hbuf)) as Hmid.
  cbn [app] in Hmid.
  destruct (stopDrawing_mid cm p _ _ Hmid)
    as (cm' & Hstop & Hd & Hp & Hb & Hc & _).
  exists cm'. unfold gesture, release. rewrite Hstop. cbn.
  assert ((0 <? Js.len (p :: map snd steps)) = true) as ->
    by (apply Z.ltb_lt; unfold Js.len; cbn; lia).
  done.
Qed.

(** X25. No point of a stroke is lost to the throttle: press at a point,
    move through any points at any times, release; on a manager with an
    empty buffer, the operation submitted holds the pressed point followed
    by every point moved through, in order, with the tool, colour and width
    in force, and the manager is left at rest with nothing buffered. *)
Theorem X25_stroke_keeps_every_point p (steps : list (Z * Point)) cm :
  pathBuffer cm = [] ->
  exists cm',
    gesture p steps cm
    = (cm', Some {| op_tool := cm_tool cm; op_color := cm_color cm;
                    op_lineWidth := cm_lineWidth cm;
                    op_points := p :: map snd steps |})
    /\ isDrawing cm' = false /\ currentPath cm' = [] /\ pathBuffer cm' = [].
Proof.
  intros Hbuf.
  destruct (gesture_result p steps cm Hbuf) as (cm' & Hg & Hd & Hp & Hb & _).
  by exists cm'.
Qed.

Lemma flushInStop_isDrawing (b : list Point) : forall cm,
  isDrawing
    (fold_left (fun cm q =>
                  let cm1 := pushPoint q cm in
                  if 1 <? Js.len (currentPath cm1) then drawLine q cm1 else cm1)
       b cm)
  = isDrawing cm.
Proof.
  induction b as [|q b IH]; intros cm; cbn [fold_left]; [done|].
  rewrite IH. cbv zeta. by destruct (1 <? _).
Qed.

Lemma stopDrawing_at_rest cm : isDrawing (fst (stopDrawing cm)) = false.
Proof.
  unfold stopDrawing. destruct (isDrawing cm) eqn:Hd; [|done].
  cbv zeta. cbn [fst isDrawing pathBuffer].
  destruct (0 <? Js.len (pathBuffer cm)); [|done].
  cbn [clearBuffer isDrawing]. unfold flushInStop.
  by rewrite flushInStop_isDrawing.
Qed.

Lemma release_at_rest cm : isDrawing (fst (release cm)) = false.
Proof.
  pose proof (stopDrawing_at_rest cm) as Hrest. unfold release.
  destruct (stopDrawing cm) as [cm' [operation|]]; [|done].
  by destruct (0 <? Js.len (op_points operation)).
Qed.

(** X26. A stroke is submitted once: after ['mouseup'] has taken the
    operation of [stopDrawing], the ['mouseleave'] that follows (or any
    further release) finds the manager at rest, gets [undefined], submits
    nothing and changes nothing. *)
Theorem X26_release_submits_once cm :
  release (fst (release cm)) = (fst (release cm), None).
Proof.
  pose proof (release_at_rest cm) as Hrest.
  unfold release at 1. unfold stopDrawing. by rewrite Hrest.
Qed.

Lemma vertices_app (l k : list (CtxCall Point)) :
  vertices (l ++ k) = vertices l ++ vertices k.
Proof. unfold vertices. apply List.filter_app. Qed.

Lemma styles_app (l k : list (CtxCall Point)) :
  styles (l ++ k) = styles l ++ styles k.
Proof. unfold styles. apply List.filter_app. Qed.

Lemma vertices_lineCalls (style : CtxCall Point) (pts : list Point) :
  (exists s w c, style = SetStroke s w c) ->
  vertices (lineCalls style pts) = map LineTo pts
  /\ styles (lineCalls style pts) = map (fun _ => style) pts.
Proof.
  intros (s & w & c & ->).
  induction pts as [|q pts [IHv IHs]]; [done|].
  cbn. unfold vertices, styles, lineCalls in *. by rewrite IHv, IHs.
Qed.

Lemma vertices_map_LineTo (pts : list Point) :
  vertices (map LineTo pts) = map LineTo pts
  /\ styles (map (@LineTo Point) pts) = [].
Proof.
  induction pts as [|q pts [IHv IHs]]; [done|].
  cbn. unfold vertices, styles in *. by rewrite IHv, IHs.
Qed.

(** X27. What the author sees is what the others will replay: the calls a
    stroke makes on the context while it is drawn trace the same path,
    vertex for vertex, as [drawPath] does for the operation submitted, and
    every style they set is the one [drawPath] sets. *)
Theorem X27_live_drawing_traces_the_replayed_path p
    (steps : list (Z * Point)) cm :
  pathBuffer cm = [] ->
  exists cm' operation calls,
    gesture p steps cm = (cm', Some operation)
    /\ ctx cm' = ctx cm ++ calls
    /\ vertices calls = vertices (drawPathCalls operation)
    /\ vertices calls = MoveTo p :: map LineTo (map snd steps)
    /\ exists style,
         styles (drawPathCalls operation) = [style]
         /\ Forall (fun c => c = style) (styles calls).
Proof.
  intros Hbuf.
  destruct (gesture_result p steps cm Hbuf) as (cm' & Hg & _ & _ & _ & Hctx).
  eexists cm', _, _. split; [exact Hg|]. split; [exact Hctx|].
  assert (exists s w c, currentStyle cm = SetStroke s w c) as Hstyle
    by (unfold currentStyle, strokeStyleOf; by eexists _, _, _).
  destruct (vertices_lineCalls (currentStyle cm) (map snd steps) Hstyle)
    as [Hv Hs].
  destruct (vertices_map_LineTo (map snd steps)) as [Hv' Hs'].
  unfold drawPathCalls. cbn [op_points op_tool op_color op_lineWidth].
  rewrite !vertices_app, !styles_app, Hv, Hs, Hv', Hs'.
  fold (currentStyle cm). destruct Hstyle as (s & w & c & Hst).
  rewrite Hst. cbn. rewrite app_nil_r. split; [done|]. split; [done|].
  eexists. split; [done|]. apply Forall_forall.
  by intros x (? & <- & _)%list_elem_of_fmap.
Qed.

End CanvasFacts.

Lemma X25_witness :
  pathBuffer Cases.atRest = []
  /\ exists cm',
       gesture "p0"%string Cases.fourMoves Cases.atRest
       = (cm', Some {| op_tool := "brush"; op_color := "#FF0000";
                       op_lineWidth := 5;
                       op_points := [ "p0"; "p1"; "p2"; "p3"; "p4" ]%string |}).
Proof.
  assert (pathBuffer Cases.atRest = []) as Hbuf by reflexivity.
  split; [exact Hbuf|].
  destruct (X25_stroke_keeps_every_point "p0"%string Cases.fourMoves
              Cases.atRest Hbuf) as (cm' & Hg & _).
  exists cm'. exact Hg.
Defined.

Lemma X27_witness :
  pathBuffer Cases.atRest = []
  /\ exists cm' operation calls,
       gesture "p0"%string Cases.fourMoves Cases.atRest = (cm', Some operation)
       /\ ctx cm' = ctx Cases.atRest ++ calls
       /\ vertices calls = vertices (drawPathCalls operation).
Proof.
  assert (pathBuffer Cases.atRest = []) as Hbuf by reflexivity.
  split; [exact Hbuf|].
  destruct (X27_live_drawing_traces_the_replayed_path "p0"%string
              Cases.fourMoves Cases.atRest Hbuf)
    as (cm' & operation & calls & Hg & Hctx & Hv & _).
  exists cm', operation, calls. split; [exact Hg|]. split; [exact Hctx|exact Hv].
Defined.

(** * Operation ids *)

Lemma pretty_N_char_no_underscore (x : N) : pretty_N_char x <> "_"%char.
Proof. unfold pretty_N_char. by repeat case_match. Qed.

Lemma pretty_N_go_underscore_free (x : N) : forall s,
  underscore_free s -> underscore_free (pretty_N_go x s).
Proof.
  induction (N.lt_wf_0 x) as [x _ IH]; intros s Hs.
  assert (x = 0 \/ 0 < x)%N as [->|Hpos] by lia.
  - by rewrite pretty_N_go_0.
  - rewrite pretty_N_go_step by done. apply IH; [by apply N.div_lt|].
    split; [apply pretty_N_char_no_underscore|done].
Qed.

Lemma pretty_N_underscore_free (x : N) : underscore_free (pretty x).
Proof.
  unfold pretty, pretty_N. case_decide; [by split|].
  by apply pretty_N_go_underscore_free.
Qed.

Lemma pretty_Z_underscore_free (z : Z) : underscore_free (pretty z).
Proof.
  unfold pretty, pretty_Z. destruct z as [|p|p].
  - by split.
  - apply pretty_N_underscore_free.
  - split; [done|]. apply pretty_N_underscore_free.
Qed.

(** A string is cut in one way only at its first underscore. *)
Lemma split_at_first_underscore (s1 : string) : forall s2 r1 r2,
  underscore_free s1 -> underscore_free s2 ->
  s1 +:+ String "_" r1 = s2 +:+ String "_" r2 ->
  s1 = s2 /\ r1 = r2.
Proof.
  induction s1 as [|c1 s1 IH]; intros [|c2 s2] r1 r2 H1 H2; cbn.
  - by intros [= ->].
  - intros [= <- _]. by destruct H2.
  - intros [= -> _]. by destruct H1.
  - intros [= -> Hrest]. destruct H1 as [_ H1], H2 as [_ H2].
    destruct (IH s2 r1 r2 H1 H2 Hrest) as [-> ->]. done.
Qed.

(** X28. [generateOperationId] is an injective encoding of what it reads:
    two ids are equal only when both the clock reading and the random
    fragment they were built from are equal. *)
Theorem X28_operation_ids_encode_clock_and_fragment (e1 e2 : Entropy) :
  generateOperationId e1 = generateOperationId e2 ->
  idClock e1 = idClock e2 /\ idRandom e1 = idRandom e2.
Proof.
  unfold generateOperationId. cbn. intros [= Heq].
  destruct (split_at_first_underscore _ _ _ _
              (pretty_Z_underscore_free (idClock e1))
              (pretty_Z_underscore_free (idClock e2)) Heq) as [Hclock Hrand].
  split; [by apply (inj pretty)|done].
Qed.

Lemma X28_witness :
  generateOperationId (Sample.entropy 7) = generateOperationId (Sample.entropy 7)
  /\ idClock (Sample.entropy 7) = 1700000000007.
Proof.
  split; [reflexivity|].
  exact (proj1 (X28_operation_ids_encode_clock_and_fragment
                  (Sample.entropy 7) (Sample.entropy 7) eq_refl)).
Defined.

(** * What the presence handlers send *)

Section PresenceMessages.

Context {Payload PathData Coord : Type}.
Implicit Types (m : RoomManager Payload) (w : World Payload).


Lemma onDisconnect_indexed (c r : string) w room :
  userRooms (manager w) !! c = Some r -> r <> ""%string ->
  rooms (manager w) !! r = Some room ->
  let room' := {| room_id := room_id room; state := state room;
                  users := JsMap.delete c (users room);
                  createdAt := createdAt room |} in
  let m' := {| rooms := <[r := room']> (rooms (manager w));
               userRooms := delete c (userRooms (manager w)) |} in
  manager (fst (onDisconnect c w)) = m'
  /\ snd (onDisconnect c w)
     = [ ToOthers (room_id room)
           (UserDisconnected c (getRoomUsers (room_id room) m')) ].
Proof.
  intros Hc Hne Hr. unfold onDisconnect, removeUser. rewrite Hc.
  destruct (decide (r = ""%string)); [done|]. by rewrite Hr.
Qed.

(** X30. What a disconnection sends, in any state the server reaches: when
    the connection was in a room, the members that remain are sent the id of
    the leaver and the member list of that room after the removal, a list
    that no longer names the leaver; when the connection was in no room,
    nothing is sent and nothing changes. *)
Theorem X30_disconnect_message
    (evs : list (ServerEvent Payload PathData Coord)) (c : string) :
  exists w, serverRun evs = Some w
    /\ match userRooms (manager w) !! c with
       | Some r =>
           snd (onDisconnect c w)
           = [ ToOthers r
                 (UserDisconnected c
                    (getRoomUsers r (manager (fst (onDisconnect c w))))) ]
           /\ (c ∉ map user_id
                     (getRoomUsers r (manager (fst (onDisconnect c w)))))
           /\ userRooms (manager (fst (onDisconnect c w))) !! c = None
       | None =>
           snd (onDisconnect c w) = []
           /\ manager (fst (onDisconnect c w)) = manager w
           /\ pending (fst (onDisconnect c w)) = pending w
       end.
Proof.
  destruct (serverRun_ok evs) as (w & Hrun & Hm & _).
  exists w. split; [done|].
  pose proof (leave_consistent c w Hm) as [Hrooms' _].
  rewrite <- onDisconnect_leave in Hrooms'.
  destruct (lookups_consistent c (manager w) Hm)
    as [[_ Hnone]|(r & room & u & Hc & Hne & Hr & Hid & _)].
  - rewrite Hnone. unfold onDisconnect, removeUser. rewrite Hnone. cbn.
    by rewrite app_nil_r.
  - rewrite Hc.
    destruct (onDisconnect_indexed c r w room Hc Hne Hr) as [Hmgr Hout].
    cbv zeta in Hmgr, Hout. rewrite Hmgr in *. rewrite Hout, Hid.
    split; [done|]. split; [|apply lookup_delete_eq].
    unfold getRoomUsers. cbn. rewrite lookup_insert_eq. cbn.
    destruct (Hrooms' r _ (lookup_insert_eq _ _ _)) as (_ & _ & Hnd & Hrec).
    cbn in Hnd, Hrec.
    destruct (ids_are_keys (JsMap.delete c (users room)) Hnd) as [Hids _].
    { intros k v Hk. by apply Hrec. }
    unfold JsMap.values, JsMap.keys in Hids. rewrite Hids.
    apply (not_elem_keys_delete c (users room)).
Qed.

End PresenceMessages.

Lemma X30_witness :
  exists w, @serverRun string string Z Cases.aDrew = Some w
    /\ userRooms (manager w) !! "a"%string = Some "r1"%string
    /\ snd (onDisconnect "a" w)
       = [ ToOthers "r1" (UserDisconnected "a" []) ].
Proof.
  destruct (@X30_disconnect_message string string Z Cases.aDrew "a"%string)
    as (w & Hrun & Hmsg).
  assert (userRooms (manager w) !! "a"%string = Some "r1"%string) as Hc.
  { pose proof Hrun as Hw. vm_compute in Hw. injection Hw as <-.
    vm_compute. reflexivity. }
  exists w. split; [exact Hrun|]. split; [exact Hc|].
  rewrite Hc in Hmsg. destruct Hmsg as (Hout & _ & _). rewrite Hout.
  pose proof Hrun as Hw. vm_compute in Hw. injection Hw as <-.
  vm_compute. reflexivity.
Defined.
